(** * WorkersAIDurableObject: the chat session of the Durable Object

    A shallow embedding of the websocket chat handlers of the Durable
    Object class (webSocketMessage, handleChat, handleRegenerate) and of
    the tool-call accumulation done inside handleChat's stream loop,
    followed by the properties of the specification that concern them.

    Conventions of the embedding.
    - An optional JavaScript string ([string | undefined | null]) is an
      [option string]; [truthy] is JavaScript truthiness of such a value
      (defined and not the empty string).
    - A JavaScript [Map] keeps its keys in insertion order and the code
      reads that order ([Array.from(map.values())[0]]), so the map is an
      association list in insertion order.
    - A table is the list of its rows in the order they were inserted.
      A query with [ORDER BY] sorts them, text being compared byte by
      byte; rows with equal keys, whose order the statement leaves open,
      stay in the order of the table.
    - [abort()] only sets a signal.  What the provider does with it is
      part of the environment; the stream the handlers iterate is the
      [Stream] of the openai package, whose iteration ends without a throw
      once its signal is aborted.
    - The websocket is open: [ws.send] appends to the trace and does not
      throw.  Storage operations do not throw either.
    - The completion provider, the clock and [crypto.randomUUID] are the
      environment: what they return is an input of the step that awaits
      them. *)

From Stdlib Require Import List String ZArith Bool Lia.
From Stdlib Require Import Permutation Sorted.
Import ListNotations.

Local Open Scope list_scope.

(** ** JavaScript values *)

Module Js.

(** [if (s)] for an optional string. *)
Definition truthy (s : option string) : bool :=
  match s with
  | Some v => negb (v =? "")%string
  | None => false
  end.

(** [s || d] where [d] is a string. *)
Definition or_else (s : option string) (d : string) : string :=
  match s with
  | Some v => if (v =? "")%string then d else v
  | None => d
  end.

End Js.

(** ** The chunks of a streamed completion

    [ChatCompletionChunk.Choice.Delta.ToolCall] and the part of a chunk the
    handlers read. *)

Record ToolCallFunction : Type := mkFunction {
  fn_name : option string;
  fn_arguments : option string
}.

Record ToolCall : Type := mkToolCall {
  tc_index : Z;
  tc_id : option string;
  tc_type : option string;
  tc_function : option ToolCallFunction
}.

Record Delta : Type := mkDelta {
  delta_content : option string;
  delta_tool_calls : option (list ToolCall)
}.

(** A chunk is its [choices] array; each choice is read for its [delta]. *)
Definition Chunk : Type := list Delta.

(** [toolCall.function?.name] and [toolCall.function?.arguments]. *)
Definition function_name (t : ToolCall) : option string :=
  match tc_function t with Some f => fn_name f | None => None end.

Definition function_arguments (t : ToolCall) : option string :=
  match tc_function t with Some f => fn_arguments f | None => None end.

(** ** [Map<number, ToolCall>] in insertion order *)

Module ToolCallMap.

Definition t : Type := list (Z * ToolCall).

Definition empty : t := [].

Fixpoint get (k : Z) (m : t) : option ToolCall :=
  match m with
  | [] => None
  | (k', v) :: m' => if (k' =? k)%Z then Some v else get k m'
  end.

(** [Map.prototype.set]: an existing key keeps its position, a new key
    goes last.  Mutating the object stored under a key is a [set] of that
    key. *)
Fixpoint set (k : Z) (v : ToolCall) (m : t) : t :=
  match m with
  | [] => [(k, v)]
  | (k', v') :: m' =>
      if (k' =? k)%Z then (k, v) :: m' else (k', v') :: set k v m'
  end.

Definition size (m : t) : nat := List.length m.

(** [Array.from(m.values())[0]]. *)
Definition first (m : t) : option ToolCall :=
  match m with
  | [] => None
  | (_, v) :: _ => Some v
  end.

End ToolCallMap.

(** ** The tool-call accumulator (handleChat, the body of the loop over
    [delta.tool_calls]) *)

(** The four guarded assignments on an entry that exists. *)
Definition fill_in (existingToolCall toolCall : ToolCall) : ToolCall :=
  let e1 :=
    if Js.truthy (function_name toolCall) then
      let f := match tc_function existingToolCall with
               | Some f => f
               | None => mkFunction None None
               end in
      mkToolCall (tc_index existingToolCall) (tc_id existingToolCall)
        (tc_type existingToolCall)
        (Some (mkFunction (function_name toolCall) (fn_arguments f)))
    else existingToolCall in
  let e2 :=
    if Js.truthy (function_arguments toolCall) then
      let f := match tc_function e1 with
               | Some f => f
               | None => mkFunction None None
               end in
      mkToolCall (tc_index e1) (tc_id e1) (tc_type e1)
        (Some (mkFunction (fn_name f)
           (Some (Js.or_else (fn_arguments f) ""
                    ++ Js.or_else (function_arguments toolCall) "")%string)))
    else e1 in
  let e3 :=
    if Js.truthy (tc_id toolCall) then
      mkToolCall (tc_index e2) (tc_id toolCall) (tc_type e2) (tc_function e2)
    else e2 in
  if Js.truthy (tc_type toolCall) then
    mkToolCall (tc_index e3) (tc_id e3) (tc_type toolCall) (tc_function e3)
  else e3.

(** The object stored for an index seen for the first time. *)
Definition seed (toolCall : ToolCall) : ToolCall :=
  mkToolCall (tc_index toolCall) (tc_id toolCall) (tc_type toolCall)
    (Some (mkFunction (function_name toolCall)
             (Some (Js.or_else (function_arguments toolCall) "")))).

Definition mergeToolCall (toolCallMap : ToolCallMap.t) (toolCall : ToolCall)
  : ToolCallMap.t :=
  match ToolCallMap.get (tc_index toolCall) toolCallMap with
  | Some existingToolCall =>
      ToolCallMap.set (tc_index toolCall)
        (fill_in existingToolCall toolCall) toolCallMap
  | None =>
      ToolCallMap.set (tc_index toolCall) (seed toolCall) toolCallMap
  end.

(** [for (const toolCall of delta.tool_calls ?? [])]. *)
Definition mergeToolCalls (toolCallMap : ToolCallMap.t)
  (tool_calls : option (list ToolCall)) : ToolCallMap.t :=
  fold_left mergeToolCall
    (match tool_calls with Some l => l | None => [] end) toolCallMap.


(** ** Storage: the two tables of drizzle/schema.ts *)

Inductive Role : Type := user | assistant.

Record Conversation : Type := mkConversation {
  conversation_id : string;
  conversation_user_id : string;
  title : option string;
  pinned : bool;
  conversation_created_at : string;
  conversation_updated_at : string
}.

Record Message : Type := mkMessage {
  message_id : string;
  message_user_id : string;
  message_conversation_id : string;
  role : Role;
  content : string;
  message_created_at : string;
  message_updated_at : string
}.

Record Database : Type := mkDatabase {
  conversations : list Conversation;
  messages : list Message
}.

(** [db.query.conversations.findFirst] on [id]. *)
Definition findFirst (conversationId : string) (d : Database)
  : option Conversation :=
  find (fun c => (conversation_id c =? conversationId)%string)
    (conversations d).

(** [ORDER BY created_at ASC], one row at a time: the row goes before the
    first row that is not earlier than it.  Text is compared byte by
    byte. *)
Fixpoint insert_by_created_at (m : Message) (l : list Message)
  : list Message :=
  match l with
  | [] => [m]
  | x :: l' =>
      if (message_created_at m <=? message_created_at x)%string
      then m :: l
      else x :: insert_by_created_at m l'
  end.

(** The rows by ascending [created_at]; rows with the same [created_at],
    whose order the statement leaves open, keep the order of the table. *)
Definition order_by_created_at (l : list Message) : list Message :=
  fold_right insert_by_created_at [] l.

(** [db.query.messages.findMany] on [conversation_id], ascending
    [created_at]. *)
Definition findMany (conversationId : string) (d : Database) : list Message :=
  order_by_created_at
    (filter (fun m => (message_conversation_id m =? conversationId)%string)
       (messages d)).

(** ** What a handler does to the outside: frames sent, rows written,
    completion requests issued *)

Inductive WebSocketServerMessage : Type :=
| chat_stream_response (eventId conversationId content : string)
| chat_stream_done (eventId conversationId : string)
    (function_call : option (string * string))
| conversation_title_update (eventId conversationId title : string)
| error (eventId message : string).

Inductive PromptMessage : Type :=
| system_prompt (text : string)
| turn (r : Role) (text : string).

(** The body of a [chat.completions.create] call and its options: the
    abort signal, by the position of its controller, and the
    [cf-aig-skip-cache] header. *)
Record CompletionRequest : Type := mkRequest {
  req_model : string;
  req_messages : list PromptMessage;
  req_stream : bool;
  req_max_completion_tokens : Z;
  req_reasoning_effort : option string;
  req_store : bool;
  req_response_format : option string;
  req_signal : option nat;
  req_skip_cache : bool
}.

Inductive Effect : Type :=
| ws_send (m : WebSocketServerMessage)
| db_insert_message (row : Message)
| db_update_message_content (id text : string)
| db_update_conversation_updated_at (conversationId at_ : string)
| db_update_conversation_title (conversationId title_ : string)
| completions_create (req : CompletionRequest).

Definition set_content (text : string) (m : Message) : Message :=
  mkMessage (message_id m) (message_user_id m) (message_conversation_id m)
    (role m) text (message_created_at m) (message_updated_at m).

Definition set_updated_at (at_ : string) (c : Conversation) : Conversation :=
  mkConversation (conversation_id c) (conversation_user_id c) (title c)
    (pinned c) (conversation_created_at c) at_.

Definition set_title (title_ : string) (c : Conversation) : Conversation :=
  mkConversation (conversation_id c) (conversation_user_id c) (Some title_)
    (pinned c) (conversation_created_at c) (conversation_updated_at c).

Definition update_where {A : Type} (p : A -> bool) (f : A -> A) (l : list A)
  : list A :=
  map (fun x => if p x then f x else x) l.

(** The storage statement behind each effect. *)
Definition apply_effect (d : Database) (e : Effect) : Database :=
  match e with
  | db_insert_message row =>
      mkDatabase (conversations d) (messages d ++ [row])
  | db_update_message_content id text =>
      mkDatabase (conversations d)
        (update_where (fun m => (message_id m =? id)%string)
           (set_content text) (messages d))
  | db_update_conversation_updated_at conversationId at_ =>
      mkDatabase
        (update_where (fun c => (conversation_id c =? conversationId)%string)
           (set_updated_at at_) (conversations d))
        (messages d)
  | db_update_conversation_title conversationId title_ =>
      mkDatabase
        (update_where (fun c => (conversation_id c =? conversationId)%string)
           (set_title title_) (conversations d))
        (messages d)
  | ws_send _ | completions_create _ => d
  end.

Definition apply_effects (d : Database) (es : list Effect) : Database :=
  fold_left apply_effect es d.

(** ** The cancellation tokens of the object

    [controllers] holds the aborted flag of every [AbortController] the
    object has allocated, in allocation order; [abortController] is the
    position of the one the field [this.abortController] refers to. *)

Record Session : Type := mkSession {
  controllers : list bool;
  abortController : nat
}.

(** The constructor's [this.abortController = new AbortController()]. *)
Definition initial_session : Session := mkSession [false] 0.

(** [this.abortController = new AbortController()]. *)
Definition new_AbortController (s : Session) : Session :=
  mkSession (controllers s ++ [false]) (List.length (controllers s)).

Fixpoint set_nth {A : Type} (n : nat) (x : A) (l : list A) : list A :=
  match l, n with
  | [], _ => []
  | _ :: l', O => x :: l'
  | y :: l', S n' => y :: set_nth n' x l'
  end.

(** [this.abortController.abort()]. *)
Definition abort (s : Session) : Session :=
  mkSession (set_nth (abortController s) true (controllers s))
    (abortController s).

(** [signal.aborted] of the controller at position [k]. *)
Definition aborted (s : Session) (k : nat) : bool :=
  nth k (controllers s) false.

(** ** Frames received from the client ([WebSocketClientMessage]) *)

Definition ChatCompletionTool : Type := string.

Inductive WebSocketClientMessage : Type :=
| chat_stream_create (eventId conversationId text model : string)
    (tools : list ChatCompletionTool)
| chat_stream_cancel (eventId conversationId : string)
| client_conversation_title_update (eventId conversationId title_ : string)
| chat_regenerate (eventId conversationId model : string)
    (tools : list ChatCompletionTool).

(** ** The environment *)

(** What [new Date().toISOString()] and [crypto.randomUUID()] return
    during one step. *)
Record Env : Type := mkEnv {
  now : string;
  randomUUID : string
}.

(** A value thrown by the provider. *)
Inductive Thrown : Type :=
| error_named (name : string)
| not_an_error.

(** [error instanceof Error && error.name === "AbortError"]. *)
Definition is_AbortError (e : Thrown) : bool :=
  match e with
  | error_named n => (n =? "AbortError")%string
  | not_an_error => false
  end.

(** What an awaited provider interaction settles with: the streamed
    request with its stream, an iteration of the stream with a chunk or the
    end, the title request with the content of its first message.  Any of
    them can throw instead; a title completion without a first choice is
    such a throw, inside the [try] of the title block. *)
Inductive Reply : Type :=
| resolved_stream
| next_chunk (chunk : Chunk)
| stream_end
| resolved_completion (message_content : option string)
| rejected (e : Thrown).

(** ** Handler invocations suspended on the provider *)

Record ChatLocals : Type := mkChatLocals {
  chat_eventId : string;
  chat_conversationId : string;
  chat_conversation : Conversation;
  chat_messages : list PromptMessage;
  chat_signal : nat
}.

Record RegenerateLocals : Type := mkRegenerateLocals {
  regenerate_eventId : string;
  regenerate_conversationId : string;
  lastAssistantMessageId : string;
  regenerate_signal : nat
}.

Inductive Task : Type :=
| chat_awaiting_stream (l : ChatLocals)
| chat_streaming (l : ChatLocals) (response : string)
    (toolCallMap : ToolCallMap.t)
| chat_awaiting_title (l : ChatLocals) (response : string)
| regenerate_awaiting_stream (l : RegenerateLocals)
| regenerate_streaming (l : RegenerateLocals) (newResponse : string)
| settled.

(** ** handleChat *)

(** The outer [catch] of handleChat. *)
Definition chat_catch (eventId : string) : list Effect :=
  [ws_send (error eventId "An internal error occurred")].

(** From the entry of handleChat to the [await] of the streamed completion
    request.  Only storage is awaited in between, during which the object
    receives no other event. *)
Definition handleChat_begin (env : Env) (d : Database) (s : Session)
  (eventId conversationId text model : string)
  : Session * list Effect * Task :=
  let s' := new_AbortController s in
  match findFirst conversationId d with
  | None => (s', chat_catch eventId, settled)
  | Some conversation =>
      let row :=
        mkMessage (randomUUID env) "1" conversationId user text
          (now env) (now env) in
      let messages_ :=
        map (fun m => turn (role m) (content m))
          (findMany conversationId (apply_effect d (db_insert_message row))) in
      (s',
       [db_insert_message row;
        completions_create
          (mkRequest model messages_ true 10000%Z (Some "low"%string) true
             None (Some (abortController s')) false)],
       chat_awaiting_stream
         (mkChatLocals eventId conversationId conversation messages_
            (abortController s')))
  end.

(** The body of [for await (const chunk of stream)] once [delta] is read. *)
Definition chat_delta (eventId conversationId : string) (response : string)
  (toolCallMap : ToolCallMap.t) (delta : Delta)
  : list Effect * string * ToolCallMap.t :=
  let chunkContent := delta_content delta in
  let '(sent, response') :=
    if Js.truthy chunkContent then
      ([ws_send
          (chat_stream_response eventId conversationId
             (Js.or_else chunkContent ""))],
       (response ++ Js.or_else chunkContent "")%string)
    else ([], response) in
  let toolCallMap' := mergeToolCalls toolCallMap (delta_tool_calls delta) in
  let interim :=
    if (0 <? ToolCallMap.size toolCallMap')%nat then
      match ToolCallMap.first toolCallMap' with
      | Some toolCall =>
          if Js.truthy (function_name toolCall) then
            [ws_send
               (chat_stream_done eventId conversationId
                  (Some (Js.or_else (function_name toolCall) "",
                         Js.or_else (function_arguments toolCall) "")))]
          else []
      | None => []
      end
    else [] in
  (sent ++ interim, response', toolCallMap').

Definition double_quote : string := String (Ascii.ascii_of_nat 34) EmptyString.

Definition title_system_prompt : string :=
  ("You are a conversation title generator. Generate a concise, relevant title (max 1-2 sentences) for the following conversation, returning JSON like {"
   ++ double_quote ++ "title" ++ double_quote ++ ": " ++ double_quote
   ++ "Your Generated Title" ++ double_quote
   ++ "}. Match the conversation's language.")%string.

Definition title_request (l : ChatLocals) (response : string)
  : CompletionRequest :=
  mkRequest "@cf/meta/llama-4-scout-17b-16e-instruct"
    (system_prompt title_system_prompt
       :: chat_messages l ++ [turn assistant response])
    false 50%Z None false (Some "conversation_title"%string) None false.

(** The row inserted for the assistant turn. *)
Definition assistant_row (env : Env) (conversationId response : string)
  : Message :=
  mkMessage (randomUUID env) "1" conversationId assistant response
    (now env) (now env).

(** After the stream loop: the final frame, the assistant row, the
    [updated_at] bump and, for an untitled conversation, the title
    request. *)
Definition chat_finish (env : Env) (l : ChatLocals) (response : string)
  : list Effect * Task :=
  let doneMessage :=
    chat_stream_done (chat_eventId l) (chat_conversationId l) None in
  let written :=
    [ws_send doneMessage;
     db_insert_message (assistant_row env (chat_conversationId l) response);
     db_update_conversation_updated_at (chat_conversationId l) (now env)] in
  match title (chat_conversation l) with
  | None =>
      (written ++ [completions_create (title_request l response)],
       chat_awaiting_title l response)
  | Some _ => (written, settled)
  end.

Section Handlers.

(** [ConversationTitleExtraction.parse(JSON.parse(s))]: [None] when either
    throws, otherwise the [title] field. *)
Variable parseTitle : string -> option string.

(** The [try] block around the title completion, once it has resolved. *)
Definition chat_title (l : ChatLocals) (message_content : option string)
  : list Effect :=
  match parseTitle (Js.or_else message_content "{}") with
  | Some parsedTitle =>
      if Js.truthy (Some parsedTitle) then
        [db_update_conversation_title (chat_conversationId l) parsedTitle;
         ws_send
           (conversation_title_update (chat_eventId l) (chat_conversationId l)
              parsedTitle)]
      else []
  | None => []
  end.

(** ** handleRegenerate *)

(** The outer [catch] of handleRegenerate. *)
Definition regenerate_catch (eventId : string) : list Effect :=
  [ws_send (error eventId "An internal error occurred during regeneration.")].

(** [allMessages[allMessages.length - 1]]. *)
Definition last_message (allMessages : list Message) : option Message :=
  nth_error allMessages (List.length allMessages - 1).

Definition is_assistant (r : Role) : bool :=
  match r with assistant => true | user => false end.

(** From the entry of handleRegenerate to the [await] of the streamed
    completion request. *)
Definition handleRegenerate_begin (d : Database) (s : Session)
  (eventId conversationId model : string)
  : Session * list Effect * Task :=
  let s' := new_AbortController s in
  let allMessages := findMany conversationId d in
  match last_message allMessages with
  | Some lastAssistantMessage =>
      if (List.length allMessages <? 2)%nat
         || negb (is_assistant (role lastAssistantMessage))
      then
        (s', [ws_send (error eventId "Cannot regenerate the last message.")],
         settled)
      else
        let messagesForRegeneration :=
          map (fun m => turn (role m) (content m)) (removelast allMessages) in
        (s',
         [completions_create
            (mkRequest model messagesForRegeneration true 10000%Z
               (Some "low"%string) true None (Some (abortController s'))
               true)],
         regenerate_awaiting_stream
           (mkRegenerateLocals eventId conversationId
              (message_id lastAssistantMessage) (abortController s')))
  | None =>
      (s', [ws_send (error eventId "Cannot regenerate the last message.")],
       settled)
  end.

(** [chunk.choices?.[0]?.delta?.content] and the body of the loop. *)
Definition regenerate_chunk (l : RegenerateLocals) (newResponse : string)
  (chunk : Chunk) : list Effect * string :=
  let chunkContent :=
    match chunk with
    | delta :: _ => delta_content delta
    | [] => None
    end in
  if Js.truthy chunkContent then
    ([ws_send
        (chat_stream_response (regenerate_eventId l)
           (regenerate_conversationId l) (Js.or_else chunkContent ""))],
     (newResponse ++ Js.or_else chunkContent "")%string)
  else ([], newResponse).

(** After the stream loop of handleRegenerate. *)
Definition regenerate_finish (env : Env) (l : RegenerateLocals)
  (newResponse : string) : list Effect :=
  [ws_send
     (chat_stream_done (regenerate_eventId l) (regenerate_conversationId l)
        None);
   db_update_message_content (lastAssistantMessageId l) newResponse;
   db_update_conversation_updated_at (regenerate_conversationId l) (now env)].

(** ** Resuming a suspended invocation

    What the invocation does, from the provider interaction it awaits
    settling with [r] up to its next suspension or its return.  A reply
    that the awaited interaction cannot settle with leaves the invocation
    where it is. *)
Definition resume (env : Env) (task : Task) (r : Reply) : list Effect * Task :=
  match task, r with
  | chat_awaiting_stream l, resolved_stream =>
      ([], chat_streaming l "" ToolCallMap.empty)
  | chat_awaiting_stream l, rejected _ =>
      (chat_catch (chat_eventId l), settled)
  | chat_streaming l response toolCallMap, next_chunk chunk =>
      match chunk with
      | delta :: _ =>
          let '(es, response', toolCallMap') :=
            chat_delta (chat_eventId l) (chat_conversationId l) response
              toolCallMap delta in
          (es, chat_streaming l response' toolCallMap')
      | [] => (chat_catch (chat_eventId l), settled)
      end
  | chat_streaming l response _, stream_end => chat_finish env l response
  | chat_streaming l response _, rejected e =>
      if is_AbortError e then chat_finish env l response
      else (chat_catch (chat_eventId l), settled)
  | chat_awaiting_title l _, resolved_completion message_content =>
      (chat_title l message_content, settled)
  | chat_awaiting_title _ _, rejected _ => ([], settled)
  | regenerate_awaiting_stream l, resolved_stream =>
      ([], regenerate_streaming l "")
  | regenerate_awaiting_stream l, rejected _ =>
      (regenerate_catch (regenerate_eventId l), settled)
  | regenerate_streaming l newResponse, next_chunk chunk =>
      let '(es, newResponse') := regenerate_chunk l newResponse chunk in
      (es, regenerate_streaming l newResponse')
  | regenerate_streaming l newResponse, stream_end =>
      (regenerate_finish env l newResponse, settled)
  | regenerate_streaming l _, rejected e =>
      if is_AbortError e then ([], settled)
      else (regenerate_catch (regenerate_eventId l), settled)
  | _, _ => ([], task)
  end.

(** ** The Durable Object *)

Record World : Type := mkWorld {
  db : Database;
  session : Session;
  trace : list Effect;
  tasks : list Task
}.

(** The object after its constructor, over the storage [d]. *)
Definition initial_world (d : Database) : World :=
  mkWorld d initial_session [] [].

Definition started (w : World) (r : Session * list Effect * Task) : World :=
  let '(s', es, task) := r in
  mkWorld (apply_effects (db w) es) s' (trace w ++ es) (tasks w ++ [task]).

(** [webSocketMessage] up to the first suspension on the provider. *)
Definition webSocketMessage (env : Env) (w : World)
  (parsedMessage : WebSocketClientMessage) : World :=
  match parsedMessage with
  | chat_stream_create eventId conversationId text model _ =>
      started w
        (handleChat_begin env (db w) (session w) eventId conversationId text
           model)
  | chat_stream_cancel _ _ =>
      mkWorld (db w) (abort (session w)) (trace w) (tasks w)
  | chat_regenerate eventId conversationId model _ =>
      started w
        (handleRegenerate_begin (db w) (session w) eventId conversationId
           model)
  | client_conversation_title_update _ _ _ => w
  end.

(** The invocation numbered [task_id] is resumed with [r]. *)
Definition deliver (env : Env) (w : World) (task_id : nat) (r : Reply)
  : World :=
  match nth_error (tasks w) task_id with
  | Some task =>
      let '(es, task') := resume env task r in
      mkWorld (apply_effects (db w) es) (session w) (trace w ++ es)
        (set_nth task_id task' (tasks w))
  | None => w
  end.

Inductive Event : Type :=
| frame (parsedMessage : WebSocketClientMessage)
| reply (task_id : nat) (r : Reply).

Definition step (w : World) (i : Env * Event) : World :=
  match snd i with
  | frame parsedMessage => webSocketMessage (fst i) w parsedMessage
  | reply task_id r => deliver (fst i) w task_id r
  end.

Definition run (w : World) (inputs : list (Env * Event)) : World :=
  fold_left step inputs w.

End Handlers.

(** ** Observations on a trace *)

(** The frames sent, in order. *)
Definition sent (es : list Effect) : list WebSocketServerMessage :=
  flat_map (fun e => match e with ws_send m => [m] | _ => [] end) es.

Definition is_done (m : WebSocketServerMessage) : bool :=
  match m with chat_stream_done _ _ _ => true | _ => false end.

Definition is_error (m : WebSocketServerMessage) : bool :=
  match m with error _ _ => true | _ => false end.

Definition is_title_update (m : WebSocketServerMessage) : bool :=
  match m with conversation_title_update _ _ _ => true | _ => false end.

(** The [chat.stream.done] frames sent, in order. *)
Definition done_frames (es : list Effect) : list WebSocketServerMessage :=
  filter is_done (sent es).

(** The [function_call] field of a [chat.stream.done] frame. *)
Definition action (m : WebSocketServerMessage) : option (string * string) :=
  match m with chat_stream_done _ _ a => a | _ => None end.

(** The concatenation of the [content] of the [chat.stream.response]
    frames sent. *)
Definition streamed_text (es : list Effect) : string :=
  String.concat ""
    (flat_map
       (fun m => match m with chat_stream_response _ _ c => [c] | _ => [] end)
       (sent es)).

(** The rows inserted into [messages] with role [r], in order. *)
Definition inserted (r : Role) (es : list Effect) : list Message :=
  flat_map
    (fun e =>
       match e with
       | db_insert_message row =>
           match role row, r with
           | user, user | assistant, assistant => [row]
           | _, _ => []
           end
       | _ => []
       end) es.

Definition is_write (e : Effect) : bool :=
  match e with
  | db_insert_message _ | db_update_message_content _ _
  | db_update_conversation_updated_at _ _
  | db_update_conversation_title _ _ => true
  | ws_send _ | completions_create _ => false
  end.

(** The completion requests issued, in order. *)
Definition provider_calls (es : list Effect) : list CompletionRequest :=
  flat_map (fun e => match e with completions_create q => [q] | _ => [] end)
    es.

(** The title request is the one completion request that does not stream. *)
Definition title_attempts (es : list Effect) : list CompletionRequest :=
  filter (fun q => negb (req_stream q)) (provider_calls es).

(** Every [chat.stream.done] frame of [es] comes after the insertion of an
    assistant row ([seen] tells whether one precedes [es]). *)
Fixpoint done_after_persist (seen : bool) (es : list Effect) : bool :=
  match es with
  | [] => true
  | ws_send (chat_stream_done _ _ _) :: es' =>
      seen && done_after_persist seen es'
  | db_insert_message row :: es' =>
      done_after_persist (seen || is_assistant (role row)) es'
  | _ :: es' => done_after_persist seen es'
  end.

(** What a step or a run added to the trace. *)
Definition emitted (w w' : World) : list Effect :=
  skipn (List.length (trace w)) (trace w').

(** The invocations suspended on a streamed completion: those holding a
    cancellation signal. *)
Definition task_signal (task : Task) : option nat :=
  match task with
  | chat_awaiting_stream l | chat_streaming l _ _ => Some (chat_signal l)
  | regenerate_awaiting_stream l | regenerate_streaming l _ =>
      Some (regenerate_signal l)
  | chat_awaiting_title _ _ | settled => None
  end.

Definition outstanding (w : World) : list nat :=
  flat_map (fun task => match task_signal task with Some k => [k] | None => [] end)
    (tasks w).

(** ** One generation, from its frame to its end *)

(** The provider interactions of a streamed completion that resolved:
    the stream, its chunks and how iterating it ended. *)
Definition stream_replies (chunks : list Chunk) (fin : Reply) : list Reply :=
  resolved_stream :: map next_chunk chunks ++ [fin].

(** The stream loop was left by the end of the stream or by an
    [AbortError]. *)
Definition ends_stream (fin : Reply) : bool :=
  match fin with
  | stream_end => true
  | rejected e => is_AbortError e
  | _ => false
  end.

Definition cancels (fin : Reply) : bool :=
  match fin with
  | rejected e => is_AbortError e
  | _ => false
  end.

(** [chunk.choices[0]] is defined. *)
Definition has_choice (chunk : Chunk) : bool :=
  match chunk with [] => false | _ :: _ => true end.

(** The [delta] read from each chunk. *)
Definition deltas (chunks : list Chunk) : list Delta :=
  flat_map (fun chunk => match chunk with d :: _ => [d] | [] => [] end) chunks.

(** The text fragments of the deltas, in order. *)
Definition text_of (ds : list Delta) : string :=
  String.concat "" (map (fun d => Js.or_else (delta_content d) "") ds).

(** The tool-call fragments of the deltas, in arrival order, and the map
    they accumulate to. *)
Definition fragments (ds : list Delta) : list ToolCall :=
  flat_map
    (fun d => match delta_tool_calls d with Some l => l | None => [] end) ds.

Definition accumulate (fs : list ToolCall) : ToolCallMap.t :=
  fold_left mergeToolCall fs ToolCallMap.empty.

Section Generations.

Variable parseTitle : string -> option string.

(** The frame [parsedMessage] is handled at [env0] in [w]; the invocation
    it starts is then resumed with [rs], one after the other, at [env1]. *)
Definition generation (w : World) (env0 : Env)
  (parsedMessage : WebSocketClientMessage) (env1 : Env) (rs : list Reply)
  : World :=
  run parseTitle (webSocketMessage env0 w parsedMessage)
    (map (fun r => (env1, reply (List.length (tasks w)) r)) rs).

End Generations.

(** The title completion did not yield a title: the request was rejected,
    its output did not parse, or the parsed title is empty. *)
Definition title_failure (parseTitle : string -> option string) (r : Reply)
  : Prop :=
  match r with
  | rejected _ => True
  | resolved_completion message_content =>
      parseTitle (Js.or_else message_content "{}") = None
      \/ parseTitle (Js.or_else message_content "{}") = Some ""%string
  | _ => False
  end.

(** ** The accumulator, per index *)

(** The fragments addressed to index [i], in arrival order. *)
Definition fragments_at (i : Z) (fs : list ToolCall) : list ToolCall :=
  filter (fun f => (tc_index f =? i)%Z) fs.

(** The last non-empty value of a list of optional strings. *)
Fixpoint last_nonempty (vs : list (option string)) : option string :=
  match vs with
  | [] => None
  | v :: vs' =>
      match last_nonempty vs' with
      | Some x => Some x
      | None => if Js.truthy v then v else None
      end
  end.

(** The entry of an index after one more fragment for that index. *)
Definition merge_entry (o : option ToolCall) (f : ToolCall) : ToolCall :=
  match o with
  | Some existingToolCall => fill_in existingToolCall f
  | None => seed f
  end.

(** A field of an accumulated entry agrees with the values supplied for
    it: it is the last non-empty one, and it is empty (undefined or the
    empty string) when none was. *)
Definition filled_from (field : option string) (vs : list (option string))
  : Prop :=
  match last_nonempty vs with
  | Some x => field = Some x
  | None => Js.truthy field = false
  end.

(** The argument text a fragment carries (none when the field is
    missing). *)
Definition argument_text (f : ToolCall) : string :=
  match function_arguments f with Some a => a | None => ""%string end.

(** ** Runs of one invocation *)

Section Resumptions.

Variable parseTitle : string -> option string.

(** An invocation resumed with one reply after the other. *)
Fixpoint resume_all (env : Env) (task : Task) (rs : list Reply)
  : list Effect * Task :=
  match rs with
  | [] => ([], task)
  | r :: rs' =>
      let '(es, task') := resume parseTitle env task r in
      let '(es', task'') := resume_all env task' rs' in
      (es ++ es', task'')
  end.

End Resumptions.

(** The stream loop of handleChat over the deltas [ds], from the values
    [response] and [toolCallMap] of its variables. *)
Fixpoint chat_stream (eventId conversationId : string) (response : string)
  (toolCallMap : ToolCallMap.t) (ds : list Delta)
  : list Effect * string * ToolCallMap.t :=
  match ds with
  | [] => ([], response, toolCallMap)
  | d :: ds' =>
      let '(es, response', toolCallMap') :=
        chat_delta eventId conversationId response toolCallMap d in
      let '(es', response'', toolCallMap'') :=
        chat_stream eventId conversationId response' toolCallMap' ds' in
      (es ++ es', response'', toolCallMap'')
  end.

(** The stream loop of handleRegenerate over [chunks]. *)
Fixpoint regenerate_stream (l : RegenerateLocals) (newResponse : string)
  (chunks : list Chunk) : list Effect * string :=
  match chunks with
  | [] => ([], newResponse)
  | chunk :: chunks' =>
      let '(es, newResponse') := regenerate_chunk l newResponse chunk in
      let '(es', newResponse'') := regenerate_stream l newResponse' chunks' in
      (es ++ es', newResponse'')
  end.

(** [this.abortController] refers to a controller that was allocated. *)
Definition well_formed (s : Session) : Prop :=
  abortController s < List.length (controllers s).

(** The frames that start a generation. *)
Definition starts_generation (m : WebSocketClientMessage) : bool :=
  match m with
  | chat_stream_create _ _ _ _ _ | chat_regenerate _ _ _ _ => true
  | chat_stream_cancel _ _ | client_conversation_title_update _ _ _ => false
  end.

(** The worlds the object can be in: from its constructor, by frames and
    provider replies. *)
Definition reachable (parseTitle : string -> option string) (w : World)
  : Prop :=
  exists d inputs, w = run parseTitle (initial_world d) inputs.

(** The frame the stream loop of handleChat sends for the text of a
    delta, and the interim [chat.stream.done] frame it sends for a map. *)
Definition text_frame (eventId conversationId : string) (d : Delta)
  : list Effect :=
  if Js.truthy (delta_content d) then
    [ws_send
       (chat_stream_response eventId conversationId
          (Js.or_else (delta_content d) ""))]
  else [].

Definition interim_done (eventId conversationId : string)
  (toolCallMap : ToolCallMap.t) : list Effect :=
  match ToolCallMap.first toolCallMap with
  | Some toolCall =>
      if Js.truthy (function_name toolCall) then
        [ws_send
           (chat_stream_done eventId conversationId
              (Some (Js.or_else (function_name toolCall) "",
                     Js.or_else (function_arguments toolCall) "")))]
      else []
  | None => []
  end.

(** Effects that are frames only, none of them an error or a title
    update. *)
Definition only_frames (es : list Effect) : bool :=
  forallb
    (fun e =>
       match e with
       | ws_send m => negb (is_error m) && negb (is_title_update m)
       | _ => false
       end) es.

(** The rows inserted into [messages], in order. *)
Definition inserted_rows (es : list Effect) : list Message :=
  flat_map (fun e => match e with db_insert_message row => [row] | _ => [] end)
    es.

Definition is_content_update (e : Effect) : bool :=
  match e with db_update_message_content _ _ => true | _ => false end.

(** ** Sample data *)

Module Sample.

Local Open Scope string_scope.

(** A stand-in for the title parser: the output is its own title, except
    that an empty object has none. *)
Definition parseTitle (s : string) : option string :=
  if (s =? "{}")%string then None else Some s.

Definition env0 : Env := mkEnv "2025-01-01T00:00:00.000Z" "uuid-1".

Definition env1 : Env := mkEnv "2025-01-01T00:00:05.000Z" "uuid-2".

Definition untitled : Conversation :=
  mkConversation "c1" "1" None false "2025-01-01T00:00:00.000Z"
    "2025-01-01T00:00:00.000Z".

Definition storage : Database := mkDatabase [untitled] [].

Definition world : World := initial_world storage.

Definition text_delta (s : string) : Chunk := [mkDelta (Some s) None].

Definition tool_delta (f : ToolCall) : Chunk := [mkDelta None (Some [f])].

(** "Hi", " there". *)
Definition greeting : list Chunk := [text_delta "Hi"; text_delta " there"].

(** One tool call at index 0: its name first, then its arguments in two
    pieces. *)
Definition lookup : list Chunk :=
  [tool_delta
     (mkToolCall 0 (Some "call_1") (Some "function")
        (Some (mkFunction (Some "lookup") (Some ""))));
   tool_delta (mkToolCall 0 None None (Some (mkFunction None (Some "{q:"))));
   tool_delta (mkToolCall 0 None None (Some (mkFunction None (Some "x}"))))].

Definition hello : WebSocketClientMessage :=
  chat_stream_create "e1" "c1" "Hello" "@cf/model" [].

Definition again : WebSocketClientMessage :=
  chat_stream_create "e2" "c1" "Again" "@cf/model" [].

Definition abort_error : Reply := rejected (error_named "AbortError").

(** A conversation with one user turn and one assistant turn. *)
Definition two_turns : Database :=
  mkDatabase [untitled]
    [mkMessage "m1" "1" "c1" user "Hello"
      "2024-12-31T23:00:00.000Z" "2024-12-31T23:00:00.000Z";
     mkMessage "m2" "1" "c1" assistant "Hi there"
      "2024-12-31T23:00:05.000Z" "2024-12-31T23:00:05.000Z"].

Definition one_turn : Database :=
  mkDatabase [untitled]
    [mkMessage "m1" "1" "c1" user "Hello"
       "2024-12-31T23:00:00.000Z" "2024-12-31T23:00:00.000Z"].

Definition regenerate : WebSocketClientMessage :=
  chat_regenerate "e3" "c1" "@cf/model" [].

End Sample.

Definition is_title_write (e : Effect) : bool :=
  match e with db_update_conversation_title _ _ => true | _ => false end.

(** A [chat.stream.done] frame without an action. *)
Definition is_final_done (m : WebSocketServerMessage) : bool :=
  match m with chat_stream_done _ _ None => true | _ => false end.

(** Effects that write nothing and complete nothing: frames other than
    [chat.stream.done], and completion requests. *)
Definition quiet (es : list Effect) : bool :=
  forallb
    (fun e =>
       match e with
       | ws_send m => negb (is_done m)
       | completions_create _ => true
       | _ => false
       end) es.

(** An invocation of handleRegenerate, or one that has returned. *)
Definition regenerating (task : Task) : bool :=
  match task with
  | regenerate_awaiting_stream _ | regenerate_streaming _ _ | settled => true
  | _ => false
  end.

Definition is_stream_end (r : Reply) : bool :=
  match r with stream_end => true | _ => false end.

(** The runs of the sample data. *)
Module Runs.

Import Sample.

Local Open Scope string_scope.

Definition title_message : Reply := resolved_completion (Some "A greeting").

(** "Hello" answered by "Hi", " there"; the stream ends. *)
Definition greeted : World :=
  generation parseTitle world env0 hello env1
    (stream_replies greeting stream_end ++ [title_message]).

(** "Hello" answered by a tool call; the stream ends. *)
Definition looked_up : World :=
  generation parseTitle world env0 hello env1
    (stream_replies lookup stream_end ++ [title_message]).


(** "Hello" answered by "Hi", " there", then cancelled. *)
Definition greeting_cancelled : World :=
  generation parseTitle world env0 hello env1
    (stream_replies greeting abort_error ++ [rejected not_an_error]).

(** "Hello" is being answered when "Again" arrives. *)
Definition first_in_flight : World := webSocketMessage env0 world hello.

Definition both_in_flight : World :=
  webSocketMessage env1 first_in_flight again.

End Runs.

(** ** Generations that fail, and the requests of those that start *)

(** The row inserted for the user turn. *)
Definition user_row (env : Env) (conversationId text : string) : Message :=
  mkMessage (randomUUID env) "1" conversationId user text (now env) (now env).

(** The [role] and [content] columns of the messages of a conversation. *)
Definition history_turns (conversationId : string) (d : Database)
  : list PromptMessage :=
  map (fun m => turn (role m) (content m)) (findMany conversationId d).

(** The stream loop of handleChat is left by a throw that is not an
    [AbortError]: the provider throws one, or a chunk has no first choice
    and reading its [delta] throws. *)
Definition stream_fails (fin : Reply) : bool :=
  match fin with
  | rejected e => negb (is_AbortError e)
  | next_chunk [] => true
  | _ => false
  end.

(** [chunk.choices?.[0]?.delta?.content] of each chunk, concatenated: the
    value of [newResponse] after the loop of handleRegenerate. *)
Definition regenerated_text (chunks : list Chunk) : string :=
  String.concat ""
    (map
       (fun chunk =>
          Js.or_else
            (match chunk with d :: _ => delta_content d | [] => None end) "")
       chunks).

Definition is_reply (i : Env * Event) : bool :=
  match snd i with reply _ _ => true | frame _ => false end.

Definition is_conversation_write (e : Effect) : bool :=
  match e with
  | db_update_conversation_updated_at _ _
  | db_update_conversation_title _ _ => true
  | _ => false
  end.

(** ** The RPC methods of the object

    [listConversations], [createConversation], [deleteConversation],
    [renameConversation], [pinConversation], [unpinConversation] and
    [listMessages], each one storage statement or two.  The identifier
    [crypto.randomUUID] gives a new row is taken to be fresh, as for the
    message rows. *)

Definition set_pinned (b : bool) (c : Conversation) : Conversation :=
  mkConversation (conversation_id c) (conversation_user_id c) (title c) b
    (conversation_created_at c) (conversation_updated_at c).

(** The insert and its [returning()] row. *)
Definition createConversation (env : Env) (d : Database)
  : Database * Conversation :=
  let conversation :=
    mkConversation (randomUUID env) "1" None false (now env) (now env) in
  (mkDatabase (conversations d ++ [conversation]) (messages d), conversation).

Definition deleteConversation (conversationId : string) (d : Database)
  : Database :=
  mkDatabase
    (filter (fun c => negb (conversation_id c =? conversationId)%string)
       (conversations d))
    (filter (fun m => negb (message_conversation_id m =? conversationId)%string)
       (messages d)).

Definition renameConversation (conversationId title_ : string) (d : Database)
  : Database :=
  mkDatabase
    (update_where (fun c => (conversation_id c =? conversationId)%string)
       (set_title title_) (conversations d))
    (messages d).

Definition pinConversation (conversationId : string) (d : Database)
  : Database :=
  mkDatabase
    (update_where (fun c => (conversation_id c =? conversationId)%string)
       (set_pinned true) (conversations d))
    (messages d).

Definition unpinConversation (conversationId : string) (d : Database)
  : Database :=
  mkDatabase
    (update_where (fun c => (conversation_id c =? conversationId)%string)
       (set_pinned false) (conversations d))
    (messages d).

Definition listMessages (conversationId : string) (d : Database)
  : list Message :=
  findMany conversationId d.

(** [ORDER BY pinned DESC, updated_at DESC]: the row [a] may be listed
    before the row [b].  Text is compared byte by byte. *)
Definition listed_before (a b : Conversation) : bool :=
  match pinned a, pinned b with
  | true, false => true
  | false, true => false
  | _, _ => (conversation_updated_at b <=? conversation_updated_at a)%string
  end.

Fixpoint insert_listed (c : Conversation) (l : list Conversation)
  : list Conversation :=
  match l with
  | [] => [c]
  | x :: l' => if listed_before c x then c :: l else x :: insert_listed c l'
  end.

(** The rows in that order; rows with the same keys, whose order the
    statement leaves open, keep the order of the table. *)
Definition listConversations (d : Database) : list Conversation :=
  fold_right insert_listed [] (conversations d).

(** An RPC method runs on the storage of the object between two awaits of
    its websocket handlers. *)
Definition rpc (method : Database -> Database) (w : World) : World :=
  mkWorld (method (db w)) (session w) (trace w) (tasks w).

(** More sample data. *)
Module Fixtures.

Local Open Scope string_scope.

Definition titled : Conversation :=
  mkConversation "c2" "1" (Some "Plans") true "2025-01-01T00:00:00.000Z"
    "2025-01-02T00:00:00.000Z".

Definition storage : Database :=
  mkDatabase [Sample.untitled; titled]
    [mkMessage "m1" "1" "c1" user "Hello"
      "2024-12-31T23:00:00.000Z" "2024-12-31T23:00:00.000Z";
     mkMessage "m2" "1" "c1" assistant "Hi there"
      "2024-12-31T23:00:05.000Z" "2024-12-31T23:00:05.000Z";
     mkMessage "m3" "1" "c2" user "Plan"
      "2024-12-31T23:30:00.000Z" "2024-12-31T23:30:00.000Z"].

Definition world : World := initial_world storage.

Definition plan : WebSocketClientMessage :=
  chat_stream_create "e4" "c2" "More" "@cf/model" [].

(** "Hello" is being answered: "Hi" has been streamed. *)
Definition streaming : World :=
  run Sample.parseTitle (webSocketMessage Sample.env0 Sample.world Sample.hello)
    [(Sample.env1, reply 0 resolved_stream);
     (Sample.env1, reply 0 (next_chunk (Sample.text_delta "Hi")))].

Definition fresh : Env := mkEnv "2025-01-03T00:00:00.000Z" "uuid-9".

End Fixtures.

(** ** Access tokens: the interceptor and the registration of
    src/connect.ts, the entry point of src/index.ts

    The KV namespace is what [KV.get] returns for each key; the parts of a
    request the code reads (method, path, headers, search parameter) are
    given as they are read. *)

Module Access.

Local Open Scope string_scope.

Definition KV : Type := string -> option string.

(** [KV.put(key, value)]. *)
Definition put (key value : string) (kv : KV) : KV :=
  fun k => if k =? key then Some value else kv k.

Definition token_key (accessToken : string) : string :=
  "anonymous_access_token:" ++ accessToken.

Inductive Code : Type := Unauthenticated | Internal.

Inductive Result (A : Type) : Type :=
| throws (code : Code) (message : string)
| returns (a : A).

Arguments throws {A} code message.
Arguments returns {A} a.

(** The value of [userStore] in the context values of a request:
    undefined, or an object whose [accessToken] is a string or null. *)
Definition UserContext : Type := option (option string).

(** What [createWorkerHandler] is given as [contextValues]. *)
Definition initial_context : UserContext := Some (Some "").

Definition PUBLIC_ROUTES : list string := ["anonymousRegister"].

(** [anonymousInterceptor]: the error it throws, or the [userStore] value
    with which [next(req)] is called. *)
Definition anonymousInterceptor (kv : KV) (method_name : string)
  (authorization : option string) (userCtx : UserContext)
  : Result UserContext :=
  if existsb (String.eqb method_name) PUBLIC_ROUTES then returns userCtx
  else
    let accessToken := authorization in
    if Js.truthy accessToken
       && negb (Js.truthy (kv (token_key (Js.or_else accessToken ""))))
    then throws Unauthenticated "Unauthorized"
    else
      match userCtx with
      | None => throws Internal "No user context"
      | Some _ => returns (Some accessToken)
      end.

Definition getUserAccessToken (userCtx : UserContext)
  : Result (option string) :=
  match userCtx with
  | None => throws Internal "No user context"
  | Some accessToken => returns accessToken
  end.

(** [anonymousRegister], with the identifier [crypto.randomUUID] gives. *)
Definition anonymousRegister (kv : KV) (accessToken : string)
  : Result (KV * string) :=
  let key := token_key accessToken in
  if Js.truthy (kv key) then throws Unauthenticated "Unauthorized"
  else returns (put key accessToken kv, accessToken).

(** The parts of a request the entry point reads. *)
Record Request : Type := mkRequest {
  method : string;
  pathname : string;
  upgrade : option string;
  accessToken_param : option string;
  origin : option string
}.

(** Where the entry point sends a request: a response of its own, the
    Durable Object named by the token, or the RPC handler, whose response
    gets the given [Access-Control-Allow-Origin]. *)
Inductive Routed : Type :=
| response (status : nat) (body : option string)
    (headers : list (string * string))
| durable_object (name : string)
| rpc_handler (allow_origin : string).

(** [origin ?? "*"]. *)
Definition origin_or_star (o : option string) : string :=
  match o with Some v => v | None => "*" end.

Definition fetch (kv : KV) (request : Request) : Routed :=
  if (method request =? "GET") && (pathname request =? "/websocket") then
    match upgrade request with
    | Some "websocket" =>
        if negb (Js.truthy (accessToken_param request)) then
          response 401 (Some "Unauthorized") []
        else if negb (Js.truthy
                        (kv (token_key
                               (Js.or_else (accessToken_param request) ""))))
        then response 401 (Some "Unauthorized") []
        else durable_object (Js.or_else (accessToken_param request) "")
    | _ => response 400 (Some "Expected Upgrade: websocket") []
    end
  else if (method request =? "OPTIONS") && Js.truthy (origin request) then
    response 200 None
      [("Access-Control-Allow-Origin", origin_or_star (origin request));
       ("Access-Control-Allow-Methods", "GET, POST");
       ("Access-Control-Allow-Headers", "*");
       ("Access-Control-Max-Age", "86400")]
  else rpc_handler (origin_or_star (origin request)).

(** A token is registered: [KV.get] of its key is not empty. *)
Definition registered (kv : KV) (accessToken : string) : bool :=
  Js.truthy (kv (token_key accessToken)).

Definition empty_kv : KV := fun _ => None.

End Access.

(** ** streamTTS (src/connect.ts)

    The text is the sequence of its UTF-16 code units, which is what the
    regular expression and [trim] work on.  The two models are the
    environment: the chunking request answers with chunks or throws, and
    the [n]-th speech request, with the decoding of its answer, yields
    the audio bytes or throws. *)

Module Speech.

Definition Text : Type := list N.

Definition Audio : Type := list N.

(** The code units matched by [\s] and removed by [trim]: WhiteSpace and
    LineTerminator. *)
Definition is_space (c : N) : bool :=
  existsb (N.eqb c)
    [9; 10; 11; 12; 13; 32; 160; 5760; 8232; 8233; 8239; 8287; 12288; 65279]%N
  || ((8192 <=? c) && (c <=? 8202))%N.

(** [text.split(/\s+/)]: the pieces between the maximal runs of
    whitespace; [in_space] tells that the code unit before was
    whitespace. *)
Fixpoint split_spaces (in_space : bool) (text : Text) : list Text :=
  match text with
  | [] => [[]]
  | c :: text' =>
      if is_space c then
        if in_space then split_spaces true text'
        else [] :: split_spaces true text'
      else
        match split_spaces false text' with
        | piece :: pieces => (c :: piece) :: pieces
        | [] => [[c]]
        end
  end.

(** [.filter(Boolean)] on strings. *)
Definition nonempty (t : Text) : bool :=
  match t with [] => false | _ :: _ => true end.

Definition words (text : Text) : list Text :=
  filter nonempty (split_spaces false text).

Definition TTS_SHORT_TEXT_WORD_THRESHOLD : nat := 100.

(** [!chunk || chunk.trim().length === 0]. *)
Definition blank (chunk : Text) : bool := forallb is_space chunk.

Section Models.

Variable chunking : Text -> option (list Text).
Variable synthesize : nat -> Text -> option Audio.

(** The loop over the chunks, [n] speech requests having been made: the
    prompts requested and the audio yielded.  A throw ends the
    generator. *)
Fixpoint speak (n : nat) (chunks : list Text) : list Text * list Audio :=
  match chunks with
  | [] => ([], [])
  | chunk :: rest =>
      if blank chunk then speak n rest
      else
        match synthesize n chunk with
        | Some audio =>
            let '(prompts, yielded) := speak (S n) rest in
            (chunk :: prompts, audio :: yielded)
        | None => ([chunk], [])
        end
  end.

(** Whether the chunking request was made, the speech prompts requested
    and the audio yielded. *)
Definition streamTTS (text : Text) : bool * (list Text * list Audio) :=
  if (List.length (words text) <? TTS_SHORT_TEXT_WORD_THRESHOLD)%nat then
    (false, speak 0 [text])
  else
    match chunking text with
    | Some chunks => (true, speak 0 chunks)
    | None => (true, ([], []))
    end.

End Models.

End Speech.

(** ** How a cancellation reaches an invocation

    [abort()] sets the signal of the current controller and nothing else.
    The invocation whose request carries that signal learns of it through
    what its awaited provider interaction settles with next.  The stream
    the handlers iterate is the [Stream] of the openai package, which is
    not code of this repository: its iterator catches the abort of its
    signal and returns, so that the [for await] loop ends as it does at
    the end of the stream, without a throw. *)
Definition iteration_after_abort : Reply := stream_end.

(** A generation cancelled while its stream is iterated: the stream of
    the invocation numbered [task_id] is resolved and gives [chunks], a
    [chat.stream.cancel] frame is handled, and the iteration that follows
    settles as the iterator does after the abort. *)
Definition cancelled_midstream (env : Env) (task_id : nat)
  (chunks : list Chunk) (eventId conversationId : string)
  : list (Env * Event) :=
  map (fun r => (env, reply task_id r))
    (resolved_stream :: map next_chunk chunks)
  ++ [(env, frame (chat_stream_cancel eventId conversationId));
      (env, reply task_id iteration_after_abort)].

(** More runs of the sample data. *)
Module MoreRuns.

Local Open Scope string_scope.

Definition last_turn : Message :=
  mkMessage "m2" "1" "c1" assistant "Hi there"
      "2024-12-31T23:00:05.000Z" "2024-12-31T23:00:05.000Z".

Definition two_turns : World := initial_world Sample.two_turns.

(** The titled conversation gets one more turn. *)
Definition planned : World :=
  generation Sample.parseTitle Fixtures.world Sample.env0 Fixtures.plan
    Sample.env1
    (stream_replies Sample.greeting stream_end ++ [Runs.title_message]).

(** The last turn is regenerated as "Hi", " there". *)
Definition regenerated : World :=
  generation Sample.parseTitle two_turns Sample.env0 Sample.regenerate
    Sample.env1 (stream_replies Sample.greeting stream_end ++ []).

(** "Again" on the conversation of two turns, answered by "Hi", " there". *)
Definition answered_again : World :=
  generation Sample.parseTitle two_turns Sample.env0 Sample.again Sample.env1
    (stream_replies Sample.greeting stream_end ++ [Runs.title_message]).

Definition hello_request : CompletionRequest :=
  mkRequest "@cf/model" [turn user "Hello"] true 10000%Z (Some "low") true
    None (Some 1) false.

Definition hello_locals : ChatLocals :=
  mkChatLocals "e1" "c1" Sample.untitled [turn user "Hello"] 1.

(** The conversation of "Hello" is renamed before the turn. *)
Definition renamed_first : World :=
  generation Sample.parseTitle
    (rpc (renameConversation "c1" "") Sample.world) Sample.env0 Sample.hello
    Sample.env1
    (stream_replies Sample.greeting stream_end ++ [Runs.title_message]).

(** The last turn is regenerated; "Hi" has been streamed when the client
    cancels. *)
Definition regenerate_cancelled : World :=
  run Sample.parseTitle
    (webSocketMessage Sample.env0 two_turns Sample.regenerate)
    (cancelled_midstream Sample.env1 0 [Sample.text_delta "Hi"] "e9" "c1").


End MoreRuns.

(** * Properties *)

(** ** Strings and JavaScript values *)

Lemma append_empty_r (s : string) : (s ++ "")%string = s.
Proof. induction s as [|c s IH]; simpl; [reflexivity | now rewrite IH]. Qed.

Lemma append_assoc (a b c : string) :
  ((a ++ b) ++ c)%string = (a ++ (b ++ c))%string.
Proof. induction a as [|x a IH]; simpl; [reflexivity | now rewrite IH]. Qed.

Lemma concat_cons (x : string) (l : list string) :
  String.concat "" (x :: l) = (x ++ String.concat "" l)%string.
Proof.
  destruct l as [|y l]; simpl; [now rewrite append_empty_r | reflexivity].
Qed.

Lemma concat_app (l1 l2 : list string) :
  String.concat "" (l1 ++ l2)
  = (String.concat "" l1 ++ String.concat "" l2)%string.
Proof.
  induction l1 as [|x l1 IH]; [reflexivity|].
  change ((x :: l1) ++ l2) with (x :: (l1 ++ l2)).
  now rewrite !concat_cons, IH, append_assoc.
Qed.

Module JsFacts.

Lemma or_else_empty (s : option string) :
  Js.truthy s = false -> Js.or_else s "" = ""%string.
Proof.
  destruct s as [v|]; simpl; [|reflexivity].
  destruct (String.eqb_spec v ""); [reflexivity | discriminate].
Qed.

Lemma or_else_truthy (s : option string) (d : string) :
  Js.truthy s = true -> s = Some (Js.or_else s d).
Proof.
  destruct s as [v|]; simpl; [|discriminate].
  destruct (String.eqb_spec v ""); [discriminate | reflexivity].
Qed.

Lemma or_else_text (s : option string) :
  Js.or_else s "" = match s with Some v => v | None => ""%string end.
Proof.
  destruct s as [v|]; simpl; [|reflexivity].
  destruct (String.eqb_spec v ""); congruence.
Qed.

End JsFacts.

(** ** The insertion-ordered map *)

Module ToolCallMapFacts.

Import ToolCallMap.

Lemma get_set (k k' : Z) (v : ToolCall) (m : t) :
  get k' (set k v m) = if (k =? k')%Z then Some v else get k' m.
Proof.
  induction m as [|[j w] m IH]; simpl.
  - reflexivity.
  - destruct (Z.eqb_spec j k) as [->|Hjk]; simpl.
    + destruct (Z.eqb_spec k k'); reflexivity.
    + rewrite IH. destruct (Z.eqb_spec j k') as [->|Hjk'].
      * destruct (Z.eqb_spec k k'); [congruence | reflexivity].
      * reflexivity.
Qed.

End ToolCallMapFacts.

(** ** The accumulator *)

Section Accumulator.

Lemma get_mergeToolCall (m : ToolCallMap.t) (f : ToolCall) (i : Z) :
  ToolCallMap.get i (mergeToolCall m f)
  = if (tc_index f =? i)%Z then Some (merge_entry (ToolCallMap.get i m) f)
    else ToolCallMap.get i m.
Proof.
  unfold mergeToolCall.
  destruct (ToolCallMap.get (tc_index f) m) as [e|] eqn:E;
    rewrite ToolCallMapFacts.get_set;
    destruct (Z.eqb_spec (tc_index f) i) as [<-|]; try reflexivity;
    now rewrite E.
Qed.

Lemma get_fold_mergeToolCall (fs : list ToolCall) (m : ToolCallMap.t) (i : Z) :
  ToolCallMap.get i (fold_left mergeToolCall fs m)
  = fold_left (fun o f => Some (merge_entry o f)) (fragments_at i fs)
      (ToolCallMap.get i m).
Proof.
  revert m. induction fs as [|f fs IH]; intros m; simpl; [reflexivity|].
  rewrite IH, get_mergeToolCall.
  destruct (tc_index f =? i)%Z; reflexivity.
Qed.

(** *** What one fragment does to each field of an existing entry *)

Lemma fill_in_name (e f : ToolCall) :
  function_name (fill_in e f)
  = if Js.truthy (function_name f) then function_name f else function_name e.
Proof.
  unfold fill_in.
  destruct (Js.truthy (function_name f)), (Js.truthy (function_arguments f)),
    (Js.truthy (tc_id f)), (Js.truthy (tc_type f)); try reflexivity;
    unfold function_name; simpl; destruct (tc_function e); reflexivity.
Qed.

Lemma fill_in_id (e f : ToolCall) :
  tc_id (fill_in e f) = if Js.truthy (tc_id f) then tc_id f else tc_id e.
Proof.
  unfold fill_in.
  destruct (Js.truthy (function_name f)), (Js.truthy (function_arguments f)),
    (Js.truthy (tc_id f)), (Js.truthy (tc_type f)); reflexivity.
Qed.

Lemma fill_in_type (e f : ToolCall) :
  tc_type (fill_in e f)
  = if Js.truthy (tc_type f) then tc_type f else tc_type e.
Proof.
  unfold fill_in.
  destruct (Js.truthy (function_name f)), (Js.truthy (function_arguments f)),
    (Js.truthy (tc_id f)), (Js.truthy (tc_type f)); reflexivity.
Qed.

Lemma fill_in_arguments (e f : ToolCall) (a : string) :
  function_arguments e = Some a ->
  function_arguments (fill_in e f)
  = Some (a ++ Js.or_else (function_arguments f) "")%string.
Proof.
  intros Ha.
  assert (Hor : Js.or_else (Some a) "" = a) by apply JsFacts.or_else_text.
  unfold fill_in.
  destruct (Js.truthy (function_arguments f)) eqn:Targs.
  - unfold function_arguments in *.
    destruct e as [ei eid ety [[ename eargs]|]]; simpl in *; [|discriminate].
    subst eargs.
    destruct (Js.truthy (function_name f)), (Js.truthy (tc_id f)),
      (Js.truthy (tc_type f)); simpl; now rewrite ?Hor.
  - rewrite (JsFacts.or_else_empty _ Targs), append_empty_r.
    unfold function_arguments in *.
    destruct e as [ei eid ety [[ename eargs]|]]; simpl in *; [|discriminate].
    destruct (Js.truthy (function_name f)), (Js.truthy (tc_id f)),
      (Js.truthy (tc_type f)); simpl; assumption.
Qed.

(** *** What a run of fragments does to each field *)

(** A guarded overwrite, folded: the last non-empty value wins, and the
    starting value stays when there is none. *)
Lemma overwrite_fold (field : ToolCall -> option string)
  (Hfill : forall e f,
      field (fill_in e f)
      = if Js.truthy (field f) then field f else field e)
  (fs : list ToolCall) (e0 e : ToolCall) :
  fold_left (fun o f => Some (merge_entry o f)) fs (Some e0) = Some e ->
  field e = match last_nonempty (map field fs) with
            | Some x => Some x
            | None => field e0
            end.
Proof.
  revert e0. induction fs as [|f fs IH]; intros e0; simpl.
  - now intros [= ->].
  - intros H. rewrite (IH _ H), Hfill.
    destruct (last_nonempty (map field fs)); [reflexivity|].
    destruct (Js.truthy (field f)) eqn:T; [|reflexivity].
    now rewrite (JsFacts.or_else_truthy _ "" T).
Qed.

Lemma arguments_fold (fs : list ToolCall) (e0 e : ToolCall) (a : string) :
  function_arguments e0 = Some a ->
  fold_left (fun o f => Some (merge_entry o f)) fs (Some e0) = Some e ->
  function_arguments e
  = Some (a ++ String.concat ""
                 (map (fun f => Js.or_else (function_arguments f) "") fs))%string.
Proof.
  revert e0 a. induction fs as [|f fs IH]; intros e0 a Ha;
    cbn [fold_left map merge_entry].
  - intros [= <-]. simpl. now rewrite append_empty_r.
  - intros H.
    rewrite (IH _ _ (fill_in_arguments e0 f a Ha) H).
    now rewrite concat_cons, append_assoc.
Qed.

Lemma fold_some (fs : list ToolCall) (o : option ToolCall) :
  fs <> [] \/ o <> None ->
  fold_left (fun o f => Some (merge_entry o f)) fs o <> None.
Proof.
  revert o. induction fs as [|f fs IH]; intros o; simpl.
  - intros [H|H]; congruence.
  - intros _. apply IH. right. discriminate.
Qed.

Lemma filled_from_seed (field : option string) (v0 : option string)
  (vs : list (option string)) :
  field = match last_nonempty vs with Some x => Some x | None => v0 end ->
  filled_from field (v0 :: vs).
Proof.
  intros ->. unfold filled_from. simpl.
  destruct (last_nonempty vs); [reflexivity|].
  destruct (Js.truthy v0) eqn:T.
  - destruct v0; [reflexivity | discriminate].
  - reflexivity.
Qed.

End Accumulator.

(** C6. Whatever the sequence of tool-call fragments and however their
    indices interleave, the accumulated map has an entry at index [i]
    exactly when some fragment was addressed to [i]; the arguments of that
    entry are the concatenation, in arrival order, of the argument texts of
    the fragments addressed to [i]; and its identifier, kind and name are
    each the last non-empty value supplied for [i], or empty when no
    fragment supplied one (so a later fragment never clears a field, and a
    name missing at creation stays empty). *)
Theorem accumulator_reconstructs_each_index (fs : list ToolCall) (i : Z) :
  match ToolCallMap.get i (accumulate fs) with
  | Some e =>
      fragments_at i fs <> []
      /\ function_arguments e
         = Some (String.concat "" (map argument_text (fragments_at i fs)))
      /\ filled_from (tc_id e) (map tc_id (fragments_at i fs))
      /\ filled_from (tc_type e) (map tc_type (fragments_at i fs))
      /\ filled_from (function_name e)
           (map function_name (fragments_at i fs))
  | None => fragments_at i fs = []
  end.
Proof.
  unfold accumulate. rewrite get_fold_mergeToolCall.
  change (ToolCallMap.get i ToolCallMap.empty) with (@None ToolCall).
  destruct (fragments_at i fs) as [|f fs'] eqn:E; [reflexivity|].
  cbn [fold_left merge_entry].
  destruct (fold_left _ fs' (Some (seed f))) as [e|] eqn:F.
  - split; [discriminate|]. split; [|repeat split].
    + rewrite (arguments_fold fs' (seed f) e _ eq_refl F).
      cbn [map]. rewrite concat_cons. unfold argument_text at 1.
      rewrite <- JsFacts.or_else_text. do 3 f_equal.
      apply map_ext. intros g. apply JsFacts.or_else_text.
    + apply filled_from_seed.
      exact (overwrite_fold tc_id fill_in_id fs' (seed f) e F).
    + apply filled_from_seed.
      exact (overwrite_fold tc_type fill_in_type fs' (seed f) e F).
    + apply filled_from_seed.
      exact (overwrite_fold function_name fill_in_name fs' (seed f) e F).
  - exfalso. revert F. apply fold_some. right. discriminate.
Qed.

(** ** Lists *)

Lemma skipn_length_app {A : Type} (l l' : list A) :
  skipn (List.length l) (l ++ l') = l'.
Proof. induction l as [|x l IH]; simpl; [reflexivity | exact IH]. Qed.

Lemma nth_error_set_nth {A : Type} (n : nat) (x y : A) (l : list A) :
  nth_error l n = Some y -> nth_error (set_nth n x l) n = Some x.
Proof.
  revert n. induction l as [|z l IH]; intros [|n]; simpl; try discriminate.
  - reflexivity.
  - apply IH.
Qed.

Lemma set_nth_set_nth {A : Type} (n : nat) (x y : A) (l : list A) :
  set_nth n x (set_nth n y l) = set_nth n x l.
Proof.
  revert n. induction l as [|z l IH]; intros [|n]; simpl; try reflexivity.
  now rewrite IH.
Qed.

Lemma set_nth_same {A : Type} (n : nat) (x : A) (l : list A) :
  nth_error l n = Some x -> set_nth n x l = l.
Proof.
  revert n. induction l as [|z l IH]; intros [|n]; simpl; try discriminate.
  - now intros [= ->].
  - intros H. now rewrite IH.
Qed.

Lemma set_nth_length {A : Type} (n : nat) (x : A) (l : list A) :
  List.length (set_nth n x l) = List.length l.
Proof.
  revert n. induction l as [|z l IH]; intros [|n]; simpl; try reflexivity.
  now rewrite IH.
Qed.

Lemma nth_set_nth_eq (n : nat) (l : list bool) :
  n < List.length l -> nth n (set_nth n true l) false = true.
Proof.
  revert n. induction l as [|z l IH]; intros [|n] H; simpl in *;
    try lia; try reflexivity.
  apply IH. lia.
Qed.

Lemma nth_set_nth_neq (n k : nat) (x : bool) (l : list bool) :
  k <> n -> nth k (set_nth n x l) false = nth k l false.
Proof.
  revert n k. induction l as [|z l IH]; intros [|n] [|k]; simpl;
    try reflexivity; try congruence.
  intros H. apply IH. congruence.
Qed.

Lemma nth_error_app_length {A : Type} (x : A) (l : list A) :
  nth_error (l ++ [x]) (List.length l) = Some x.
Proof. induction l as [|z l IH]; simpl; [reflexivity | exact IH]. Qed.

(** ** Traces and storage *)

Lemma apply_effects_app (d : Database) (es es' : list Effect) :
  apply_effects d (es ++ es') = apply_effects (apply_effects d es) es'.
Proof. apply fold_left_app. Qed.

Lemma sent_app (es es' : list Effect) : sent (es ++ es') = sent es ++ sent es'.
Proof. apply flat_map_app. Qed.

Lemma done_frames_app (es es' : list Effect) :
  done_frames (es ++ es') = done_frames es ++ done_frames es'.
Proof. unfold done_frames. now rewrite sent_app, filter_app. Qed.

Lemma inserted_app (r : Role) (es es' : list Effect) :
  inserted r (es ++ es') = inserted r es ++ inserted r es'.
Proof. apply flat_map_app. Qed.

Lemma provider_calls_app (es es' : list Effect) :
  provider_calls (es ++ es') = provider_calls es ++ provider_calls es'.
Proof. apply flat_map_app. Qed.

Lemma title_attempts_app (es es' : list Effect) :
  title_attempts (es ++ es') = title_attempts es ++ title_attempts es'.
Proof. unfold title_attempts. now rewrite provider_calls_app, filter_app. Qed.

Lemma streamed_text_app (es es' : list Effect) :
  streamed_text (es ++ es')
  = (streamed_text es ++ streamed_text es')%string.
Proof.
  unfold streamed_text. now rewrite sent_app, flat_map_app, concat_app.
Qed.

(** ** Runs *)

Section RunFacts.

Variable parseTitle : string -> option string.

Lemma resume_all_app (env : Env) (task : Task) (rs1 rs2 : list Reply) :
  resume_all parseTitle env task (rs1 ++ rs2)
  = let '(es1, task1) := resume_all parseTitle env task rs1 in
    let '(es2, task2) := resume_all parseTitle env task1 rs2 in
    (es1 ++ es2, task2).
Proof.
  revert task. induction rs1 as [|r rs1 IH]; intros task; simpl.
  - now destruct (resume_all parseTitle env task rs2).
  - destruct (resume parseTitle env task r) as [es task'].
    rewrite IH.
    destruct (resume_all parseTitle env task' rs1) as [es1 task1].
    destruct (resume_all parseTitle env task1 rs2) as [es2 task2].
    now rewrite app_assoc.
Qed.

(** The replies delivered to one invocation, seen from the world. *)
Lemma run_replies (env : Env) (task_id : nat) (rs : list Reply) :
  forall (w : World) (task : Task),
    nth_error (tasks w) task_id = Some task ->
    run parseTitle w (map (fun r => (env, reply task_id r)) rs)
    = let '(es, task') := resume_all parseTitle env task rs in
      mkWorld (apply_effects (db w) es) (session w) (trace w ++ es)
        (set_nth task_id task' (tasks w)).
Proof.
  induction rs as [|r rs IH]; intros w task Ht; simpl.
  - rewrite app_nil_r, (set_nth_same _ _ _ Ht). now destruct w.
  - change (step parseTitle w (env, reply task_id r))
      with (deliver parseTitle env w task_id r).
    unfold deliver. rewrite Ht.
    destruct (resume parseTitle env task r) as [es task'] eqn:R.
    fold (run parseTitle).
    erewrite IH by (simpl; eapply nth_error_set_nth; exact Ht).
    destruct (resume_all parseTitle env task' rs) as [es' task''].
    simpl. now rewrite set_nth_set_nth, apply_effects_app, app_assoc.
Qed.

End RunFacts.

(** ** The stream loop of handleChat *)

Section ChatStream.

Variables eventId conversationId : string.

Lemma chat_delta_eq (response : string) (m : ToolCallMap.t) (d : Delta) :
  chat_delta eventId conversationId response m d
  = (text_frame eventId conversationId d
       ++ interim_done eventId conversationId
            (mergeToolCalls m (delta_tool_calls d)),
     (response ++ Js.or_else (delta_content d) "")%string,
     mergeToolCalls m (delta_tool_calls d)).
Proof.
  unfold chat_delta, text_frame, interim_done.
  destruct (Js.truthy (delta_content d)) eqn:T.
  - destruct (mergeToolCalls m (delta_tool_calls d)) as [|[k v] m'];
      reflexivity.
  - rewrite (JsFacts.or_else_empty _ T), append_empty_r.
    destruct (mergeToolCalls m (delta_tool_calls d)) as [|[k v] m'];
      reflexivity.
Qed.

Lemma fragments_cons (d : Delta) (ds : list Delta) :
  fragments (d :: ds)
  = match delta_tool_calls d with Some l => l | None => [] end
    ++ fragments ds.
Proof. reflexivity. Qed.

Lemma text_of_cons (d : Delta) (ds : list Delta) :
  text_of (d :: ds) = (Js.or_else (delta_content d) "" ++ text_of ds)%string.
Proof. unfold text_of. cbn [map]. apply concat_cons. Qed.

Lemma chat_stream_response_eq (ds : list Delta) :
  forall (response : string) (m : ToolCallMap.t),
    snd (fst (chat_stream eventId conversationId response m ds))
    = (response ++ text_of ds)%string.
Proof.
  induction ds as [|d ds IH]; intros response m; cbn [chat_stream].
  - simpl. now rewrite append_empty_r.
  - rewrite chat_delta_eq.
    specialize (IH (response ++ Js.or_else (delta_content d) "")%string
                  (mergeToolCalls m (delta_tool_calls d))).
    destruct (chat_stream _ _ _ _ ds) as [[es' r''] m''].
    cbn [fst snd] in *. now rewrite IH, text_of_cons, append_assoc.
Qed.

Lemma chat_stream_map_eq (ds : list Delta) :
  forall (response : string) (m : ToolCallMap.t),
    snd (chat_stream eventId conversationId response m ds)
    = fold_left mergeToolCall (fragments ds) m.
Proof.
  induction ds as [|d ds IH]; intros response m; cbn [chat_stream].
  - reflexivity.
  - rewrite chat_delta_eq.
    specialize (IH (response ++ Js.or_else (delta_content d) "")%string
                  (mergeToolCalls m (delta_tool_calls d))).
    destruct (chat_stream _ _ _ _ ds) as [[es' r''] m''].
    cbn [fst snd] in *. rewrite IH, fragments_cons, fold_left_app. reflexivity.
Qed.

Lemma text_frame_streamed (d : Delta) :
  streamed_text (text_frame eventId conversationId d)
  = Js.or_else (delta_content d) "".
Proof.
  unfold text_frame. destruct (Js.truthy (delta_content d)) eqn:T.
  - reflexivity.
  - now rewrite (JsFacts.or_else_empty _ T).
Qed.

Lemma interim_done_streamed (m : ToolCallMap.t) :
  streamed_text (interim_done eventId conversationId m) = ""%string.
Proof.
  unfold interim_done. destruct (ToolCallMap.first m) as [tc|]; [|reflexivity].
  destruct (Js.truthy (function_name tc)); reflexivity.
Qed.

Lemma chat_stream_streamed_text (ds : list Delta) :
  forall (response : string) (m : ToolCallMap.t),
    streamed_text (fst (fst (chat_stream eventId conversationId response m ds)))
    = text_of ds.
Proof.
  induction ds as [|d ds IH]; intros response m; cbn [chat_stream].
  - reflexivity.
  - rewrite chat_delta_eq.
    specialize (IH (response ++ Js.or_else (delta_content d) "")%string
                  (mergeToolCalls m (delta_tool_calls d))).
    destruct (chat_stream _ _ _ _ ds) as [[es' r''] m''].
    cbn [fst snd] in *.
    rewrite !streamed_text_app, text_frame_streamed, interim_done_streamed,
      IH, text_of_cons, append_empty_r.
    reflexivity.
Qed.

End ChatStream.

Section ChatStreamEffects.

Variables eventId conversationId : string.

Lemma only_frames_app (es es' : list Effect) :
  only_frames (es ++ es') = only_frames es && only_frames es'.
Proof. apply forallb_app. Qed.

Lemma text_frame_only_frames (d : Delta) :
  only_frames (text_frame eventId conversationId d) = true.
Proof. unfold text_frame. now destruct (Js.truthy (delta_content d)). Qed.

Lemma interim_done_only_frames (m : ToolCallMap.t) :
  only_frames (interim_done eventId conversationId m) = true.
Proof.
  unfold interim_done. destruct (ToolCallMap.first m) as [tc|]; [|reflexivity].
  now destruct (Js.truthy (function_name tc)).
Qed.

Lemma chat_stream_only_frames (ds : list Delta) :
  forall (response : string) (m : ToolCallMap.t),
    only_frames (fst (fst (chat_stream eventId conversationId response m ds)))
    = true.
Proof.
  induction ds as [|d ds IH]; intros response m; cbn [chat_stream].
  - reflexivity.
  - rewrite chat_delta_eq.
    specialize (IH (response ++ Js.or_else (delta_content d) "")%string
                  (mergeToolCalls m (delta_tool_calls d))).
    destruct (chat_stream _ _ _ _ ds) as [[es' r''] m''].
    cbn [fst snd] in *.
    now rewrite !only_frames_app, text_frame_only_frames,
      interim_done_only_frames, IH.
Qed.

Lemma text_frame_done (d : Delta) :
  done_frames (text_frame eventId conversationId d) = [].
Proof. unfold text_frame. now destruct (Js.truthy (delta_content d)). Qed.

Lemma interim_done_done (m : ToolCallMap.t) :
  done_frames (interim_done eventId conversationId m)
  = sent (interim_done eventId conversationId m).
Proof.
  unfold interim_done. destruct (ToolCallMap.first m) as [tc|]; [|reflexivity].
  now destruct (Js.truthy (function_name tc)).
Qed.

Lemma interim_done_action (m : ToolCallMap.t) :
  Forall (fun f => action f <> None)
    (sent (interim_done eventId conversationId m)).
Proof.
  unfold interim_done. destruct (ToolCallMap.first m) as [tc|]; [|constructor].
  destruct (Js.truthy (function_name tc)); simpl; repeat constructor.
  discriminate.
Qed.

(** Every [chat.stream.done] frame of the loop carries an action. *)
Lemma chat_stream_done_action (ds : list Delta) :
  forall (response : string) (m : ToolCallMap.t),
    Forall (fun f => action f <> None)
      (done_frames
         (fst (fst (chat_stream eventId conversationId response m ds)))).
Proof.
  induction ds as [|d ds IH]; intros response m; cbn [chat_stream].
  - constructor.
  - rewrite chat_delta_eq.
    specialize (IH (response ++ Js.or_else (delta_content d) "")%string
                  (mergeToolCalls m (delta_tool_calls d))).
    destruct (chat_stream _ _ _ _ ds) as [[es' r''] m''].
    cbn [fst snd] in *.
    rewrite !done_frames_app, text_frame_done, interim_done_done.
    apply Forall_app. split; [apply interim_done_action | exact IH].
Qed.

(** After the last delta the loop sends the interim frame of the map as
    it then is. *)
Lemma chat_stream_last_done (ds : list Delta) :
  forall (response : string) (m : ToolCallMap.t),
    ds <> [] ->
    exists pre,
      done_frames
        (fst (fst (chat_stream eventId conversationId response m ds)))
      = pre
        ++ sent
             (interim_done eventId conversationId
                (snd (chat_stream eventId conversationId response m ds))).
Proof.
  induction ds as [|d ds IH]; intros response m Hne; [congruence|].
  cbn [chat_stream]. rewrite chat_delta_eq.
  destruct ds as [|d' ds].
  - exists []. cbn [chat_stream fst snd].
    now rewrite app_nil_r, done_frames_app, text_frame_done, interim_done_done.
  - specialize (IH (response ++ Js.or_else (delta_content d) "")%string
                  (mergeToolCalls m (delta_tool_calls d))).
    destruct IH as [pre Hpre]; [discriminate|].
    destruct (chat_stream _ _ _ _ (d' :: ds)) as [[es' r''] m''].
    cbn [fst snd] in *.
    exists (sent (interim_done eventId conversationId
                    (mergeToolCalls m (delta_tool_calls d))) ++ pre).
    rewrite !done_frames_app, text_frame_done, interim_done_done, Hpre.
    now rewrite app_assoc.
Qed.

End ChatStreamEffects.

(** What effects that are only frames cannot be. *)
Lemma only_frames_quiet (es : list Effect) :
  only_frames es = true ->
  forallb (fun e => negb (is_write e)) es = true
  /\ provider_calls es = []
  /\ (forall r, inserted r es = [])
  /\ filter is_error (sent es) = []
  /\ filter is_title_update (sent es) = [].
Proof.
  induction es as [|e es IH]; simpl; [now repeat split|].
  intros [He Hes]%andb_prop.
  destruct (IH Hes) as (H1 & H2 & H3 & H4 & H5).
  destruct e as [m| | | | |]; try discriminate.
  apply andb_prop in He as [He1 He2].
  simpl. rewrite H1, H2.
  destruct (is_error m); [discriminate|].
  destruct (is_title_update m); [discriminate|].
  repeat split; auto.
Qed.

Section CreateGeneration.

Variable parseTitle : string -> option string.

Lemma resume_all_chat_chunks (env : Env) (l : ChatLocals)
  (chunks : list Chunk) :
  forall (response : string) (m : ToolCallMap.t),
    forallb has_choice chunks = true ->
    resume_all parseTitle env (chat_streaming l response m)
      (map next_chunk chunks)
    = let st :=
        chat_stream (chat_eventId l) (chat_conversationId l) response m
          (deltas chunks) in
      (fst (fst st), chat_streaming l (snd (fst st)) (snd st)).
Proof.
  induction chunks as [|chunk chunks IH]; intros response m H.
  - reflexivity.
  - simpl in H. apply andb_prop in H as [Hc Hcs].
    destruct chunk as [|d ch]; [discriminate|].
    cbn [map resume_all resume deltas flat_map app chat_stream].
    destruct (chat_delta _ _ response m d) as [[es r'] m'].
    rewrite (IH r' m' Hcs). cbv zeta.
    fold (deltas chunks).
    destruct (chat_stream _ _ r' m' (deltas chunks)) as [[es' r''] m''].
    reflexivity.
Qed.

Lemma resume_ends_stream (env : Env) (l : ChatLocals) (response : string)
  (m : ToolCallMap.t) (fin : Reply) :
  ends_stream fin = true ->
  resume parseTitle env (chat_streaming l response m) fin
  = chat_finish env l response.
Proof.
  destruct fin as [| | | |e]; try discriminate; simpl; [reflexivity|].
  now intros ->.
Qed.

(** A create-generation whose conversation exists, whose chunks all have
    a first choice and whose loop is left by the end of the stream or by
    an [AbortError]: what it adds to the trace and what it leaves. *)
Lemma create_generation (w : World) (env0 env1 : Env)
  (eventId conversationId text model : string)
  (tools : list ChatCompletionTool) (chunks : list Chunk)
  (fin title_reply : Reply) (conversation : Conversation) :
  findFirst conversationId (db w) = Some conversation ->
  forallb has_choice chunks = true ->
  ends_stream fin = true ->
  exists (l : ChatLocals) (row : Message) (req : CompletionRequest),
    chat_eventId l = eventId
    /\ chat_conversationId l = conversationId
    /\ chat_conversation l = conversation
    /\ role row = user
    /\ req_stream req = true
    /\ let st :=
         chat_stream eventId conversationId "" ToolCallMap.empty
           (deltas chunks) in
       let fn := chat_finish env1 l (snd (fst st)) in
       let es :=
         [db_insert_message row; completions_create req]
           ++ fst (fst st) ++ fst fn
           ++ fst (resume parseTitle env1 (snd fn) title_reply) in
       let w' :=
         generation parseTitle w env0
           (chat_stream_create eventId conversationId text model tools)
           env1 (stream_replies chunks fin ++ [title_reply]) in
       emitted w w' = es
       /\ db w' = apply_effects (db w) es
       /\ session w' = new_AbortController (session w).
Proof.
  intros Hfind Hchunks Hfin.
  unfold generation, webSocketMessage, handleChat_begin.
  rewrite Hfind. cbv zeta.
  match goal with
  | |- context [chat_awaiting_stream ?l0] => set (l := l0)
  end.
  match goal with
  | |- context [db_insert_message ?r0] => set (row := r0)
  end.
  match goal with
  | |- context [completions_create ?q0] => set (req := q0)
  end.
  exists l, row, req. repeat (split; [reflexivity|]).
  unfold started.
  erewrite run_replies by (simpl; apply nth_error_app_length).
  unfold stream_replies.
  cbn [app resume_all resume].
  rewrite <- app_assoc, resume_all_app, (resume_all_chat_chunks _ _ _ _ _ Hchunks).
  cbv zeta. change (chat_eventId l) with eventId.
  change (chat_conversationId l) with conversationId.
  destruct (chat_stream eventId conversationId "" ToolCallMap.empty
              (deltas chunks)) as [[es_s r] m].
  cbn [fst snd app resume_all].
  rewrite (resume_ends_stream _ _ _ _ _ Hfin).
  destruct (chat_finish env1 l r) as [es_f t_f].
  cbn [fst snd].
  destruct (resume parseTitle env1 t_f title_reply) as [es_t t_t].
  cbn [fst snd db session trace]. rewrite app_nil_r.
  unfold emitted. cbn [trace].
  rewrite <- !app_assoc, skipn_length_app.
  rewrite <- apply_effects_app.
  repeat split; reflexivity.
Qed.

End CreateGeneration.

(** ** The end of a create-generation *)

Lemma messages_apply_effects (es : list Effect) :
  forall d : Database,
    forallb (fun e => negb (is_content_update e)) es = true ->
    messages (apply_effects d es) = messages d ++ inserted_rows es.
Proof.
  induction es as [|e es IH]; intros d.
  - simpl. now rewrite app_nil_r.
  - cbn [forallb]. intros [He Hes]%andb_prop.
    change (apply_effects d (e :: es))
      with (apply_effects (apply_effect d e) es).
    rewrite (IH _ Hes).
    destruct e; try discriminate; simpl; try reflexivity.
    now rewrite <- app_assoc.
Qed.

Lemma inserted_rows_app (es es' : list Effect) :
  inserted_rows (es ++ es') = inserted_rows es ++ inserted_rows es'.
Proof. apply flat_map_app. Qed.

Lemma only_frames_rows (es : list Effect) :
  only_frames es = true ->
  inserted_rows es = []
  /\ forallb (fun e => negb (is_content_update e)) es = true.
Proof.
  induction es as [|e es IH]; simpl; [now split|].
  intros [He Hes]%andb_prop. destruct (IH Hes) as [H1 H2].
  destruct e; try discriminate. simpl. now split.
Qed.

Section ChatEnd.

Variable parseTitle : string -> option string.

(** What the title completion can lead to: nothing, or the title written
    and announced. *)
Lemma title_step (env : Env) (l : ChatLocals) (response : string)
  (title_reply : Reply) :
  let es :=
    fst (resume parseTitle env (snd (chat_finish env l response)) title_reply)
  in
  es = []
  \/ exists t,
       title (chat_conversation l) = None
       /\ title_reply <> rejected not_an_error
       /\ ~ title_failure parseTitle title_reply
       /\ es = [db_update_conversation_title (chat_conversationId l) t;
                ws_send
                  (conversation_title_update (chat_eventId l)
                     (chat_conversationId l) t)].
Proof.
  unfold chat_finish.
  destruct (title (chat_conversation l)) as [t0|]; cbn [snd].
  - left. now destruct title_reply.
  - destruct title_reply as [| | |c|e]; cbn [resume fst]; try (now left).
    unfold chat_title.
    destruct (parseTitle (Js.or_else c "{}")) as [t|] eqn:P; [|now left].
    destruct (Js.truthy (Some t)) eqn:T; [|now left].
    right. exists t. repeat split; try discriminate.
    simpl. rewrite P. intros [H|[= ->]]; discriminate.
Qed.

End ChatEnd.

Section CreateShape.

Variable parseTitle : string -> option string.

(** The trace of a create-generation, written out. *)
Lemma create_generation_shape (w : World) (env0 env1 : Env)
  (eventId conversationId text model : string)
  (tools : list ChatCompletionTool) (chunks : list Chunk)
  (fin title_reply : Reply) (conversation : Conversation) :
  findFirst conversationId (db w) = Some conversation ->
  forallb has_choice chunks = true ->
  ends_stream fin = true ->
  exists (row : Message) (req treq : CompletionRequest) (es_t : list Effect),
    role row = user
    /\ req_stream req = true
    /\ req_stream treq = false
    /\ (es_t = []
        \/ exists t,
             title conversation = None
             /\ ~ title_failure parseTitle title_reply
             /\ es_t = [db_update_conversation_title conversationId t;
                       ws_send
                         (conversation_title_update eventId conversationId
                            t)])
    /\ let es :=
         [db_insert_message row; completions_create req]
           ++ fst (fst (chat_stream eventId conversationId ""
                          ToolCallMap.empty (deltas chunks)))
           ++ [ws_send (chat_stream_done eventId conversationId None);
               db_insert_message
                 (assistant_row env1 conversationId (text_of (deltas chunks)));
               db_update_conversation_updated_at conversationId (now env1)]
           ++ match title conversation with
              | None => [completions_create treq]
              | Some _ => []
              end
           ++ es_t in
       let w' :=
         generation parseTitle w env0
           (chat_stream_create eventId conversationId text model tools)
           env1 (stream_replies chunks fin ++ [title_reply]) in
       emitted w w' = es
       /\ db w' = apply_effects (db w) es
       /\ session w' = new_AbortController (session w).
Proof.
  intros Hfind Hchunks Hfin.
  destruct (create_generation parseTitle w env0 env1 eventId conversationId
              text model tools chunks fin title_reply conversation
              Hfind Hchunks Hfin)
    as (l & row & req & He & Hc & Hconv & Hrole & Hreq & H).
  cbv zeta in H.
  rewrite chat_stream_response_eq in H. cbn [append] in H.
  set (response := text_of (deltas chunks)) in *.
  exists row, req, (title_request l response),
    (fst (resume parseTitle env1 (snd (chat_finish env1 l response))
            title_reply)).
  split; [exact Hrole|]. split; [exact Hreq|]. split; [reflexivity|].
  split.
  - destruct (title_step parseTitle env1 l response title_reply) as [Ht|Ht].
    + now left.
    + right. destruct Ht as (t & Ht1 & _ & Ht2 & Ht3).
      exists t. rewrite <- Hconv, <- He, <- Hc. now repeat split.
  - cbv zeta.
    assert (Hf : fst (chat_finish env1 l response)
                 = [ws_send (chat_stream_done eventId conversationId None);
                    db_insert_message
                      (assistant_row env1 conversationId response);
                    db_update_conversation_updated_at conversationId
                      (now env1)]
                   ++ match title conversation with
                      | None => [completions_create (title_request l response)]
                      | Some _ => []
                      end).
    { unfold chat_finish. rewrite He, Hc, Hconv.
      destruct (title conversation); [|reflexivity].
      cbn [fst]. now rewrite app_nil_r. }
    rewrite Hf, <- ?app_assoc in H. rewrite <- ?app_assoc. exact H.
Qed.

End CreateShape.

(** Observations on the fixed parts of that trace. *)

Lemma title_effects_quiet (eventId conversationId : string)
  (P : Prop) (es_t : list Effect) :
  es_t = []
  \/ (exists t,
        P /\ es_t = [db_update_conversation_title conversationId t;
                     ws_send
                       (conversation_title_update eventId conversationId t)]) ->
  (forall r, inserted r es_t = [])
  /\ inserted_rows es_t = []
  /\ done_frames es_t = []
  /\ streamed_text es_t = ""%string
  /\ provider_calls es_t = []
  /\ filter is_error (sent es_t) = []
  /\ forallb (fun e => negb (is_content_update e)) es_t = true.
Proof.
  intros [->|(t & _ & ->)]; repeat split.
Qed.

Lemma titles_apply_effects (es : list Effect) :
  forall d : Database,
    forallb (fun e => negb (is_title_write e)) es = true ->
    map title (conversations (apply_effects d es))
    = map title (conversations d).
Proof.
  induction es as [|e es IH]; intros d; [reflexivity|].
  cbn [forallb]. intros [He Hes]%andb_prop.
  change (apply_effects d (e :: es))
    with (apply_effects (apply_effect d e) es).
  rewrite (IH _ Hes).
  destruct e; try discriminate; simpl; try reflexivity.
  unfold update_where. rewrite map_map. apply map_ext.
  intros c. now destruct (conversation_id c =? conversationId)%string.
Qed.

Lemma only_frames_titles (es : list Effect) :
  only_frames es = true ->
  forallb (fun e => negb (is_title_write e)) es = true.
Proof.
  induction es as [|e es IH]; simpl; [reflexivity|].
  intros [He Hes]%andb_prop. rewrite (IH Hes).
  now destruct e.
Qed.


Lemma final_done_among_done (ms : list WebSocketServerMessage) :
  filter is_final_done ms = filter is_final_done (filter is_done ms).
Proof.
  induction ms as [|m ms IH]; [reflexivity|].
  destruct m as [| ? ? [a|] | |]; simpl; rewrite ?IH; reflexivity.
Qed.

Lemma no_final_done (ms : list WebSocketServerMessage) :
  Forall (fun f => action f <> None) ms -> filter is_final_done ms = [].
Proof.
  induction 1 as [|m ms Hm Hms IH]; [reflexivity|].
  destruct m as [| ? ? [a|] | |]; simpl; try exact IH.
  now contradiction Hm.
Qed.

(** ** The create-generation *)

Section CreateClaims.

Variable parseTitle : string -> option string.

Variables (w : World) (env0 env1 : Env).
Variables (eventId conversationId text model : string).
Variable tools : list ChatCompletionTool.
Variable chunks : list Chunk.
Variables fin title_reply : Reply.
Variable conversation : Conversation.

Hypothesis conversation_found :
  findFirst conversationId (db w) = Some conversation.
Hypothesis chunks_have_choice : forallb has_choice chunks = true.
Hypothesis loop_left : ends_stream fin = true.

Let w' : World :=
  generation parseTitle w env0
    (chat_stream_create eventId conversationId text model tools)
    env1 (stream_replies chunks fin ++ [title_reply]).

Let stream_effects : list Effect :=
  fst (fst (chat_stream eventId conversationId "" ToolCallMap.empty
              (deltas chunks))).

Lemma stream_effects_quiet :
  (forall r, inserted r stream_effects = [])
  /\ inserted_rows stream_effects = []
  /\ provider_calls stream_effects = []
  /\ filter is_error (sent stream_effects) = []
  /\ filter is_title_update (sent stream_effects) = []
  /\ forallb (fun e => negb (is_content_update e)) stream_effects = true
  /\ streamed_text stream_effects = text_of (deltas chunks).
Proof.
  pose proof (chat_stream_only_frames eventId conversationId (deltas chunks)
                "" ToolCallMap.empty) as Hof.
  fold stream_effects in Hof.
  destruct (only_frames_quiet _ Hof) as (_ & H2 & H3 & H4 & H5).
  destruct (only_frames_rows _ Hof) as (H6 & H7).
  repeat split; auto.
  apply chat_stream_streamed_text.
Qed.

Lemma title_effects_weaken (P Q : Prop) (es_t : list Effect) :
  es_t = []
  \/ (exists t,
        P /\ Q
        /\ es_t = [db_update_conversation_title conversationId t;
                   ws_send
                     (conversation_title_update eventId conversationId t)]) ->
  es_t = []
  \/ (exists t,
        P
        /\ es_t = [db_update_conversation_title conversationId t;
                   ws_send
                     (conversation_title_update eventId conversationId t)]).
Proof.
  intros [H|(t & HP & _ & H)]; [now left | right; now exists t].
Qed.

(** The trace of the generation, cut into its parts, with what is known
    of each. *)
Ltac open_trace :=
  destruct (create_generation_shape parseTitle w env0 env1 eventId
              conversationId text model tools chunks fin title_reply
              conversation conversation_found chunks_have_choice loop_left)
    as (row & req & treq & es_t & Hrole & Hreq & Htreq & Ht & Hem & Hdb & _);
  fold w' stream_effects in Hem, Hdb;
  destruct stream_effects_quiet as (S1 & S2 & S3 & S4 & S5 & S6 & S7);
  destruct (title_effects_quiet _ _ _ _ (title_effects_weaken _ _ _ Ht))
    as (T1 & T2 & T3 & T4 & T5 & T6 & T7).

(** C8. In a create-generation that reaches the end of its stream loop,
    the [content] of the [chat.stream.response] frames sent, concatenated
    in the order they are sent, is the [content] of the one assistant row
    that is inserted, and both are the text fragments of the deltas in
    arrival order: nothing is dropped, duplicated or reordered. *)
Theorem streamed_text_is_persisted_content :
  exists row,
    inserted assistant (emitted w w') = [row]
    /\ In row (messages (db w'))
    /\ content row = streamed_text (emitted w w')
    /\ streamed_text (emitted w w') = text_of (deltas chunks).
Proof.
  open_trace.
  exists (assistant_row env1 conversationId (text_of (deltas chunks))).
  assert (Hins : inserted assistant (emitted w w')
                 = [assistant_row env1 conversationId (text_of (deltas chunks))]).
  { rewrite Hem, !inserted_app, S1, T1. cbn. rewrite Hrole.
    now destruct (title conversation). }
  assert (Htext : streamed_text (emitted w w') = text_of (deltas chunks)).
  { rewrite Hem, !streamed_text_app, S7, T4.
    destruct (title conversation); cbn; now rewrite ?append_empty_r. }
  repeat split.
  - exact Hins.
  - rewrite Hdb, messages_apply_effects.
    + rewrite !inserted_rows_app, S2, T2. apply in_or_app. right.
      cbn. right. now left.
    + rewrite !forallb_app, S6, T7. now destruct (title conversation).
  - now rewrite Htext.
  - exact Htext.
Qed.

(** C1, as the code has it. In a create-generation that reaches the end of
    its stream loop, by the end of the stream or by cancellation, the
    [chat.stream.done] frame without action is sent first and the
    assistant row is inserted next: no assistant row is inserted before
    that frame, and every [chat.stream.done] frame sent before it carries
    an action. *)
Theorem done_sent_just_before_persist :
  exists pre post,
    emitted w w'
    = pre
      ++ ws_send (chat_stream_done eventId conversationId None)
      :: db_insert_message
           (assistant_row env1 conversationId (text_of (deltas chunks)))
      :: post
    /\ inserted assistant pre = []
    /\ inserted assistant post = []
    /\ Forall (fun f => action f <> None) (done_frames pre)
    /\ done_frames post = [].
Proof.
  open_trace.
  exists ([db_insert_message row; completions_create req] ++ stream_effects).
  exists (db_update_conversation_updated_at conversationId (now env1)
          :: match title conversation with
             | None => [completions_create treq]
             | Some _ => []
             end ++ es_t).
  split; [|split; [|split; [|split]]].
  - rewrite Hem, <- !app_assoc. reflexivity.
  - rewrite inserted_app, S1. cbn. now rewrite Hrole.
  - change (db_update_conversation_updated_at conversationId (now env1)
            :: ?l) with ([db_update_conversation_updated_at conversationId
                            (now env1)] ++ l).
    rewrite !inserted_app, T1. now destruct (title conversation).
  - rewrite done_frames_app. cbn [done_frames sent flat_map filter app].
    apply chat_stream_done_action.
  - change (db_update_conversation_updated_at conversationId (now env1)
            :: ?l) with ([db_update_conversation_updated_at conversationId
                            (now env1)] ++ l).
    rewrite !done_frames_app, T3. now destruct (title conversation).
Qed.

(** The [chat.stream.done] frames of the generation: those of the loop,
    each with an action, then the one without. *)
Lemma done_frames_of_generation :
  done_frames (emitted w w')
  = done_frames stream_effects
    ++ [chat_stream_done eventId conversationId None].
Proof.
  open_trace.
  rewrite Hem, !done_frames_app, T3.
  destruct (title conversation); cbn; rewrite ?app_nil_r; reflexivity.
Qed.

(** C3, as the code has it. In a create-generation that reaches the end of
    its stream loop, the last [chat.stream.done] frame, the one sent at
    the end of the stream, carries no action whether or not tool calls
    were accumulated, and every earlier one carries an action.  When at
    least one chunk was streamed and the first entry of the accumulated
    map has a non-empty name, the frame before the last carries that name
    and that entry's accumulated arguments. *)
Theorem stream_end_done_carries_no_action :
  exists interim,
    done_frames (emitted w w')
    = interim ++ [chat_stream_done eventId conversationId None]
    /\ Forall (fun f => action f <> None) interim
    /\ (chunks <> [] ->
        forall toolCall name,
          ToolCallMap.first (accumulate (fragments (deltas chunks)))
          = Some toolCall ->
          function_name toolCall = Some name ->
          name <> ""%string ->
          exists earlier,
            interim
            = earlier
              ++ [chat_stream_done eventId conversationId
                    (Some (name, argument_text toolCall))]).
Proof.
  exists (done_frames stream_effects).
  split; [apply done_frames_of_generation|].
  split; [apply chat_stream_done_action|].
  intros Hne toolCall name Hfirst Hname Hnonempty.
  assert (Hds : deltas chunks <> []).
  { destruct chunks as [|[|d ch] chs]; try congruence; discriminate. }
  destruct (chat_stream_last_done eventId conversationId (deltas chunks)
              "" ToolCallMap.empty Hds) as [pre Hpre].
  exists pre. unfold stream_effects. rewrite Hpre. f_equal.
  rewrite chat_stream_map_eq. fold (accumulate (fragments (deltas chunks))).
  unfold interim_done. rewrite Hfirst, Hname.
  assert (Ht : Js.truthy (Some name) = true).
  { simpl. now destruct (String.eqb_spec name ""). }
  rewrite Ht. cbn [sent flat_map app].
  rewrite (JsFacts.or_else_text (Some name)),
    (JsFacts.or_else_text (function_arguments toolCall)).
  reflexivity.
Qed.


(** C9. After a create-generation that reaches the end of its stream loop,
    a title completion is requested exactly when the title of the
    conversation, as read at the start of the turn, is null, and at most
    once.  When the title completion fails (the request is rejected, its
    output does not parse, or the parsed title is empty) no title of the
    storage is changed, no [conversation.title.update] frame is sent and no
    error frame is sent. *)
Theorem title_attempted_iff_unset_and_failure_silent :
  (title_attempts (emitted w w') <> [] <-> title conversation = None)
  /\ List.length (title_attempts (emitted w w')) <= 1
  /\ (title_failure parseTitle title_reply ->
      map title (conversations (db w')) = map title (conversations (db w))
      /\ filter is_title_update (sent (emitted w w')) = []
      /\ filter is_error (sent (emitted w w')) = []).
Proof.
  open_trace.
  assert (Hatt : title_attempts (emitted w w')
                 = match title conversation with
                   | None => [treq]
                   | Some _ => []
                   end).
  { rewrite Hem, !title_attempts_app.
    unfold title_attempts at 1 2 3 5. rewrite S3, T5. cbn. rewrite Hreq.
    destruct (title conversation); cbn; [reflexivity|].
    unfold title_attempts. cbn. now rewrite Htreq. }
  rewrite Hatt. split; [|split].
  - destruct (title conversation); split; congruence.
  - destruct (title conversation); simpl; lia.
  - intros Hfail.
    assert (Hnil : es_t = []).
    { destruct Ht as [H|(t & _ & Hnf & _)]; [exact H | contradiction]. }
    subst es_t. rewrite Hem, Hdb. split; [|split].
    + apply titles_apply_effects.
      rewrite !forallb_app.
      pose proof (chat_stream_only_frames eventId conversationId
                    (deltas chunks) "" ToolCallMap.empty) as Hof.
      fold stream_effects in Hof.
      rewrite (only_frames_titles _ Hof).
      now destruct (title conversation).
    + rewrite !sent_app, !filter_app, S5.
      now destruct (title conversation).
    + rewrite !sent_app, !filter_app, S4.
      now destruct (title conversation).
Qed.

End CreateClaims.


(** *** The sample runs *)

Lemma streamed_text_is_persisted_content_witness :
  findFirst "c1" (db Sample.world) = Some Sample.untitled
  /\ forallb has_choice Sample.greeting = true
  /\ ends_stream stream_end = true
  /\ exists row,
       inserted assistant (emitted Sample.world Runs.greeted) = [row]
       /\ In row (messages (db Runs.greeted))
       /\ content row = streamed_text (emitted Sample.world Runs.greeted)
       /\ streamed_text (emitted Sample.world Runs.greeted)
          = text_of (deltas Sample.greeting).
Proof.
  repeat (split; [reflexivity|]).
  exact (streamed_text_is_persisted_content Sample.parseTitle Sample.world
           Sample.env0 Sample.env1 "e1" "c1" "Hello" "@cf/model" []
           Sample.greeting stream_end Runs.title_message Sample.untitled
           eq_refl eq_refl eq_refl).
Defined.

(** C1, refuted as stated: in the run of "Hello" answered by "Hi",
    " there", the [chat.stream.done] frame is sent while no assistant row
    has been inserted yet. *)
Lemma done_sent_before_assistant_row_exists :
  done_after_persist false (emitted Sample.world Runs.greeted) = false
  /\ nth_error (emitted Sample.world Runs.greeted) 4
     = Some (ws_send (chat_stream_done "e1" "c1" None))
  /\ nth_error (emitted Sample.world Runs.greeted) 5
     = Some (db_insert_message (assistant_row Sample.env1 "c1" "Hi there"))
  /\ inserted assistant (firstn 5 (emitted Sample.world Runs.greeted)) = [].
Proof. repeat split; vm_compute; reflexivity. Qed.

Lemma done_sent_just_before_persist_witness :
  findFirst "c1" (db Sample.world) = Some Sample.untitled
  /\ forallb has_choice Sample.greeting = true
  /\ ends_stream stream_end = true
  /\ exists pre post,
       emitted Sample.world Runs.greeted
       = pre
         ++ ws_send (chat_stream_done "e1" "c1" None)
         :: db_insert_message
              (assistant_row Sample.env1 "c1"
                 (text_of (deltas Sample.greeting)))
         :: post
       /\ inserted assistant pre = []
       /\ inserted assistant post = []
       /\ Forall (fun f => action f <> None) (done_frames pre)
       /\ done_frames post = [].
Proof.
  repeat (split; [reflexivity|]).
  exact (done_sent_just_before_persist Sample.parseTitle Sample.world
           Sample.env0 Sample.env1 "e1" "c1" "Hello" "@cf/model" []
           Sample.greeting stream_end Runs.title_message Sample.untitled
           eq_refl eq_refl eq_refl).
Defined.

(** C3, refuted as stated: in the run of "Hello" answered by one tool
    call, the map holds an entry when the stream ends, and the frame sent
    at the end of the stream carries no action. *)
Lemma done_at_stream_end_is_null_despite_tool_call :
  ToolCallMap.size (accumulate (fragments (deltas Sample.lookup))) = 1
  /\ done_frames (emitted Sample.world Runs.looked_up)
     = [chat_stream_done "e1" "c1" (Some ("lookup", ""))%string;
        chat_stream_done "e1" "c1" (Some ("lookup", "{q:"))%string;
        chat_stream_done "e1" "c1" (Some ("lookup", "{q:x}"))%string;
        chat_stream_done "e1" "c1" None].
Proof. split; vm_compute; reflexivity. Qed.

Lemma stream_end_done_carries_no_action_witness :
  findFirst "c1" (db Sample.world) = Some Sample.untitled
  /\ forallb has_choice Sample.lookup = true
  /\ ends_stream stream_end = true
  /\ exists interim,
       done_frames (emitted Sample.world Runs.looked_up)
       = interim ++ [chat_stream_done "e1" "c1" None]
       /\ Forall (fun f => action f <> None) interim
       /\ (Sample.lookup <> [] ->
           forall toolCall name,
             ToolCallMap.first (accumulate (fragments (deltas Sample.lookup)))
             = Some toolCall ->
             function_name toolCall = Some name ->
             name <> ""%string ->
             exists earlier,
               interim
               = earlier
                 ++ [chat_stream_done "e1" "c1"
                       (Some (name, argument_text toolCall))]).
Proof.
  repeat (split; [reflexivity|]).
  exact (stream_end_done_carries_no_action Sample.parseTitle Sample.world
           Sample.env0 Sample.env1 "e1" "c1" "Hello" "@cf/model" []
           Sample.lookup stream_end Runs.title_message Sample.untitled
           eq_refl eq_refl eq_refl).
Defined.



Lemma title_attempted_iff_unset_and_failure_silent_witness :
  findFirst "c1" (db Sample.world) = Some Sample.untitled
  /\ forallb has_choice Sample.greeting = true
  /\ ends_stream Sample.abort_error = true
  /\ (title_attempts (emitted Sample.world Runs.greeting_cancelled) <> []
      <-> title Sample.untitled = None)
  /\ List.length (title_attempts (emitted Sample.world Runs.greeting_cancelled))
     <= 1
  /\ (title_failure Sample.parseTitle (rejected not_an_error) ->
      map title (conversations (db Runs.greeting_cancelled))
      = map title (conversations (db Sample.world))
      /\ filter is_title_update
           (sent (emitted Sample.world Runs.greeting_cancelled)) = []
      /\ filter is_error
           (sent (emitted Sample.world Runs.greeting_cancelled)) = []).
Proof.
  repeat (split; [reflexivity|]).
  exact (title_attempted_iff_unset_and_failure_silent Sample.parseTitle
           Sample.world Sample.env0 Sample.env1 "e1" "c1" "Hello" "@cf/model"
           [] Sample.greeting Sample.abort_error (rejected not_an_error)
           Sample.untitled eq_refl eq_refl eq_refl).
Defined.

(** ** Regeneration *)

Lemma quiet_app (es es' : list Effect) :
  quiet (es ++ es') = quiet es && quiet es'.
Proof. apply forallb_app. Qed.

(** Quiet effects leave the storage as it is and complete no turn. *)
Lemma quiet_effects (es : list Effect) :
  quiet es = true ->
  (forall d, apply_effects d es = d)
  /\ done_frames es = []
  /\ forallb (fun e => negb (is_write e)) es = true.
Proof.
  induction es as [|e es IH]; simpl; [now repeat split|].
  intros [He Hes]%andb_prop. destruct (IH Hes) as (H1 & H2 & H3).
  destruct e as [m| | | | |]; try discriminate.
  - repeat split; auto.
    unfold done_frames in *. simpl.
    destruct (is_done m); [discriminate | exact H2].
  - repeat split; auto.
Qed.

Section Regeneration.

Variable parseTitle : string -> option string.

(** handleRegenerate up to its first suspension writes nothing and
    completes nothing. *)
Lemma handleRegenerate_begin_quiet (d : Database) (s : Session)
  (eventId conversationId model : string) :
  let '(s', es, task) :=
    handleRegenerate_begin d s eventId conversationId model in
  s' = new_AbortController s /\ quiet es = true /\ regenerating task = true.
Proof.
  unfold handleRegenerate_begin.
  destruct (last_message (findMany conversationId d)) as [m|];
    [|now repeat split].
  destruct ((List.length (findMany conversationId d) <? 2)%nat
            || negb (is_assistant (role m))); now repeat split.
Qed.

(** Nor does it when resumed with anything but the end of the stream. *)
Lemma resume_regenerating_quiet (env : Env) (task : Task) (r : Reply) :
  regenerating task = true ->
  is_stream_end r = false ->
  quiet (fst (resume parseTitle env task r)) = true
  /\ regenerating (snd (resume parseTitle env task r)) = true.
Proof.
  destruct task as [| | |l|l newResponse|]; try discriminate; intros _;
    destruct r as [|chunk| |c|e]; try discriminate; intros _;
    try (now split).
  - cbn [resume]. unfold regenerate_chunk.
    destruct (Js.truthy _); now split.
  - cbn [resume]. destruct (is_AbortError e); now split.
Qed.

Lemma resume_all_regenerating_quiet (env : Env) (rs : list Reply) :
  forall task : Task,
    regenerating task = true ->
    forallb (fun r => negb (is_stream_end r)) rs = true ->
    quiet (fst (resume_all parseTitle env task rs)) = true.
Proof.
  induction rs as [|r rs IH]; intros task Ht Hrs; [reflexivity|].
  cbn [forallb] in Hrs. apply andb_prop in Hrs as [Hr Hrs].
  apply negb_true_iff in Hr.
  destruct (resume_regenerating_quiet env task r Ht Hr) as [Hq Ht'].
  cbn [resume_all].
  destruct (resume parseTitle env task r) as [es task'].
  specialize (IH task' Ht' Hrs).
  destruct (resume_all parseTitle env task' rs) as [es' task''].
  cbn [fst snd] in *. now rewrite quiet_app, Hq, IH.
Qed.

(** A regeneration that is never resumed with the end of its stream. *)
Lemma regeneration_without_stream_end (w : World) (env0 env1 : Env)
  (eventId conversationId model : string) (tools : list ChatCompletionTool)
  (rs : list Reply) :
  forallb (fun r => negb (is_stream_end r)) rs = true ->
  let w' :=
    generation parseTitle w env0
      (chat_regenerate eventId conversationId model tools) env1 rs in
  db w' = db w /\ quiet (emitted w w') = true.
Proof.
  intros Hrs. unfold generation, webSocketMessage.
  pose proof (handleRegenerate_begin_quiet (db w) (session w) eventId
                conversationId model) as Hb.
  destruct (handleRegenerate_begin (db w) (session w) eventId conversationId
              model) as [[s' es] task].
  destruct Hb as (_ & Hq & Ht).
  unfold started.
  erewrite run_replies by (simpl; apply nth_error_app_length).
  pose proof (resume_all_regenerating_quiet env1 rs task Ht Hrs) as Hq'.
  destruct (resume_all parseTitle env1 task rs) as [es' task'].
  cbn [fst] in Hq'. cbv zeta. cbn [db trace].
  unfold emitted. cbn [trace].
  rewrite <- app_assoc, skipn_length_app, quiet_app, Hq, Hq'.
  destruct (quiet_effects _ Hq) as (H1 & _).
  destruct (quiet_effects _ Hq') as (H1' & _).
  now rewrite H1', H1.
Qed.

End Regeneration.

(** The [AbortError] branch of handleRegenerate: when the completion
    request or the iteration of the stream throws an error named
    [AbortError], the regeneration leaves the storage exactly as it was
    (no message content is overwritten and no [updated_at] is bumped: no
    write is performed at all) and sends no [chat.stream.done] frame. *)
Theorem cancelled_regenerate_is_silent
  (parseTitle : string -> option string) (w : World) (env0 env1 : Env)
  (eventId conversationId model : string) (tools : list ChatCompletionTool)
  (chunks : list Chunk) (fin : Reply) :
  cancels fin = true ->
  let regenerate := chat_regenerate eventId conversationId model tools in
  let w1 := generation parseTitle w env0 regenerate env1 [fin] in
  let w2 :=
    generation parseTitle w env0 regenerate env1 (stream_replies chunks fin)
  in
  (db w1 = db w
   /\ done_frames (emitted w w1) = []
   /\ forallb (fun e => negb (is_write e)) (emitted w w1) = true)
  /\ (db w2 = db w
      /\ done_frames (emitted w w2) = []
      /\ forallb (fun e => negb (is_write e)) (emitted w w2) = true).
Proof.
  intros Hfin. cbv zeta.
  assert (Hne : is_stream_end fin = false) by (now destruct fin).
  split.
  - destruct (regeneration_without_stream_end parseTitle w env0 env1 eventId
                conversationId model tools [fin]) as [Hdb Hq].
    { simpl. now rewrite Hne. }
    destruct (quiet_effects _ Hq) as (_ & H2 & H3). now repeat split.
  - destruct (regeneration_without_stream_end parseTitle w env0 env1 eventId
                conversationId model tools (stream_replies chunks fin))
      as [Hdb Hq].
    { unfold stream_replies. cbn [forallb is_stream_end negb andb].
      rewrite forallb_app. cbn. rewrite Hne. cbn. rewrite andb_true_r.
      apply forallb_forall. intros r [c [<- _]]%in_map_iff. reflexivity. }
    destruct (quiet_effects _ Hq) as (_ & H2 & H3). now repeat split.
Qed.

(** C7. A regenerate command on a history of fewer than two messages, or
    whose most recent message has role user, is answered by one error
    frame and nothing else: the storage is left as it was, no completion
    request is issued, and the invocation has returned. *)
Theorem regenerate_rejected_without_mutation
  (w : World) (env : Env) (eventId conversationId model : string)
  (tools : list ChatCompletionTool) :
  List.length (findMany conversationId (db w)) < 2
  \/ (exists m,
        last_message (findMany conversationId (db w)) = Some m
        /\ role m = user) ->
  let w' :=
    webSocketMessage env w (chat_regenerate eventId conversationId model tools)
  in
  emitted w w'
  = [ws_send (error eventId "Cannot regenerate the last message.")]
  /\ db w' = db w
  /\ provider_calls (emitted w w') = []
  /\ tasks w' = tasks w ++ [settled]
  /\ outstanding w' = outstanding w.
Proof.
  intros Hpre. cbv zeta.
  assert (Hb : handleRegenerate_begin (db w) (session w) eventId
                 conversationId model
               = (new_AbortController (session w),
                  [ws_send (error eventId "Cannot regenerate the last message.")],
                  settled)).
  { unfold handleRegenerate_begin.
    destruct (last_message (findMany conversationId (db w))) as [m|] eqn:L;
      [|reflexivity].
    destruct Hpre as [Hlen|(m' & [= <-] & Hrole)].
    - apply Nat.ltb_lt in Hlen. now rewrite Hlen.
    - rewrite Hrole. cbn. now rewrite orb_true_r. }
  unfold webSocketMessage. rewrite Hb. unfold started, emitted. cbn.
  rewrite skipn_length_app. repeat split.
  unfold outstanding. cbn. rewrite flat_map_app. cbn. now rewrite app_nil_r.
Qed.

Lemma cancelled_regenerate_is_silent_witness :
  cancels Sample.abort_error = true
  /\ (let w := initial_world Sample.two_turns in
     let w1 :=
       generation Sample.parseTitle w Sample.env0 Sample.regenerate
         Sample.env1 [Sample.abort_error] in
     let w2 :=
       generation Sample.parseTitle w Sample.env0 Sample.regenerate
         Sample.env1 (stream_replies Sample.greeting Sample.abort_error) in
     (db w1 = db w
      /\ done_frames (emitted w w1) = []
      /\ forallb (fun e => negb (is_write e)) (emitted w w1) = true)
     /\ (db w2 = db w
         /\ done_frames (emitted w w2) = []
         /\ forallb (fun e => negb (is_write e)) (emitted w w2) = true)).
Proof.
  split; [reflexivity|].
  exact (cancelled_regenerate_is_silent Sample.parseTitle
           (initial_world Sample.two_turns) Sample.env0 Sample.env1
           "e3" "c1" "@cf/model" [] Sample.greeting Sample.abort_error
           eq_refl).
Defined.

Lemma regenerate_rejected_without_mutation_witness :
  List.length (findMany "c1" (db (initial_world Sample.one_turn))) < 2
  /\ (let w := initial_world Sample.one_turn in
     let w' := webSocketMessage Sample.env0 w Sample.regenerate in
     emitted w w'
     = [ws_send (error "e3" "Cannot regenerate the last message.")]
     /\ db w' = db w
     /\ provider_calls (emitted w w') = []
     /\ tasks w' = tasks w ++ [settled]
     /\ outstanding w' = outstanding w).
Proof.
  assert (H : List.length (findMany "c1" (db (initial_world Sample.one_turn)))
              < 2) by (vm_compute; lia).
  split; [exact H|].
  exact (regenerate_rejected_without_mutation (initial_world Sample.one_turn)
           Sample.env0 "e3" "c1" "@cf/model" [] (or_introl H)).
Defined.

(** ** Cancellation tokens *)

Lemma new_AbortController_well_formed (s : Session) :
  well_formed (new_AbortController s).
Proof. unfold well_formed. simpl. rewrite length_app. simpl. lia. Qed.

Lemma abort_well_formed (s : Session) :
  well_formed s -> well_formed (abort s).
Proof. unfold well_formed. simpl. now rewrite set_nth_length. Qed.

Lemma handleChat_begin_session (env : Env) (d : Database) (s : Session)
  (eventId conversationId text model : string) :
  fst (fst (handleChat_begin env d s eventId conversationId text model))
  = new_AbortController s.
Proof.
  unfold handleChat_begin. now destruct (findFirst conversationId d).
Qed.

Lemma handleRegenerate_begin_session (d : Database) (s : Session)
  (eventId conversationId model : string) :
  fst (fst (handleRegenerate_begin d s eventId conversationId model))
  = new_AbortController s.
Proof.
  pose proof (handleRegenerate_begin_quiet d s eventId conversationId model)
    as H.
  destruct (handleRegenerate_begin d s eventId conversationId model)
    as [[s' es] task].
  now destruct H.
Qed.

(** What a frame that starts a generation does to the tokens and to the
    invocations in flight. *)
Lemma generation_frame (w : World) (env : Env) (m : WebSocketClientMessage) :
  starts_generation m = true ->
  session (webSocketMessage env w m) = new_AbortController (session w)
  /\ exists task, tasks (webSocketMessage env w m) = tasks w ++ [task].
Proof.
  destruct m as [e c t mo ts|e c|e c t|e c mo ts]; try discriminate; intros _;
    unfold webSocketMessage, started.
  - pose proof (handleChat_begin_session env (db w) (session w) e c t mo) as H.
    destruct (handleChat_begin env (db w) (session w) e c t mo)
      as [[s' es] task].
    split; [exact H | now exists task].
  - pose proof (handleRegenerate_begin_session (db w) (session w) e c mo) as H.
    destruct (handleRegenerate_begin (db w) (session w) e c mo)
      as [[s' es] task].
    split; [exact H | now exists task].
Qed.

Section Reachability.

Variable parseTitle : string -> option string.

Lemma step_well_formed (w : World) (i : Env * Event) :
  well_formed (session w) -> well_formed (session (step parseTitle w i)).
Proof.
  intros Hwf. destruct i as [env [m|task_id r]]; unfold step; cbn [fst snd].
  - destruct (starts_generation m) eqn:G.
    + destruct (generation_frame w env m G) as [-> _].
      apply new_AbortController_well_formed.
    + destruct m; try discriminate; simpl; [|exact Hwf].
      now apply abort_well_formed.
  - unfold deliver. destruct (nth_error (tasks w) task_id); [|exact Hwf].
    now destruct (resume parseTitle env t r).
Qed.

(** In every world the object can be in, [this.abortController] refers to
    an allocated controller. *)
Lemma reachable_well_formed (w : World) :
  reachable parseTitle w -> well_formed (session w).
Proof.
  intros (d & inputs & ->). unfold run.
  assert (H : well_formed (session (initial_world d)))
    by (unfold well_formed; simpl; lia).
  revert H. generalize (initial_world d).
  induction inputs as [|i inputs IH]; intros w0 H; [exact H|].
  simpl. apply IH. now apply step_well_formed.
Qed.

End Reachability.

(** C2, refuted as stated: "Again" arrives while "Hello" is being
    answered.  The completion request of "Hello", which holds token 1, is
    outstanding before and after; token 1 is not aborted by the arrival,
    two requests are outstanding afterwards, and a cancel frame sent then
    still leaves token 1 as it is. *)
Lemma second_generation_leaves_first_uncancelled :
  outstanding Runs.first_in_flight = [1]
  /\ aborted (session Runs.both_in_flight) 1 = false
  /\ outstanding Runs.both_in_flight = [1; 2]
  /\ aborted
       (session
          (webSocketMessage Sample.env1 Runs.both_in_flight
             (chat_stream_cancel "e9" "c1")))
       1 = false.
Proof. repeat split; vm_compute; reflexivity. Qed.

(** C2, as the code has it. When a generation or regeneration command
    arrives, the session allocates a fresh token, not aborted, and makes
    it the current one; it aborts nothing: every other token is as it was,
    the invocations in flight stay in flight untouched, and their
    outstanding completion requests stay outstanding next to the new
    one. *)
Theorem new_generation_replaces_token_without_cancelling
  (w : World) (env : Env) (m : WebSocketClientMessage) :
  starts_generation m = true ->
  let w' := webSocketMessage env w m in
  abortController (session w') = List.length (controllers (session w))
  /\ aborted (session w') (abortController (session w')) = false
  /\ (forall k,
        k <> abortController (session w') ->
        aborted (session w') k = aborted (session w) k)
  /\ (exists task, tasks w' = tasks w ++ [task])
  /\ (exists new, outstanding w' = outstanding w ++ new).
Proof.
  intros G. cbv zeta.
  destruct (generation_frame w env m G) as [Hs [task Ht]].
  rewrite Hs. unfold aborted.
  cbn [new_AbortController abortController controllers].
  split; [reflexivity|]. split; [|split; [|split]].
  - rewrite app_nth2 by lia. now rewrite Nat.sub_diag.
  - intros k Hk.
    destruct (Nat.lt_ge_cases k (List.length (controllers (session w))))
      as [Hlt|Hge].
    + now rewrite app_nth1.
    + rewrite app_nth2 by lia.
      rewrite (nth_overflow (controllers (session w))) by lia.
      now destruct (k - List.length (controllers (session w))) as [|[|n]].
  - now exists task.
  - exists (match task_signal task with Some k => [k] | None => [] end).
    unfold outstanding. rewrite Ht, flat_map_app. cbn. now rewrite app_nil_r.
Qed.

Lemma new_generation_replaces_token_without_cancelling_witness :
  starts_generation Sample.again = true
  /\ (let w := Runs.first_in_flight in
     let w' := webSocketMessage Sample.env1 w Sample.again in
     abortController (session w') = List.length (controllers (session w))
     /\ aborted (session w') (abortController (session w')) = false
     /\ (forall k,
           k <> abortController (session w') ->
           aborted (session w') k = aborted (session w) k)
     /\ (exists task, tasks w' = tasks w ++ [task])
     /\ (exists new, outstanding w' = outstanding w ++ new)).
Proof.
  split; [reflexivity|].
  exact (new_generation_replaces_token_without_cancelling
           Runs.first_in_flight Sample.env1 Sample.again eq_refl).
Defined.

(** ** Interleaved invocations *)

Lemma nth_error_set_nth_other {A : Type} (n k : nat) (x : A) (l : list A) :
  k <> n -> nth_error (set_nth n x l) k = nth_error l k.
Proof.
  revert n k. induction l as [|z l IH]; intros [|n] [|k] H; simpl;
    try reflexivity; try congruence.
  apply IH. congruence.
Qed.

Section Interleaving.

Variable parseTitle : string -> option string.

(** Resuming an invocation adds to the trace what that invocation does,
    which depends on the invocation and the reply alone, and leaves the
    tokens and the other invocations as they are. *)
Lemma deliver_local (env : Env) (w : World) (task_id : nat) (r : Reply)
  (task : Task) :
  nth_error (tasks w) task_id = Some task ->
  emitted w (deliver parseTitle env w task_id r)
  = fst (resume parseTitle env task r)
  /\ session (deliver parseTitle env w task_id r) = session w
  /\ forall k,
       k <> task_id ->
       nth_error (tasks (deliver parseTitle env w task_id r)) k
       = nth_error (tasks w) k.
Proof.
  intros Ht. unfold deliver. rewrite Ht.
  destruct (resume parseTitle env task r) as [es task'].
  unfold emitted. cbn. rewrite skipn_length_app.
  repeat split. intros k Hk. now apply nth_error_set_nth_other.
Qed.

(** A frame leaves the invocations in flight as they are. *)
Lemma frame_keeps_tasks (env : Env) (w : World) (m : WebSocketClientMessage)
  (task_id : nat) (task : Task) :
  nth_error (tasks w) task_id = Some task ->
  nth_error (tasks (webSocketMessage env w m)) task_id = Some task.
Proof.
  intros Ht.
  assert (Hlt : task_id < List.length (tasks w))
    by (apply nth_error_Some; congruence).
  destruct (starts_generation m) eqn:G.
  - destruct (generation_frame w env m G) as [_ [t ->]].
    now rewrite nth_error_app1.
  - destruct m; try discriminate; exact Ht.
Qed.

Lemma step_keeps_superseded (w : World) (i : Env * Event) (k : nat) :
  well_formed (session w) ->
  k < abortController (session w) ->
  k < abortController (session (step parseTitle w i))
  /\ aborted (session (step parseTitle w i)) k = aborted (session w) k.
Proof.
  unfold well_formed, aborted. intros Hwf Hk.
  destruct i as [env [m|task_id r]]; unfold step; cbn [fst snd].
  - destruct (starts_generation m) eqn:G.
    + destruct (generation_frame w env m G) as [-> _]. cbn.
      split; [lia|]. apply app_nth1. lia.
    + destruct m; try discriminate; cbn; [|now split].
      split; [exact Hk|]. apply nth_set_nth_neq. lia.
  - unfold deliver. destruct (nth_error (tasks w) task_id); [|now split].
    destruct (resume parseTitle env t r). now split.
Qed.

(** Once a token is no longer the current one, nothing the object
    receives aborts it: an invocation holding it can no longer be
    cancelled. *)
Lemma superseded_token_never_aborted (inputs : list (Env * Event)) :
  forall (w : World) (k : nat),
    well_formed (session w) ->
    k < abortController (session w) ->
    aborted (session (run parseTitle w inputs)) k = aborted (session w) k.
Proof.
  induction inputs as [|i inputs IH]; intros w k Hwf Hk; [reflexivity|].
  destruct (step_keeps_superseded w i k Hwf Hk) as [Hk' Ha].
  simpl. fold (run parseTitle (step parseTitle w i) inputs).
  rewrite IH; [exact Ha | now apply step_well_formed | exact Hk'].
Qed.

End Interleaving.

(** ** The accumulator on the sample data *)

Example accumulate_lookup :
  accumulate (fragments (deltas Sample.lookup))
  = [(0%Z,
      mkToolCall 0 (Some "call_1"%string) (Some "function"%string)
        (Some (mkFunction (Some "lookup"%string) (Some "{q:x}"%string))))].
Proof. reflexivity. Qed.

(** Two calls whose fragments interleave; the name of call 1 arrives
    late, and an empty name arriving later does not clear it. *)
Example accumulate_interleaved :
  accumulate
    [mkToolCall 0 (Some "a"%string) None
       (Some (mkFunction (Some "f"%string) None));
     mkToolCall 1 None None (Some (mkFunction None (Some "x"%string)));
     mkToolCall 0 None None (Some (mkFunction None (Some "1"%string)));
     mkToolCall 1 (Some "b"%string) None
       (Some (mkFunction (Some "g"%string) (Some "y"%string)));
     mkToolCall 0 (Some ""%string) None
       (Some (mkFunction (Some ""%string) (Some "2"%string)))]
  = [(0%Z,
      mkToolCall 0 (Some "a"%string) None
        (Some (mkFunction (Some "f"%string) (Some "12"%string))));
     (1%Z,
      mkToolCall 1 (Some "b"%string) None
        (Some (mkFunction (Some "g"%string) (Some "xy"%string))))].
Proof. reflexivity. Qed.

(** * Further properties *)

(** ** Starting a create-generation *)

(** The order of the rows a query returns. *)

Lemma string_ltb_leb (a b : string) :
  (a <? b)%string = true -> (a <=? b)%string = true.
Proof.
  unfold String.ltb, String.leb. now destruct (String.compare a b).
Qed.

Lemma insert_by_created_at_last (m x : Message) (l : list Message) :
  (message_created_at x <=? message_created_at m)%string = true ->
  insert_by_created_at x (l ++ [m]) = insert_by_created_at x l ++ [m].
Proof.
  intros Hle. induction l as [|y l IH]; cbn [insert_by_created_at app].
  - now rewrite Hle.
  - destruct (message_created_at x <=? message_created_at y)%string;
      [reflexivity | now rewrite IH].
Qed.

(** A row that is not earlier than any other comes last. *)
Lemma order_by_created_at_last (m : Message) (l : list Message) :
  (forall x,
      In x l ->
      (message_created_at x <=? message_created_at m)%string = true) ->
  order_by_created_at (l ++ [m]) = order_by_created_at l ++ [m].
Proof.
  unfold order_by_created_at. induction l as [|x l IH]; intros Hle;
    [reflexivity|].
  cbn [app fold_right]. rewrite IH by (intros y Hy; apply Hle; now right).
  apply insert_by_created_at_last, Hle. now left.
Qed.

Lemma insert_by_created_at_perm (m : Message) (l : list Message) :
  Permutation (insert_by_created_at m l) (m :: l).
Proof.
  induction l as [|x l IH]; cbn [insert_by_created_at]; [reflexivity|].
  destruct (message_created_at m <=? message_created_at x)%string;
    [reflexivity|].
  rewrite IH. apply perm_swap.
Qed.

Lemma order_by_created_at_perm (l : list Message) :
  Permutation (order_by_created_at l) l.
Proof.
  unfold order_by_created_at. induction l as [|x l IH]; [reflexivity|].
  cbn [fold_right]. rewrite insert_by_created_at_perm. now constructor.
Qed.

Lemma insert_by_created_at_map (f : Message -> Message) (m : Message)
  (l : list Message) :
  (forall x, message_created_at (f x) = message_created_at x) ->
  insert_by_created_at (f m) (map f l) = map f (insert_by_created_at m l).
Proof.
  intros Hf. induction l as [|x l IH]; [reflexivity|].
  cbn [map insert_by_created_at]. rewrite !Hf.
  destruct (message_created_at m <=? message_created_at x)%string;
    [reflexivity | now rewrite IH].
Qed.

(** An update that keeps [created_at] keeps the order. *)
Lemma order_by_created_at_map (f : Message -> Message) (l : list Message) :
  (forall x, message_created_at (f x) = message_created_at x) ->
  order_by_created_at (map f l) = map f (order_by_created_at l).
Proof.
  intros Hf. unfold order_by_created_at.
  induction l as [|x l IH]; [reflexivity|].
  cbn [map fold_right]. rewrite IH. now apply insert_by_created_at_map.
Qed.

Lemma In_findMany (conversationId : string) (d : Database) (m : Message) :
  In m (findMany conversationId d)
  <-> In m (messages d) /\ message_conversation_id m = conversationId.
Proof.
  unfold findMany. split.
  - intros H.
    apply (Permutation_in _ (order_by_created_at_perm _)) in H.
    apply filter_In in H. now rewrite String.eqb_eq in H.
  - intros H.
    apply (Permutation_in _ (Permutation_sym (order_by_created_at_perm _))).
    apply filter_In. now rewrite String.eqb_eq.
Qed.

(** A row inserted for another conversation is not in the result. *)
Lemma findMany_insert_other (conversationId : string) (d : Database)
  (row : Message) :
  message_conversation_id row <> conversationId ->
  findMany conversationId (apply_effect d (db_insert_message row))
  = findMany conversationId d.
Proof.
  intros Hother. apply String.eqb_neq in Hother.
  unfold findMany. cbn [apply_effect messages]. rewrite filter_app.
  cbn [filter]. now rewrite Hother, app_nil_r.
Qed.

(** A row inserted for the conversation comes last when the rows of the
    conversation are earlier than it. *)
Lemma findMany_insert_latest (conversationId : string) (d : Database)
  (row : Message) :
  message_conversation_id row = conversationId ->
  (forall m,
      In m (findMany conversationId d) ->
      (message_created_at m <? message_created_at row)%string = true) ->
  findMany conversationId (apply_effect d (db_insert_message row))
  = findMany conversationId d ++ [row].
Proof.
  intros Hrow Hearlier. apply String.eqb_eq in Hrow.
  unfold findMany. cbn [apply_effect messages]. rewrite filter_app.
  cbn [filter]. rewrite Hrow. apply order_by_created_at_last.
  intros x Hx. apply string_ltb_leb, Hearlier.
  unfold findMany.
  now apply (Permutation_in _ (Permutation_sym (order_by_created_at_perm _))).
Qed.

Lemma handleChat_begin_found (env : Env) (d : Database) (s : Session)
  (eventId conversationId text model : string) (conversation : Conversation) :
  findFirst conversationId d = Some conversation ->
  let history :=
    history_turns conversationId
      (apply_effect d (db_insert_message (user_row env conversationId text)))
  in
  handleChat_begin env d s eventId conversationId text model
  = (new_AbortController s,
     [db_insert_message (user_row env conversationId text);
      completions_create
        (mkRequest model history true 10000%Z (Some "low"%string) true None
           (Some (List.length (controllers s))) false)],
     chat_awaiting_stream
       (mkChatLocals eventId conversationId conversation history
          (List.length (controllers s)))).
Proof.
  intros Hfind. unfold handleChat_begin. rewrite Hfind. reflexivity.
Qed.

(** X1. A [chat.stream.create] frame for a conversation that is not in
    storage is answered by one error frame and nothing else: no row is
    written (the user turn is not persisted), no completion request is
    issued, and the invocation has returned. *)
Theorem chat_on_unknown_conversation_reports_error
  (w : World) (env : Env) (eventId conversationId text model : string)
  (tools : list ChatCompletionTool) :
  findFirst conversationId (db w) = None ->
  let w' :=
    webSocketMessage env w
      (chat_stream_create eventId conversationId text model tools) in
  emitted w w' = [ws_send (error eventId "An internal error occurred")]
  /\ db w' = db w
  /\ tasks w' = tasks w ++ [settled]
  /\ outstanding w' = outstanding w.
Proof.
  intros Hfind. cbv zeta. unfold webSocketMessage, handleChat_begin.
  rewrite Hfind. unfold started, emitted. cbn.
  rewrite skipn_length_app. repeat split.
  unfold outstanding. cbn. rewrite flat_map_app. cbn. now rewrite app_nil_r.
Qed.

Lemma chat_on_unknown_conversation_reports_error_witness :
  findFirst "c9" (db Sample.world) = None
  /\ (let w' :=
        webSocketMessage Sample.env0 Sample.world
          (chat_stream_create "e1" "c9" "Hello" "@cf/model" []) in
      emitted Sample.world w'
      = [ws_send (error "e1" "An internal error occurred")]
      /\ db w' = db Sample.world
      /\ tasks w' = tasks Sample.world ++ [settled]
      /\ outstanding w' = outstanding Sample.world).
Proof.
  split; [reflexivity|].
  exact (chat_on_unknown_conversation_reports_error Sample.world Sample.env0
           "e1" "c9" "Hello" "@cf/model" [] eq_refl).
Defined.

(** X2. A [chat.stream.create] frame for a conversation in storage first
    inserts the user row and then issues one streamed completion request,
    whose messages are the turns the query returns after the insert, by
    ascending [created_at].  When the messages stored for the conversation
    were all created before the time of the insert, these are the stored
    turns, in their order, followed by the new user turn; the request
    carries the signal of the token allocated for this generation, which
    is not aborted. *)
Theorem chat_request_carries_history_and_new_turn
  (w : World) (env : Env) (eventId conversationId text model : string)
  (tools : list ChatCompletionTool) (conversation : Conversation) :
  findFirst conversationId (db w) = Some conversation ->
  (forall m,
      In m (findMany conversationId (db w)) ->
      (message_created_at m <? now env)%string = true) ->
  let w' :=
    webSocketMessage env w
      (chat_stream_create eventId conversationId text model tools) in
  exists req,
    emitted w w'
    = [db_insert_message (user_row env conversationId text);
       completions_create req]
    /\ req_messages req = history_turns conversationId (db w')
    /\ req_messages req
       = history_turns conversationId (db w) ++ [turn user text]
    /\ req_model req = model
    /\ req_stream req = true
    /\ req_signal req = Some (abortController (session w'))
    /\ aborted (session w') (abortController (session w')) = false
    /\ findMany conversationId (db w')
       = findMany conversationId (db w) ++ [user_row env conversationId text]
    /\ outstanding w' = outstanding w ++ [abortController (session w')].
Proof.
  intros Hfind Hearlier. cbv zeta. unfold webSocketMessage.
  rewrite (handleChat_begin_found _ _ _ _ _ _ _ _ Hfind). cbv zeta.
  unfold started, emitted. cbn [trace db session tasks].
  rewrite skipn_length_app.
  assert (Hlast :
            findMany conversationId
              (apply_effect (db w)
                 (db_insert_message (user_row env conversationId text)))
            = findMany conversationId (db w)
              ++ [user_row env conversationId text])
    by (apply findMany_insert_latest; [reflexivity | exact Hearlier]).
  eexists. split; [reflexivity|]. cbn [req_messages req_model req_stream
    req_signal new_AbortController abortController controllers].
  unfold apply_effects. cbn [fold_left].
  split; [reflexivity|]. split.
  { unfold history_turns. now rewrite Hlast, map_app. }
  do 3 (split; [reflexivity|]). split; [|split].
  - unfold aborted. cbn. rewrite app_nth2 by lia. now rewrite Nat.sub_diag.
  - exact Hlast.
  - unfold outstanding. cbn [tasks]. rewrite flat_map_app. reflexivity.
Qed.

Lemma two_turns_are_earlier (m : Message) :
  In m (findMany "c1" (db (initial_world Sample.two_turns))) ->
  (message_created_at m <? now Sample.env0)%string = true.
Proof. intros [<-|[<-|[]]]; reflexivity. Defined.

Lemma chat_request_carries_history_and_new_turn_witness :
  findFirst "c1" (db (initial_world Sample.two_turns)) = Some Sample.untitled
  /\ (forall m,
        In m (findMany "c1" (db (initial_world Sample.two_turns))) ->
        (message_created_at m <? now Sample.env0)%string = true)
  /\ (let w := initial_world Sample.two_turns in
      let w' := webSocketMessage Sample.env0 w Sample.again in
      exists req,
        emitted w w'
        = [db_insert_message (user_row Sample.env0 "c1" "Again");
           completions_create req]
        /\ req_messages req = history_turns "c1" (db w')
        /\ req_messages req = history_turns "c1" (db w) ++ [turn user "Again"]
        /\ req_model req = "@cf/model"%string
        /\ req_stream req = true
        /\ req_signal req = Some (abortController (session w'))
        /\ aborted (session w') (abortController (session w')) = false
        /\ findMany "c1" (db w')
           = findMany "c1" (db w) ++ [user_row Sample.env0 "c1" "Again"]
        /\ outstanding w' = outstanding w ++ [abortController (session w')]).
Proof.
  split; [reflexivity|]. split; [exact two_turns_are_earlier|].
  exact (chat_request_carries_history_and_new_turn
           (initial_world Sample.two_turns) Sample.env0 "e2" "c1" "Again"
           "@cf/model" [] Sample.untitled eq_refl two_turns_are_earlier).
Defined.

(** The position of the new turn follows [created_at], not the order of
    insertion: with a clock that has stepped back before the stored
    messages, the request lists the new turn first. *)
Example request_lists_new_turn_by_created_at :
  let behind := mkEnv "2024-12-31T22:00:00.000Z" "uuid-1" in
  let w := initial_world Sample.two_turns in
  let w' := webSocketMessage behind w Sample.again in
  provider_calls (emitted w w')
  = [mkRequest "@cf/model"
       [turn user "Again"; turn user "Hello"; turn assistant "Hi there"]
       true 10000%Z (Some "low"%string) true None (Some 1) false]
  /\ map message_id (messages (db w')) = ["m1"; "m2"; "uuid-1"]%string
  /\ map message_id (findMany "c1" (db w')) = ["uuid-1"; "m1"; "m2"]%string.
Proof. repeat split. Qed.

(** ** Create-generations that fail *)

Lemma conversations_apply_effects (es : list Effect) :
  forall d : Database,
    forallb (fun e => negb (is_conversation_write e)) es = true ->
    conversations (apply_effects d es) = conversations d.
Proof.
  induction es as [|e es IH]; intros d; [reflexivity|].
  cbn [forallb]. intros [He Hes]%andb_prop.
  change (apply_effects d (e :: es))
    with (apply_effects (apply_effect d e) es).
  rewrite (IH _ Hes). now destruct e.
Qed.

Lemma only_frames_conversations (es : list Effect) :
  only_frames es = true ->
  forallb (fun e => negb (is_conversation_write e)) es = true.
Proof.
  induction es as [|e es IH]; simpl; [reflexivity|].
  intros [He Hes]%andb_prop. rewrite (IH Hes). now destruct e.
Qed.

Lemma set_nth_last {A : Type} (x y : A) (l : list A) :
  set_nth (List.length l) x (l ++ [y]) = l ++ [x].
Proof. induction l as [|z l IH]; simpl; [reflexivity | now rewrite IH]. Qed.

Section FailedCreate.

Variable parseTitle : string -> option string.

(** An invocation that has returned ignores whatever it is resumed with. *)
Lemma resume_all_settled (env : Env) (rs : list Reply) :
  resume_all parseTitle env settled rs = ([], settled).
Proof.
  induction rs as [|r rs IH]; [reflexivity|].
  cbn [resume_all]. destruct r; cbn [resume]; now rewrite IH.
Qed.

Lemma resume_stream_fails (env : Env) (l : ChatLocals) (response : string)
  (m : ToolCallMap.t) (fin : Reply) :
  stream_fails fin = true ->
  resume parseTitle env (chat_streaming l response m) fin
  = (chat_catch (chat_eventId l), settled).
Proof.
  destruct fin as [|[|d ch]| | |e]; try discriminate; cbn; [reflexivity|].
  now intros ->%negb_true_iff.
Qed.

Variables (w : World) (env0 env1 : Env).
Variables (eventId conversationId text model : string).
Variable tools : list ChatCompletionTool.
Variable conversation : Conversation.
Variable later : list Reply.

Hypothesis conversation_found :
  findFirst conversationId (db w) = Some conversation.

Let create : WebSocketClientMessage :=
  chat_stream_create eventId conversationId text model tools.

Let begin_effects : list Effect :=
  [db_insert_message (user_row env0 conversationId text);
   completions_create
     (mkRequest model
        (history_turns conversationId
           (apply_effect (db w)
              (db_insert_message (user_row env0 conversationId text))))
        true 10000%Z (Some "low"%string) true None
        (Some (List.length (controllers (session w)))) false)].

(** A create-generation that ends in the outer [catch] after [rs], having
    done [es] since its request was issued. *)
Lemma failing_generation (rs : list Reply) (es : list Effect) :
  (forall l0,
      chat_eventId l0 = eventId ->
      chat_conversationId l0 = conversationId ->
      resume_all parseTitle env1 (chat_awaiting_stream l0) rs
      = (es ++ chat_catch eventId, settled)) ->
  let w' := generation parseTitle w env0 create env1 (rs ++ later) in
  emitted w w' = begin_effects ++ es ++ chat_catch eventId
  /\ db w' = apply_effects (db w) (begin_effects ++ es ++ chat_catch eventId)
  /\ outstanding w' = outstanding w.
Proof.
  intros Hrs. cbv zeta. unfold generation, create, webSocketMessage.
  rewrite (handleChat_begin_found _ _ _ _ _ _ _ _ conversation_found).
  cbv zeta. fold begin_effects. unfold started.
  erewrite run_replies by (simpl; apply nth_error_app_length).
  rewrite resume_all_app, Hrs by reflexivity.
  rewrite resume_all_settled. cbn [db trace tasks session].
  rewrite app_nil_r, <- apply_effects_app, <- app_assoc.
  unfold emitted. cbn [trace]. rewrite skipn_length_app.
  repeat split.
  unfold outstanding. cbn [tasks].
  rewrite set_nth_last, flat_map_app. cbn. now rewrite app_nil_r.
Qed.

(** X3. When the streamed completion request of a create-generation is
    rejected, whatever is thrown (an [AbortError] too), the generation
    ends with one error frame.  The user row inserted before the request
    stays in storage without an answer: no assistant row is inserted, no
    [chat.stream.done] frame is sent, [updated_at] is not bumped, and
    whatever the provider does later is ignored. *)
Theorem rejected_request_leaves_user_turn_unanswered (e : Thrown) :
  let w' := generation parseTitle w env0 create env1 (rejected e :: later) in
  exists req,
    emitted w w'
    = [db_insert_message (user_row env0 conversationId text);
       completions_create req;
       ws_send (error eventId "An internal error occurred")]
    /\ messages (db w')
       = messages (db w) ++ [user_row env0 conversationId text]
    /\ conversations (db w') = conversations (db w)
    /\ outstanding w' = outstanding w.
Proof.
  cbv zeta.
  destruct (failing_generation [rejected e] []) as (Hem & Hdb & Hout).
  { intros l0 He _. cbn. now rewrite He. }
  cbn [app] in Hem, Hdb. rewrite Hem, Hdb.
  eexists. split; [reflexivity|]. repeat split. exact Hout.
Qed.

(** X4. When the stream loop of a create-generation is left by a throw
    that is not an [AbortError] (from the provider, or from a chunk
    without a first choice), the frames already sent for the chunks
    received stay sent and one error frame follows them.  The text
    streamed so far is not persisted: no assistant row is inserted, no
    [chat.stream.done] frame without action is sent, [updated_at] is not
    bumped, and only the user row has been added to storage. *)
Theorem failed_stream_reports_error_without_assistant_turn
  (chunks : list Chunk) (fin : Reply) :
  forallb has_choice chunks = true ->
  stream_fails fin = true ->
  let w' :=
    generation parseTitle w env0 create env1
      (stream_replies chunks fin ++ later) in
  (exists pre,
      sent (emitted w w') = pre ++ [error eventId "An internal error occurred"]
      /\ filter is_error pre = []
      /\ filter is_final_done pre = [])
  /\ streamed_text (emitted w w') = text_of (deltas chunks)
  /\ inserted assistant (emitted w w') = []
  /\ messages (db w') = messages (db w) ++ [user_row env0 conversationId text]
  /\ conversations (db w') = conversations (db w)
  /\ outstanding w' = outstanding w.
Proof.
  intros Hchunks Hfin. cbv zeta.
  set (es := fst (fst (chat_stream eventId conversationId ""
                         ToolCallMap.empty (deltas chunks)))).
  destruct (failing_generation (stream_replies chunks fin) es)
    as (Hem & Hdb & Hout).
  { intros l0 He Hc. unfold stream_replies. cbn [resume_all resume].
    rewrite resume_all_app, (resume_all_chat_chunks _ _ _ _ _ _ Hchunks).
    cbv zeta. rewrite He, Hc. fold es.
    destruct (chat_stream eventId conversationId "" ToolCallMap.empty
                (deltas chunks)) as [[es_s r] m].
    cbn [fst snd resume_all app]. rewrite (resume_stream_fails _ _ _ _ _ Hfin).
    now rewrite He, app_nil_r. }
  pose proof (chat_stream_only_frames eventId conversationId (deltas chunks)
                "" ToolCallMap.empty) as Hof.
  fold es in Hof.
  destruct (only_frames_quiet _ Hof) as (_ & _ & Hins & Herr & _).
  destruct (only_frames_rows _ Hof) as (Hrows & Hcu).
  rewrite Hem, Hdb. split; [|split; [|split; [|split; [|split]]]].
  - exists (sent es). rewrite !sent_app. cbn. split; [reflexivity|].
    split; [exact Herr|].
    rewrite final_done_among_done. apply no_final_done.
    apply chat_stream_done_action.
  - rewrite !streamed_text_app. unfold es.
    rewrite chat_stream_streamed_text. cbn.
    now rewrite append_empty_r.
  - rewrite !inserted_app, Hins. reflexivity.
  - rewrite messages_apply_effects.
    + rewrite !inserted_rows_app, Hrows. reflexivity.
    + rewrite !forallb_app, Hcu. reflexivity.
  - apply conversations_apply_effects.
    rewrite !forallb_app, (only_frames_conversations _ Hof). reflexivity.
  - exact Hout.
Qed.

End FailedCreate.

Lemma rejected_request_leaves_user_turn_unanswered_witness :
  findFirst "c1" (db Sample.world) = Some Sample.untitled
  /\ (let w' :=
        generation Sample.parseTitle Sample.world Sample.env0 Sample.hello
          Sample.env1 [Sample.abort_error; stream_end] in
      exists req,
        emitted Sample.world w'
        = [db_insert_message (user_row Sample.env0 "c1" "Hello");
           completions_create req;
           ws_send (error "e1" "An internal error occurred")]
        /\ messages (db w')
           = messages (db Sample.world)
             ++ [user_row Sample.env0 "c1" "Hello"]
        /\ conversations (db w') = conversations (db Sample.world)
        /\ outstanding w' = outstanding Sample.world).
Proof.
  split; [reflexivity|].
  exact (rejected_request_leaves_user_turn_unanswered Sample.parseTitle
           Sample.world Sample.env0 Sample.env1 "e1" "c1" "Hello" "@cf/model"
           [] Sample.untitled [stream_end] eq_refl
           (error_named "AbortError")).
Defined.

Lemma failed_stream_reports_error_without_assistant_turn_witness :
  findFirst "c1" (db Sample.world) = Some Sample.untitled
  /\ forallb has_choice Sample.greeting = true
  /\ stream_fails (next_chunk []) = true
  /\ (let w' :=
        generation Sample.parseTitle Sample.world Sample.env0 Sample.hello
          Sample.env1 (stream_replies Sample.greeting (next_chunk []) ++ []) in
      (exists pre,
          sent (emitted Sample.world w')
          = pre ++ [error "e1" "An internal error occurred"]
          /\ filter is_error pre = []
          /\ filter is_final_done pre = [])
      /\ streamed_text (emitted Sample.world w')
         = text_of (deltas Sample.greeting)
      /\ inserted assistant (emitted Sample.world w') = []
      /\ messages (db w')
         = messages (db Sample.world) ++ [user_row Sample.env0 "c1" "Hello"]
      /\ conversations (db w') = conversations (db Sample.world)
      /\ outstanding w' = outstanding Sample.world).
Proof.
  repeat (split; [reflexivity|]).
  exact (failed_stream_reports_error_without_assistant_turn Sample.parseTitle
           Sample.world Sample.env0 Sample.env1 "e1" "c1" "Hello" "@cf/model"
           [] Sample.untitled [] eq_refl Sample.greeting (next_chunk [])
           eq_refl eq_refl).
Defined.

(** ** The title of a conversation after a create-generation *)

Lemma update_where_twice {A : Type} (p : A -> bool) (f g : A -> A)
  (l : list A) :
  (forall x, p (g x) = p x) ->
  update_where p f (update_where p g l)
  = update_where p (fun x => f (g x)) l.
Proof.
  intros Hp. unfold update_where. rewrite map_map. apply map_ext.
  intros x. destruct (p x) eqn:E; [now rewrite Hp, E | now rewrite E].
Qed.

Lemma find_update_where {A : Type} (p : A -> bool) (f : A -> A) (l : list A) :
  (forall x, p (f x) = p x) ->
  find p (update_where p f l) = option_map f (find p l).
Proof.
  intros Hp. induction l as [|x l IH]; [reflexivity|].
  simpl. destruct (p x) eqn:E.
  - now rewrite Hp, E.
  - now rewrite E.
Qed.

Section TitleOutcome.

Variable parseTitle : string -> option string.

Variables (w : World) (env0 env1 : Env).
Variables (eventId conversationId text model : string).
Variable tools : list ChatCompletionTool.
Variable chunks : list Chunk.
Variable fin : Reply.
Variable conversation : Conversation.

Hypothesis conversation_found :
  findFirst conversationId (db w) = Some conversation.
Hypothesis chunks_have_choice : forallb has_choice chunks = true.
Hypothesis loop_left : ends_stream fin = true.

(** X5. When the conversation is untitled and the title completion yields
    a non-empty title, that title is stored for the conversation (and for
    no other), next to the bumped [updated_at], and one
    [conversation.title.update] frame carrying it is sent last, after the
    [chat.stream.done] frame of the turn. *)
Theorem derived_title_is_stored_and_announced
  (message_content : option string) (parsedTitle : string) :
  title conversation = None ->
  parseTitle (Js.or_else message_content "{}") = Some parsedTitle ->
  parsedTitle <> ""%string ->
  let w' :=
    generation parseTitle w env0
      (chat_stream_create eventId conversationId text model tools)
      env1 (stream_replies chunks fin ++ [resolved_completion message_content])
  in
  findFirst conversationId (db w')
  = Some (set_title parsedTitle (set_updated_at (now env1) conversation))
  /\ conversations (db w')
     = update_where
         (fun c => (conversation_id c =? conversationId)%string)
         (fun c => set_title parsedTitle (set_updated_at (now env1) c))
         (conversations (db w))
  /\ exists pre,
       sent (emitted w w')
       = pre ++ [conversation_title_update eventId conversationId parsedTitle]
       /\ In (chat_stream_done eventId conversationId None) pre
       /\ filter is_title_update pre = [].
Proof.
  intros Hnone Hparse Hne. cbv zeta.
  set (w' := generation parseTitle w env0 _ env1 _).
  destruct (create_generation parseTitle w env0 env1 eventId conversationId
              text model tools chunks fin (resolved_completion message_content)
              conversation conversation_found chunks_have_choice loop_left)
    as (l & row & req & He & Hc & Hconv & Hrole & Hreq & H).
  cbv zeta in H. fold w' in H.
  set (es_s := fst (fst (chat_stream eventId conversationId ""
                           ToolCallMap.empty (deltas chunks)))) in *.
  set (r := snd (fst (chat_stream eventId conversationId ""
                        ToolCallMap.empty (deltas chunks)))) in *.
  assert (Ht : Js.truthy (Some parsedTitle) = true).
  { simpl. now destruct (String.eqb_spec parsedTitle ""). }
  unfold chat_finish in H. rewrite Hconv, Hnone in H.
  cbn [fst snd resume] in H. unfold chat_title in H.
  rewrite Hparse, Ht, He, Hc in H.
  destruct H as (Hem & Hdb & _).
  pose proof (chat_stream_only_frames eventId conversationId (deltas chunks)
                "" ToolCallMap.empty) as Hof.
  fold es_s in Hof.
  destruct (only_frames_quiet _ Hof) as (_ & _ & _ & _ & Htu).
  assert (Hcs : conversations (db w')
                = update_where
                    (fun c => (conversation_id c =? conversationId)%string)
                    (fun c => set_title parsedTitle
                                (set_updated_at (now env1) c))
                    (conversations (db w))).
  { rewrite Hdb, app_assoc, apply_effects_app.
    set (d1 := apply_effects (db w)
                 ([db_insert_message row; completions_create req] ++ es_s)).
    assert (Hd1 : conversations d1 = conversations (db w)).
    { apply conversations_apply_effects.
      rewrite forallb_app, (only_frames_conversations _ Hof). reflexivity. }
    clearbody d1. unfold apply_effects. cbn. rewrite Hd1.
    now apply update_where_twice. }
  split; [|split].
  - unfold findFirst. rewrite Hcs, find_update_where by reflexivity.
    fold (findFirst conversationId (db w)). now rewrite conversation_found.
  - exact Hcs.
  - exists (sent es_s ++ [chat_stream_done eventId conversationId None]).
    rewrite Hem, !sent_app. cbn. rewrite <- app_assoc. split; [reflexivity|].
    split.
    + apply in_or_app. right. now left.
    + rewrite filter_app, Htu. reflexivity.
Qed.

(** A create-generation on a conversation that has a title. *)
Lemma titled_generation (title_reply : Reply) (current : string) :
  title conversation = Some current ->
  let w' :=
    generation parseTitle w env0
      (chat_stream_create eventId conversationId text model tools)
      env1 (stream_replies chunks fin ++ [title_reply]) in
  map title (conversations (db w')) = map title (conversations (db w))
  /\ title_attempts (emitted w w') = []
  /\ filter is_title_update (sent (emitted w w')) = []
  /\ (exists c,
        findFirst conversationId (db w') = Some c /\ title c = Some current).
Proof.
  intros Hsome. cbv zeta.
  set (w' := generation parseTitle w env0 _ env1 _).
  destruct (create_generation_shape parseTitle w env0 env1 eventId
              conversationId text model tools chunks fin title_reply
              conversation conversation_found chunks_have_choice loop_left)
    as (row & req & treq & es_t & Hrole & Hreq & Htreq & Ht & Hem & Hdb & _).
  fold w' in Hem, Hdb.
  assert (Hnil : es_t = []).
  { destruct Ht as [H|(t & Hn & _)]; [exact H | congruence]. }
  subst es_t. rewrite Hsome in Hem, Hdb.
  pose proof (chat_stream_only_frames eventId conversationId (deltas chunks)
                "" ToolCallMap.empty) as Hof.
  destruct (only_frames_quiet _ Hof) as (_ & Hpc & _ & _ & Htu).
  assert (Htitles : map title (conversations (db w'))
                    = map title (conversations (db w))).
  { rewrite Hdb. apply titles_apply_effects.
    rewrite !forallb_app, (only_frames_titles _ Hof). reflexivity. }
  split; [exact Htitles|]. split; [|split].
  - rewrite Hem, !title_attempts_app. unfold title_attempts at 2.
    rewrite Hpc. unfold title_attempts. cbn. now rewrite Hreq.
  - rewrite Hem, !sent_app, !filter_app, Htu. reflexivity.
  - rewrite Hdb, !apply_effects_app.
    set (d1 := apply_effects
                 (apply_effects (db w)
                    [db_insert_message row; completions_create req]) _).
    assert (Hd1 : conversations d1 = conversations (db w)).
    { unfold d1. rewrite <- apply_effects_app.
      apply conversations_apply_effects.
      rewrite forallb_app, (only_frames_conversations _ Hof). reflexivity. }
    exists (set_updated_at (now env1) conversation).
    split; [|exact Hsome].
    clearbody d1. unfold apply_effects, findFirst. cbn. rewrite Hd1.
    change (map ?g (conversations (db w)))
      with (update_where
              (fun c => (conversation_id c =? conversationId)%string)
              (set_updated_at (now env1)) (conversations (db w))).
    rewrite find_update_where by reflexivity.
    fold (findFirst conversationId (db w)). now rewrite conversation_found.
Qed.

End TitleOutcome.

(** X6. When the conversation already has a title, a create-generation
    issues no title request and leaves every title of the storage as it
    was, whatever a title completion would have answered; no
    [conversation.title.update] frame is sent. *)
Theorem titled_conversation_keeps_its_title
  (parseTitle : string -> option string) (w : World) (env0 env1 : Env)
  (eventId conversationId text model : string)
  (tools : list ChatCompletionTool) (chunks : list Chunk)
  (fin title_reply : Reply) (conversation : Conversation) (current : string) :
  findFirst conversationId (db w) = Some conversation ->
  forallb has_choice chunks = true ->
  ends_stream fin = true ->
  title conversation = Some current ->
  let w' :=
    generation parseTitle w env0
      (chat_stream_create eventId conversationId text model tools)
      env1 (stream_replies chunks fin ++ [title_reply]) in
  map title (conversations (db w')) = map title (conversations (db w))
  /\ title_attempts (emitted w w') = []
  /\ filter is_title_update (sent (emitted w w')) = []
  /\ (exists c,
        findFirst conversationId (db w') = Some c /\ title c = Some current).
Proof.
  intros Hfind Hchunks Hfin Htitle.
  exact (titled_generation parseTitle w env0 env1 eventId conversationId text
           model tools chunks fin conversation Hfind Hchunks Hfin title_reply
           current Htitle).
Qed.

(** ** Regenerations that start *)

Lemma last_message_split (l : list Message) (m : Message) :
  last_message l = Some m -> l = removelast l ++ [m].
Proof.
  unfold last_message. induction l as [|x l IH]; [discriminate|].
  destruct l as [|y l].
  - simpl. now intros [= ->].
  - intros H. change (removelast (x :: y :: l)) with (x :: removelast (y :: l)).
    simpl. f_equal. apply IH. simpl in *. now rewrite Nat.sub_0_r in *.
Qed.

Lemma last_message_In (l : list Message) (m : Message) :
  last_message l = Some m -> In m l.
Proof. unfold last_message. apply nth_error_In. Qed.

Lemma handleRegenerate_begin_accepted (d : Database) (s : Session)
  (eventId conversationId model : string) (m : Message) :
  2 <= List.length (findMany conversationId d) ->
  last_message (findMany conversationId d) = Some m ->
  role m = assistant ->
  handleRegenerate_begin d s eventId conversationId model
  = (new_AbortController s,
     [completions_create
        (mkRequest model
           (map (fun x => turn (role x) (content x))
              (removelast (findMany conversationId d)))
           true 10000%Z (Some "low"%string) true None
           (Some (List.length (controllers s))) true)],
     regenerate_awaiting_stream
       (mkRegenerateLocals eventId conversationId (message_id m)
          (List.length (controllers s)))).
Proof.
  intros Hlen Hlast Hrole. unfold handleRegenerate_begin.
  rewrite Hlast, Hrole.
  assert (Hl : (List.length (findMany conversationId d) <? 2)%nat = false)
    by (apply Nat.ltb_ge; lia).
  now rewrite Hl.
Qed.

(** X7. A regenerate command on a history of at least two messages whose
    last one is an assistant message writes nothing and issues one
    streamed completion request that bypasses the response cache: its
    messages are the stored turns of the conversation without the last
    assistant turn, and it carries the signal of the token allocated for
    this regeneration. *)
Theorem regenerate_request_drops_last_assistant_turn
  (w : World) (env : Env) (eventId conversationId model : string)
  (tools : list ChatCompletionTool) (m : Message) :
  2 <= List.length (findMany conversationId (db w)) ->
  last_message (findMany conversationId (db w)) = Some m ->
  role m = assistant ->
  let w' :=
    webSocketMessage env w (chat_regenerate eventId conversationId model tools)
  in
  exists req,
    emitted w w' = [completions_create req]
    /\ req_messages req ++ [turn assistant (content m)]
       = history_turns conversationId (db w)
    /\ req_model req = model
    /\ req_skip_cache req = true
    /\ req_signal req = Some (abortController (session w'))
    /\ aborted (session w') (abortController (session w')) = false
    /\ db w' = db w
    /\ outstanding w' = outstanding w ++ [abortController (session w')].
Proof.
  intros Hlen Hlast Hrole. cbv zeta. unfold webSocketMessage.
  rewrite (handleRegenerate_begin_accepted _ _ _ _ _ _ Hlen Hlast Hrole).
  unfold started, emitted. cbn [trace db session tasks].
  rewrite skipn_length_app.
  eexists. split; [reflexivity|].
  cbn [req_messages req_model req_skip_cache req_signal new_AbortController
         abortController controllers].
  repeat split.
  - unfold history_turns.
    rewrite (last_message_split _ _ Hlast) at 2.
    rewrite map_app. cbn [map]. now rewrite Hrole.
  - unfold aborted. cbn. rewrite app_nth2 by lia. now rewrite Nat.sub_diag.
  - unfold outstanding. cbn [tasks]. rewrite flat_map_app. reflexivity.
Qed.

Lemma regenerate_request_drops_last_assistant_turn_witness :
  2 <= List.length (findMany "c1" (db (initial_world Sample.two_turns)))
  /\ last_message (findMany "c1" (db (initial_world Sample.two_turns)))
     = Some MoreRuns.last_turn
  /\ (let w := initial_world Sample.two_turns in
      let w' := webSocketMessage Sample.env0 w Sample.regenerate in
      exists req,
        emitted w w' = [completions_create req]
        /\ req_messages req ++ [turn assistant "Hi there"]
           = history_turns "c1" (db w)
        /\ req_model req = "@cf/model"%string
        /\ req_skip_cache req = true
        /\ req_signal req = Some (abortController (session w'))
        /\ aborted (session w') (abortController (session w')) = false
        /\ db w' = db w
        /\ outstanding w' = outstanding w ++ [abortController (session w')]).
Proof.
  assert (H : 2 <= List.length
                     (findMany "c1" (db (initial_world Sample.two_turns))))
    by (vm_compute; lia).
  split; [exact H|]. split; [reflexivity|].
  exact (regenerate_request_drops_last_assistant_turn
           (initial_world Sample.two_turns) Sample.env0 "e3" "c1" "@cf/model"
           [] MoreRuns.last_turn
           H eq_refl eq_refl).
Defined.

(** ** Regenerations that run *)

Lemma apply_effects_only_frames (es : list Effect) :
  forall d : Database, only_frames es = true -> apply_effects d es = d.
Proof.
  induction es as [|e es IH]; intros d H; [reflexivity|].
  simpl in H. apply andb_prop in H as [He Hes].
  destruct e; try discriminate. simpl. now apply IH.
Qed.

Lemma filter_update_where {A : Type} (q p : A -> bool) (f : A -> A)
  (l : list A) :
  (forall x, q (f x) = q x) ->
  filter q (update_where p f l) = update_where p f (filter q l).
Proof.
  intros Hq. induction l as [|x l IH]; [reflexivity|].
  simpl. destruct (p x) eqn:P.
  - rewrite Hq. destruct (q x); simpl; now rewrite ?P, IH.
  - destruct (q x); simpl; now rewrite ?P, IH.
Qed.

Lemma update_where_untouched {A : Type} (p : A -> bool) (f : A -> A)
  (l : list A) :
  (forall x, In x l -> p x = false) -> update_where p f l = l.
Proof.
  intros H. induction l as [|x l IH]; [reflexivity|].
  simpl. rewrite (H x) by now left.
  f_equal. apply IH. intros y Hy. apply H. now right.
Qed.

Lemma update_where_app {A : Type} (p : A -> bool) (f : A -> A)
  (l l' : list A) :
  update_where p f (l ++ l') = update_where p f l ++ update_where p f l'.
Proof. apply map_app. Qed.

Lemma NoDup_map_filter {A B : Type} (f : A -> B) (q : A -> bool)
  (l : list A) :
  NoDup (map f l) -> NoDup (map f (filter q l)).
Proof.
  induction l as [|x l IH]; [trivial|].
  simpl. intros H. inversion H as [|? ? Hx Hl]; subst.
  destruct (q x); [|now apply IH].
  simpl. constructor; [|now apply IH].
  intros Hin. apply Hx. apply in_map_iff in Hin as (y & Hy & Hyl).
  apply in_map_iff. exists y. split; [exact Hy|].
  now apply filter_In in Hyl as [Hyl _].
Qed.

Lemma NoDup_map_eq {A B : Type} (f : A -> B) (l : list A) (x y : A) :
  NoDup (map f l) -> In x l -> In y l -> f x = f y -> x = y.
Proof.
  induction l as [|z l IH]; [contradiction|].
  simpl. intros H Hx Hy Hf. inversion H as [|? ? Hz Hl]; subst.
  destruct Hx as [->|Hx], Hy as [->|Hy]; try reflexivity.
  - exfalso. apply Hz. rewrite Hf. now apply in_map.
  - exfalso. apply Hz. rewrite <- Hf. now apply in_map.
  - now apply IH.
Qed.

Lemma regenerate_chunk_eq (l : RegenerateLocals) (newResponse : string)
  (chunk : Chunk) :
  snd (regenerate_chunk l newResponse chunk)
  = (newResponse
     ++ Js.or_else
          (match chunk with d :: _ => delta_content d | [] => None end) "")%string
  /\ streamed_text (fst (regenerate_chunk l newResponse chunk))
     = Js.or_else
         (match chunk with d :: _ => delta_content d | [] => None end) ""
  /\ only_frames (fst (regenerate_chunk l newResponse chunk)) = true
  /\ done_frames (fst (regenerate_chunk l newResponse chunk)) = [].
Proof.
  unfold regenerate_chunk.
  destruct (Js.truthy _) eqn:T; cbn [fst snd]; repeat split.
  - now rewrite (JsFacts.or_else_empty _ T), append_empty_r.
  - now rewrite (JsFacts.or_else_empty _ T).
Qed.

Lemma regenerate_stream_eq (l : RegenerateLocals) (chunks : list Chunk) :
  forall newResponse : string,
    snd (regenerate_stream l newResponse chunks)
    = (newResponse ++ regenerated_text chunks)%string
    /\ streamed_text (fst (regenerate_stream l newResponse chunks))
       = regenerated_text chunks
    /\ only_frames (fst (regenerate_stream l newResponse chunks)) = true
    /\ done_frames (fst (regenerate_stream l newResponse chunks)) = [].
Proof.
  induction chunks as [|chunk chunks IH]; intros newResponse.
  - cbn. now rewrite append_empty_r.
  - cbn [regenerate_stream].
    destruct (regenerate_chunk_eq l newResponse chunk) as (C1 & C2 & C3 & C4).
    destruct (regenerate_chunk l newResponse chunk) as [es r'].
    destruct (IH r') as (I1 & I2 & I3 & I4).
    destruct (regenerate_stream l r' chunks) as [es' r''].
    cbn [fst snd] in *. subst r'.
    unfold regenerated_text in *. cbn [map]. rewrite concat_cons.
    rewrite streamed_text_app, only_frames_app, done_frames_app.
    rewrite I1, I2, C2, C3, I3, C4, I4, append_assoc. now repeat split.
Qed.

(** An update of [content] keeps the order of the rows a query returns. *)
Lemma findMany_update_content (conversationId : string) (d : Database)
  (p : Message -> bool) (text : string) (rows : list Message) :
  rows = update_where p (set_content text) (messages d) ->
  order_by_created_at
    (filter (fun m => (message_conversation_id m =? conversationId)%string)
       rows)
  = update_where p (set_content text) (findMany conversationId d).
Proof.
  intros ->. rewrite filter_update_where by reflexivity.
  unfold findMany, update_where. apply order_by_created_at_map.
  intros x. now destruct (p x).
Qed.

Lemma findMany_NoDup (conversationId : string) (d : Database) :
  NoDup (map message_id (messages d)) ->
  NoDup (map message_id (findMany conversationId d)).
Proof.
  intros Hids. unfold findMany.
  eapply Permutation_NoDup;
    [apply Permutation_map, Permutation_sym, order_by_created_at_perm|].
  now apply NoDup_map_filter.
Qed.

Section Regenerated.

Variable parseTitle : string -> option string.

Lemma resume_all_regenerate_chunks (env : Env) (l : RegenerateLocals)
  (chunks : list Chunk) :
  forall newResponse : string,
    resume_all parseTitle env (regenerate_streaming l newResponse)
      (map next_chunk chunks)
    = (fst (regenerate_stream l newResponse chunks),
       regenerate_streaming l (snd (regenerate_stream l newResponse chunks))).
Proof.
  induction chunks as [|chunk chunks IH]; intros newResponse; [reflexivity|].
  cbn [map resume_all resume regenerate_stream].
  destruct (regenerate_chunk l newResponse chunk) as [es r'].
  rewrite (IH r').
  now destruct (regenerate_stream l r' chunks) as [es' r''].
Qed.

Variables (w : World) (env0 env1 : Env).
Variables (eventId conversationId model : string).
Variable tools : list ChatCompletionTool.
Variable m : Message.
Variable later : list Reply.

Hypothesis long_enough : 2 <= List.length (findMany conversationId (db w)).
Hypothesis last_is_m : last_message (findMany conversationId (db w)) = Some m.
Hypothesis m_is_assistant : role m = assistant.

Let regenerate : WebSocketClientMessage :=
  chat_regenerate eventId conversationId model tools.

Let request : CompletionRequest :=
  mkRequest model
    (map (fun x => turn (role x) (content x))
       (removelast (findMany conversationId (db w))))
    true 10000%Z (Some "low"%string) true None
    (Some (List.length (controllers (session w)))) true.

Let locals : RegenerateLocals :=
  mkRegenerateLocals eventId conversationId (message_id m)
    (List.length (controllers (session w))).

(** A regeneration that has returned after [rs], having done [es] since
    its request was issued. *)
Lemma returned_regeneration (rs : list Reply) (es : list Effect) :
  resume_all parseTitle env1 (regenerate_awaiting_stream locals) rs
  = (es, settled) ->
  let w' := generation parseTitle w env0 regenerate env1 (rs ++ later) in
  emitted w w' = completions_create request :: es
  /\ db w' = apply_effects (db w) es
  /\ outstanding w' = outstanding w.
Proof.
  intros Hrs. cbv zeta. unfold generation, regenerate, webSocketMessage.
  rewrite (handleRegenerate_begin_accepted _ _ _ _ _ _ long_enough last_is_m
             m_is_assistant).
  fold request locals. unfold started.
  erewrite run_replies by (simpl; apply nth_error_app_length).
  rewrite resume_all_app, Hrs.
  rewrite resume_all_settled. cbn [db trace tasks session].
  rewrite app_nil_r, <- apply_effects_app.
  unfold emitted. cbn [trace]. rewrite <- app_assoc, skipn_length_app.
  repeat split.
  unfold outstanding. cbn [tasks].
  rewrite set_nth_last, flat_map_app. cbn. now rewrite app_nil_r.
Qed.

(** X8. A regeneration whose stream ends naturally overwrites, in place,
    the content of the last assistant message of the conversation with the
    text streamed (message identifiers being unique): the history keeps
    its length and its other messages, the messages of the other
    conversations are untouched, [updated_at] of the conversation is
    bumped, one [chat.stream.done] frame without action is sent, and no
    title request is made.  A chunk without a first choice counts as a
    chunk without text. *)
Theorem regenerate_overwrites_last_assistant_turn (chunks : list Chunk) :
  NoDup (map message_id (messages (db w))) ->
  let w' :=
    generation parseTitle w env0 regenerate env1
      (stream_replies chunks stream_end ++ later) in
  findMany conversationId (db w')
  = removelast (findMany conversationId (db w))
    ++ [set_content (regenerated_text chunks) m]
  /\ (forall other,
        other <> conversationId ->
        findMany other (db w') = findMany other (db w))
  /\ List.length (messages (db w')) = List.length (messages (db w))
  /\ conversations (db w')
     = update_where (fun c => (conversation_id c =? conversationId)%string)
         (set_updated_at (now env1)) (conversations (db w))
  /\ done_frames (emitted w w')
     = [chat_stream_done eventId conversationId None]
  /\ streamed_text (emitted w w') = regenerated_text chunks
  /\ List.length (provider_calls (emitted w w')) = 1.
Proof.
  intros Hids. cbv zeta.
  destruct (regenerate_stream_eq locals chunks "") as (S1 & S2 & S3 & S4).
  cbn [append] in S1.
  destruct (returned_regeneration (stream_replies chunks stream_end)
              (fst (regenerate_stream locals "" chunks)
               ++ regenerate_finish env1 locals (regenerated_text chunks)))
    as (Hem & Hdb & _).
  { unfold stream_replies. cbn [resume_all resume].
    rewrite resume_all_app, resume_all_regenerate_chunks.
    cbn [fst snd resume_all resume]. now rewrite S1, app_nil_r. }
  set (es_s := fst (regenerate_stream locals "" chunks)) in *.
  destruct (only_frames_quiet _ S3) as (_ & Hpc & _).
  destruct (only_frames_rows _ S3) as (Hrows & _).
  assert (Hmsgs : messages (db (generation parseTitle w env0 regenerate env1
                                  (stream_replies chunks stream_end ++ later)))
                  = update_where
                      (fun x => (message_id x =? message_id m)%string)
                      (set_content (regenerated_text chunks))
                      (messages (db w))).
  { rewrite Hdb, apply_effects_app.
    rewrite (apply_effects_only_frames _ _ S3). reflexivity. }
  assert (Hm_in : In m (messages (db w))).
  { apply last_message_In in last_is_m.
    now apply In_findMany in last_is_m as [H _]. }
  assert (Hm_conv : message_conversation_id m = conversationId).
  { apply last_message_In in last_is_m.
    now apply In_findMany in last_is_m as [_ H]. }
  split; [|split; [|split; [|split; [|split; [|split]]]]].
  - unfold findMany at 1.
    rewrite (findMany_update_content _ _ _ _ _ Hmsgs).
    pose proof (findMany_NoDup conversationId _ Hids) as Hnd.
    rewrite (last_message_split _ _ last_is_m) in Hnd |- * at 1.
    rewrite update_where_app. cbn [update_where map].
    rewrite String.eqb_refl.
    rewrite map_app in Hnd. cbn [map] in Hnd.
    apply NoDup_remove_2 in Hnd. rewrite app_nil_r in Hnd.
    rewrite update_where_untouched; [reflexivity|].
    intros x Hx. apply String.eqb_neq. intros Heq.
    apply Hnd. rewrite <- Heq. now apply in_map.
  - intros other Hother. unfold findMany at 1.
    rewrite (findMany_update_content _ _ _ _ _ Hmsgs).
    apply update_where_untouched.
    intros x Hx. apply In_findMany in Hx as [Hx Hc].
    apply String.eqb_neq. intros Heq.
    pose proof (NoDup_map_eq message_id _ x m Hids Hx Hm_in Heq) as ->.
    congruence.
  - rewrite Hmsgs. unfold update_where. apply length_map.
  - rewrite Hdb, apply_effects_app.
    set (d1 := apply_effects (db w) es_s).
    assert (Hd1 : conversations d1 = conversations (db w)).
    { apply conversations_apply_effects.
      now apply only_frames_conversations. }
    clearbody d1. unfold apply_effects. cbn. now rewrite Hd1.
  - rewrite Hem.
    change (completions_create request :: ?l)
      with ([completions_create request] ++ l).
    rewrite !done_frames_app, S4. reflexivity.
  - rewrite Hem.
    change (completions_create request :: ?l)
      with ([completions_create request] ++ l).
    rewrite !streamed_text_app, S2. cbn. now rewrite append_empty_r.
  - rewrite Hem.
    change (completions_create request :: ?l)
      with ([completions_create request] ++ l).
    rewrite !provider_calls_app, Hpc. reflexivity.
Qed.

(** X9. A regeneration that fails, because its completion request is
    rejected (whatever is thrown) or because iterating its stream throws
    something that is not an [AbortError], ends with one error frame of
    its own wording, after the text frames already sent; it writes
    nothing and sends no [chat.stream.done] frame. *)
Theorem failed_regenerate_reports_error_without_write
  (chunks : list Chunk) (e e' : Thrown) :
  is_AbortError e' = false ->
  let wording := "An internal error occurred during regeneration."%string in
  let w1 := generation parseTitle w env0 regenerate env1 (rejected e :: later)
  in
  let w2 :=
    generation parseTitle w env0 regenerate env1
      (stream_replies chunks (rejected e') ++ later) in
  (sent (emitted w w1) = [error eventId wording] /\ db w1 = db w)
  /\ (exists pre,
         sent (emitted w w2) = pre ++ [error eventId wording]
         /\ filter is_done pre = []
         /\ filter is_error pre = [])
  /\ streamed_text (emitted w w2) = regenerated_text chunks
  /\ db w2 = db w.
Proof.
  intros He'. cbv zeta.
  destruct (regenerate_stream_eq locals chunks "") as (S1 & S2 & S3 & S4).
  destruct (returned_regeneration [rejected e] (regenerate_catch eventId))
    as (Hem1 & Hdb1 & _); [reflexivity|].
  destruct (returned_regeneration (stream_replies chunks (rejected e'))
              (fst (regenerate_stream locals "" chunks)
               ++ regenerate_catch eventId))
    as (Hem2 & Hdb2 & _).
  { unfold stream_replies. cbn [resume_all resume].
    rewrite resume_all_app, resume_all_regenerate_chunks.
    cbn [fst snd resume_all resume]. now rewrite He', app_nil_r. }
  cbn [app] in Hem1, Hdb1.
  set (es_s := fst (regenerate_stream locals "" chunks)) in *.
  destruct (only_frames_quiet _ S3) as (Hnw & _ & _ & Herr & _).
  assert (Hd : apply_effects (db w) (es_s ++ regenerate_catch eventId) = db w).
  { now rewrite apply_effects_app, (apply_effects_only_frames _ _ S3). }
  rewrite Hem1, Hdb1, Hem2, Hdb2, Hd.
  split; [now split|]. split; [|split; [|reflexivity]].
  - exists (sent es_s).
    change (completions_create request :: ?l)
      with ([completions_create request] ++ l).
    rewrite !sent_app. cbn. split; [reflexivity|]. split; [exact S4 | exact Herr].
  - change (completions_create request :: ?l)
      with ([completions_create request] ++ l).
    rewrite !streamed_text_app, S2. cbn. now rewrite append_empty_r.
Qed.

(** C4. A regeneration cancelled while its stream is iterated is
    completed all the same.  The cancel frame aborts the signal its
    request carries, the iteration then ends without a throw, and the
    code after the loop runs as at the end of the stream: one
    [chat.stream.done] frame is sent, the content of the last assistant
    message is overwritten with the text streamed up to the cancel, and
    [updated_at] of the conversation is bumped. *)
Theorem cancelled_regenerate_still_overwrites
  (chunks : list Chunk) (cancelEventId cancelConversationId : string) :
  let w1 := webSocketMessage env0 w regenerate in
  let w' :=
    run parseTitle w1
      (cancelled_midstream env1 (List.length (tasks w)) chunks cancelEventId
         cancelConversationId) in
  (exists req,
      provider_calls (emitted w w') = [req]
      /\ req_signal req = Some (abortController (session w'))
      /\ aborted (session w1) (abortController (session w')) = false
      /\ aborted (session w') (abortController (session w')) = true)
  /\ streamed_text (emitted w w') = regenerated_text chunks
  /\ done_frames (emitted w w')
     = [chat_stream_done eventId conversationId None]
  /\ messages (db w')
     = update_where (fun x => (message_id x =? message_id m)%string)
         (set_content (regenerated_text chunks)) (messages (db w))
  /\ conversations (db w')
     = update_where (fun c => (conversation_id c =? conversationId)%string)
         (set_updated_at (now env1)) (conversations (db w))
  /\ tasks w' = tasks w ++ [settled].
Proof.
  cbv zeta.
  destruct (regenerate_stream_eq locals chunks "") as (S1 & S2 & S3 & S4).
  cbn [append] in S1.
  set (es_s := fst (regenerate_stream locals "" chunks)) in *.
  assert (H1 :
            run parseTitle (webSocketMessage env0 w regenerate)
              (map (fun r => (env1, reply (List.length (tasks w)) r))
                 (resolved_stream :: map next_chunk chunks))
            = mkWorld (db w) (new_AbortController (session w))
                (trace w ++ completions_create request :: es_s)
                (tasks w
                 ++ [regenerate_streaming locals (regenerated_text chunks)])).
  { unfold regenerate, webSocketMessage.
    rewrite (handleRegenerate_begin_accepted _ _ _ _ _ _ long_enough
               last_is_m m_is_assistant).
    fold request locals. unfold started.
    erewrite run_replies by (simpl; apply nth_error_app_length).
    cbn [resume_all resume]. rewrite resume_all_regenerate_chunks.
    fold es_s. rewrite S1. cbn [app db trace tasks session].
    rewrite set_nth_last, <- app_assoc.
    rewrite (apply_effects_only_frames _ _ S3). reflexivity. }
  assert (H2 :
            run parseTitle (webSocketMessage env0 w regenerate)
              (cancelled_midstream env1 (List.length (tasks w)) chunks
                 cancelEventId cancelConversationId)
            = mkWorld
                (apply_effects (db w)
                   (regenerate_finish env1 locals (regenerated_text chunks)))
                (abort (new_AbortController (session w)))
                (trace w
                 ++ completions_create request
                    :: es_s
                    ++ regenerate_finish env1 locals (regenerated_text chunks))
                (tasks w ++ [settled])).
  { unfold cancelled_midstream, run in *. rewrite fold_left_app, H1.
    cbn [fold_left step fst snd webSocketMessage db session trace tasks].
    unfold deliver. cbn [tasks]. rewrite nth_error_app_length.
    cbn [iteration_after_abort resume db session trace tasks].
    rewrite set_nth_last, <- app_assoc. reflexivity. }
  rewrite H2. clear H1 H2.
  assert (Hw1 : session (webSocketMessage env0 w regenerate)
                = new_AbortController (session w)).
  { unfold regenerate, webSocketMessage.
    now rewrite (handleRegenerate_begin_accepted _ _ _ _ _ _ long_enough
                   last_is_m m_is_assistant). }
  rewrite Hw1. unfold emitted.
  cbn [db session trace tasks abort new_AbortController abortController
         controllers].
  rewrite skipn_length_app.
  destruct (only_frames_quiet _ S3) as (_ & Hpc & _).
  change (completions_create request :: ?l)
    with ([completions_create request] ++ l).
  rewrite !provider_calls_app, !streamed_text_app, !done_frames_app.
  rewrite Hpc, S2, S4.
  split; [|split; [|split; [|split; [|split]]]].
  - exists request. split; [reflexivity|]. split; [reflexivity|].
    unfold aborted.
    cbn [controllers new_AbortController abort abortController]. split.
    + rewrite app_nth2 by lia. now rewrite Nat.sub_diag.
    + apply nth_set_nth_eq. rewrite length_app. simpl. lia.
  - cbn. now rewrite append_empty_r.
  - reflexivity.
  - reflexivity.
  - reflexivity.
  - reflexivity.
Qed.

End Regenerated.

(** ** Which generation a cancel frame reaches *)

Lemma begin_requests_carry_new_signal (w : World) (env : Env)
  (m : WebSocketClientMessage) (req : CompletionRequest) :
  In req (provider_calls (emitted w (webSocketMessage env w m))) ->
  req_signal req = Some (List.length (controllers (session w))).
Proof.
  unfold emitted.
  destruct m as [e c t mo ts|e c|e c t|e c mo ts]; unfold webSocketMessage.
  - unfold handleChat_begin.
    destruct (findFirst c (db w)); unfold started; cbn [trace];
      rewrite skipn_length_app; cbn.
    + intros [<-|[]]. reflexivity.
    + intros [].
  - cbn [trace]. rewrite skipn_all. intros [].
  - rewrite skipn_all. intros [].
  - unfold handleRegenerate_begin.
    destruct (last_message (findMany c (db w))) as [x|];
      [destruct ((List.length (findMany c (db w)) <? 2)%nat
                 || negb (is_assistant (role x)))|];
      unfold started; cbn [trace]; rewrite skipn_length_app; cbn.
    + intros [].
    + intros [<-|[]]. reflexivity.
    + intros [].
Qed.

Section CancelReach.

Variable parseTitle : string -> option string.

Lemma run_replies_keep_session (inputs : list (Env * Event)) :
  forall w : World,
    forallb is_reply inputs = true ->
    session (run parseTitle w inputs) = session w.
Proof.
  induction inputs as [|[env [m|task_id r]] inputs IH]; intros w H;
    try discriminate; [reflexivity|].
  cbn [forallb] in H. apply andb_prop in H as [_ H].
  simpl. fold (run parseTitle). rewrite (IH _ H).
  change (step parseTitle w (env, reply task_id r))
    with (deliver parseTitle env w task_id r).
  unfold deliver. destruct (nth_error (tasks w) task_id); [|reflexivity].
  now destruct (resume parseTitle env t r).
Qed.

(** X10. A cancel frame reaches the generation started by the most recent
    generation command: the signal carried by the completion request of
    that command is not aborted while only provider replies arrive, and
    it is aborted once a [chat.stream.cancel] frame has been handled. *)
Theorem cancel_aborts_signal_of_latest_generation
  (w : World) (env env' : Env) (m : WebSocketClientMessage)
  (inputs : list (Env * Event)) (eventId conversationId : string)
  (req : CompletionRequest) :
  starts_generation m = true ->
  forallb is_reply inputs = true ->
  In req (provider_calls (emitted w (webSocketMessage env w m))) ->
  let w2 := run parseTitle (webSocketMessage env w m) inputs in
  let w3 :=
    webSocketMessage env' w2 (chat_stream_cancel eventId conversationId) in
  exists k,
    req_signal req = Some k
    /\ aborted (session w2) k = false
    /\ aborted (session w3) k = true.
Proof.
  intros G Hreplies Hreq. cbv zeta.
  exists (List.length (controllers (session w))).
  split; [now apply (begin_requests_carry_new_signal w env m)|].
  rewrite (run_replies_keep_session _ _ Hreplies).
  cbn [webSocketMessage session].
  rewrite (run_replies_keep_session _ _ Hreplies).
  destruct (generation_frame w env m G) as [-> _].
  unfold aborted. cbn. split.
  - rewrite app_nth2 by lia. now rewrite Nat.sub_diag.
  - apply nth_set_nth_eq. rewrite length_app. simpl. lia.
Qed.

(** X11. A generation that a newer generation command has superseded can
    no longer be cancelled: whatever frames and provider replies follow
    the newer command, the token that was current before it keeps the
    aborted status it had. *)
Theorem superseded_generation_cannot_be_cancelled
  (w : World) (env : Env) (m : WebSocketClientMessage)
  (inputs : list (Env * Event)) :
  well_formed (session w) ->
  starts_generation m = true ->
  aborted (session (run parseTitle (webSocketMessage env w m) inputs))
    (abortController (session w))
  = aborted (session w) (abortController (session w)).
Proof.
  intros Hwf G.
  destruct (generation_frame w env m G) as [Hs _].
  rewrite (superseded_token_never_aborted parseTitle).
  - rewrite Hs. unfold aborted. cbn. now apply app_nth1.
  - rewrite Hs. apply new_AbortController_well_formed.
  - rewrite Hs. exact Hwf.
Qed.


End CancelReach.




(** ** The keys of the accumulator *)

Module KeyFacts.

Import ToolCallMap.

Lemma keys_set (k : Z) (v : ToolCall) (m : t) :
  map fst (set k v m)
  = if existsb (Z.eqb k) (map fst m) then map fst m else map fst m ++ [k].
Proof.
  induction m as [|[j x] m IH]; [reflexivity|].
  simpl. rewrite (Z.eqb_sym k j).
  destruct (Z.eqb_spec j k) as [->|Hjk]; simpl; [reflexivity|].
  rewrite IH. now destruct (existsb (Z.eqb k) (map fst m)).
Qed.

Lemma In_set (k : Z) (v : ToolCall) (m : t) (i : Z) (e : ToolCall) :
  In (i, e) (set k v m) -> (i = k /\ e = v) \/ In (i, e) m.
Proof.
  induction m as [|[j x] m IH]; simpl.
  - intros [[= <- <-]|[]]. now left.
  - destruct (Z.eqb_spec j k) as [->|Hjk]; simpl.
    + intros [[= <- <-]|H]; [now left | right; now right].
    + intros [H|H]; [right; now left|].
      destruct (IH H) as [H'|H']; [now left | right; now right].
Qed.

Lemma get_In (k : Z) (e : ToolCall) (m : t) :
  get k m = Some e -> In (k, e) m.
Proof.
  induction m as [|[j x] m IH]; simpl; [discriminate|].
  destruct (Z.eqb_spec j k) as [->|Hjk].
  - intros [= ->]. now left.
  - intros H. right. now apply IH.
Qed.

Lemma head_set (k : Z) (v : ToolCall) (j : Z) (x : ToolCall) (m : t) :
  exists y rest, set k v ((j, x) :: m) = (j, y) :: rest.
Proof. simpl. destruct (Z.eqb_spec j k) as [->|]; eauto. Qed.

End KeyFacts.

Lemma fill_in_index (e f : ToolCall) : tc_index (fill_in e f) = tc_index e.
Proof.
  unfold fill_in.
  destruct (Js.truthy (function_name f)), (Js.truthy (function_arguments f)),
    (Js.truthy (tc_id f)), (Js.truthy (tc_type f)); reflexivity.
Qed.

Lemma keys_mergeToolCall (m : ToolCallMap.t) (f : ToolCall) :
  map fst (mergeToolCall m f)
  = if existsb (Z.eqb (tc_index f)) (map fst m) then map fst m
    else map fst m ++ [tc_index f].
Proof.
  unfold mergeToolCall.
  destruct (ToolCallMap.get (tc_index f) m); apply KeyFacts.keys_set.
Qed.

Lemma indexed_mergeToolCall (m : ToolCallMap.t) (f : ToolCall) :
  (forall i e, In (i, e) m -> tc_index e = i) ->
  forall i e, In (i, e) (mergeToolCall m f) -> tc_index e = i.
Proof.
  intros Hm i e. unfold mergeToolCall.
  destruct (ToolCallMap.get (tc_index f) m) as [x|] eqn:G;
    intros [[-> ->]|H]%KeyFacts.In_set; try (now apply Hm).
  - rewrite fill_in_index. apply Hm. now apply KeyFacts.get_In.
  - reflexivity.
Qed.

Lemma accumulate_from (fs : list ToolCall) :
  forall m : ToolCallMap.t,
    NoDup (map fst m) ->
    (forall i e, In (i, e) m -> tc_index e = i) ->
    let m' := fold_left mergeToolCall fs m in
    NoDup (map fst m')
    /\ (forall i, In i (map fst m')
                  <-> In i (map fst m) \/ In i (map tc_index fs))
    /\ (forall i e, In (i, e) m' -> tc_index e = i).
Proof.
  induction fs as [|f fs IH]; intros m Hnd Hidx; cbv zeta.
  - simpl. repeat split; auto. intros [H|[]]. exact H.
  - cbn [fold_left map].
    assert (Hk := keys_mergeToolCall m f).
    assert (Hnd' : NoDup (map fst (mergeToolCall m f))).
    { rewrite Hk. destruct (existsb _ _) eqn:E; [exact Hnd|].
      apply NoDup_app; [exact Hnd | repeat constructor; intros [] |].
      intros x Hx [<-|[]].
      assert (existsb (Z.eqb (tc_index f)) (map fst m) = true)
        by (apply existsb_exists; exists (tc_index f);
            split; [exact Hx | apply Z.eqb_refl]).
      congruence. }
    destruct (IH _ Hnd' (indexed_mergeToolCall m f Hidx)) as (I1 & I2 & I3).
    split; [exact I1|]. split; [|exact I3].
    intros i. rewrite I2, Hk. destruct (existsb _ _) eqn:E.
    + apply existsb_exists in E as (x & Hx & Hxe).
      apply Z.eqb_eq in Hxe. subst x. simpl. intuition (subst; auto).
    + rewrite in_app_iff. simpl. intuition (subst; auto).
Qed.

(** X12. The accumulated map has exactly one entry for each index that
    some fragment carried, and none else; the [index] field of an entry is
    the index it is stored under; and its first entry, the one whose name
    and arguments the interim [chat.stream.done] frames carry, is that of
    the index of the first fragment received, whatever the indices of the
    fragments that follow. *)
Theorem accumulator_keys_are_the_indices_seen (fs : list ToolCall) :
  NoDup (map fst (accumulate fs))
  /\ (forall i, In i (map fst (accumulate fs)) <-> In i (map tc_index fs))
  /\ (forall i e, In (i, e) (accumulate fs) -> tc_index e = i)
  /\ match fs with
     | f :: _ =>
         ToolCallMap.first (accumulate fs)
         = ToolCallMap.get (tc_index f) (accumulate fs)
         /\ ToolCallMap.first (accumulate fs) <> None
     | [] => accumulate fs = []
     end.
Proof.
  destruct (accumulate_from fs ToolCallMap.empty) as (H1 & H2 & H3).
  { constructor. }
  { intros i e []. }
  split; [exact H1|]. split; [|split; [exact H3|]].
  - intros i. rewrite (H2 i). simpl. tauto.
  - destruct fs as [|f fs]; [reflexivity|].
    unfold accumulate. cbn [fold_left].
    change (mergeToolCall ToolCallMap.empty f) with [(tc_index f, seed f)].
    assert (Hhead : forall gs j x m,
               exists y rest,
                 fold_left mergeToolCall gs ((j, x) :: m) = (j, y) :: rest).
    { induction gs as [|g gs IH]; intros j x m; [simpl; eauto|].
      cbn [fold_left]. unfold mergeToolCall at 2.
      destruct (ToolCallMap.get (tc_index g) ((j, x) :: m));
        match goal with
        | |- context [ToolCallMap.set ?k ?v ((j, x) :: m)] =>
            destruct (KeyFacts.head_set k v j x m) as (y & rest & ->)
        end; apply IH. }
    destruct (Hhead fs (tc_index f) (seed f) []) as (y & rest & ->).
    simpl. rewrite Z.eqb_refl. split; [reflexivity | discriminate].
Qed.

(** ** The order of text *)

Lemma ascii_compare_N (a b : Ascii.ascii) :
  Ascii.compare a b = N.compare (Ascii.N_of_ascii a) (Ascii.N_of_ascii b).
Proof. reflexivity. Qed.

Lemma string_leb_trans (a b c : string) :
  (a <=? b)%string = true -> (b <=? c)%string = true ->
  (a <=? c)%string = true.
Proof.
  unfold String.leb. revert b c.
  induction a as [|x a IH]; intros [|y b] [|z c]; simpl; try easy.
  specialize (IH b c).
  rewrite !ascii_compare_N.
  destruct (N.compare_spec (Ascii.N_of_ascii x) (Ascii.N_of_ascii y)) as [E|L|G];
    destruct (N.compare_spec (Ascii.N_of_ascii y) (Ascii.N_of_ascii z))
      as [E'|L'|G'];
    destruct (N.compare_spec (Ascii.N_of_ascii x) (Ascii.N_of_ascii z))
      as [E''|L''|G'']; try easy; try lia; auto.
Qed.

(** ** The RPC methods *)

Lemma find_filter_implied {A : Type} (p q : A -> bool) (l : list A) :
  (forall x, p x = true -> q x = true) ->
  find p (filter q l) = find p l.
Proof.
  intros H. induction l as [|x l IH]; [reflexivity|].
  simpl. destruct (q x) eqn:Q; simpl.
  - now rewrite IH.
  - destruct (p x) eqn:P; [|exact IH].
    apply H in P. congruence.
Qed.

Lemma filter_filter_implied {A : Type} (p q : A -> bool) (l : list A) :
  (forall x, p x = true -> q x = true) ->
  filter p (filter q l) = filter p l.
Proof.
  intros H. induction l as [|x l IH]; [reflexivity|].
  simpl. destruct (q x) eqn:Q; simpl.
  - now rewrite IH.
  - destruct (p x) eqn:P; [|exact IH].
    apply H in P. congruence.
Qed.

Lemma filter_excluded {A : Type} (p : A -> bool) (l : list A) :
  filter p (filter (fun x => negb (p x)) l) = [].
Proof.
  induction l as [|x l IH]; [reflexivity|].
  simpl. destruct (p x) eqn:P; simpl; [exact IH|].
  now rewrite P.
Qed.

Lemma find_excluded {A : Type} (p : A -> bool) (l : list A) :
  find p (filter (fun x => negb (p x)) l) = None.
Proof.
  induction l as [|x l IH]; [reflexivity|].
  simpl. destruct (p x) eqn:P; simpl; [exact IH|].
  now rewrite P.
Qed.

Lemma find_update_where_other {A : Type} (p q : A -> bool) (f : A -> A)
  (l : list A) :
  (forall x, q x = true -> p (f x) = p x) ->
  (forall x, q x = true -> p x = false) ->
  find p (update_where q f l) = find p l.
Proof.
  intros Hf Hq. induction l as [|x l IH]; [reflexivity|].
  simpl. destruct (q x) eqn:Q.
  - rewrite (Hf x Q), (Hq x Q). exact IH.
  - destruct (p x); [reflexivity | exact IH].
Qed.

Lemma find_snoc {A : Type} (p : A -> bool) (l : list A) (x : A) :
  find p (l ++ [x])
  = match find p l with
    | Some y => Some y
    | None => if p x then Some x else None
    end.
Proof.
  induction l as [|y l IH]; [reflexivity|].
  simpl. destruct (p y); [reflexivity | exact IH].
Qed.

Lemma string_eqb_other (a b c : string) :
  b <> c -> (a =? b)%string = true -> (a =? c)%string = false.
Proof.
  intros Hbc ->%String.eqb_eq. now apply String.eqb_neq.
Qed.

(** X13. [createConversation], given a fresh identifier, adds one
    conversation and returns it: untitled, unpinned, found under its
    identifier and listed; every other conversation is found as before
    and no message is touched. *)
Theorem createConversation_adds_untitled_conversation
  (env : Env) (d : Database) :
  findFirst (randomUUID env) d = None ->
  let d' := fst (createConversation env d) in
  let c := snd (createConversation env d) in
  conversation_id c = randomUUID env
  /\ title c = None
  /\ pinned c = false
  /\ findFirst (conversation_id c) d' = Some c
  /\ (forall other,
        other <> conversation_id c -> findFirst other d' = findFirst other d)
  /\ (forall conversationId,
        listMessages conversationId d' = listMessages conversationId d)
  /\ List.length (conversations d') = S (List.length (conversations d)).
Proof.
  intros Hfresh. cbv zeta. cbn [createConversation fst snd conversation_id
    title pinned].
  repeat split.
  - unfold findFirst in *. cbn [conversations]. rewrite find_snoc, Hfresh.
    cbn. now rewrite String.eqb_refl.
  - intros other Hother. unfold findFirst. cbn [conversations].
    rewrite find_snoc. destruct (find _ (conversations d)); [reflexivity|].
    cbn. apply String.eqb_neq in Hother. rewrite String.eqb_sym in Hother.
    now rewrite Hother.
  - cbn [conversations]. rewrite length_app. simpl. lia.
Qed.

(** X14. [deleteConversation] removes the conversation and all its
    messages: afterwards it is not found and its history is empty, while
    every other conversation and every other history is as before. *)
Theorem deleteConversation_removes_conversation_and_history
  (conversationId : string) (d : Database) :
  let d' := deleteConversation conversationId d in
  findFirst conversationId d' = None
  /\ listMessages conversationId d' = []
  /\ (forall other,
        other <> conversationId ->
        findFirst other d' = findFirst other d
        /\ listMessages other d' = listMessages other d).
Proof.
  cbv zeta. unfold findFirst, listMessages, findMany, deleteConversation.
  cbn [conversations messages].
  split; [apply (find_excluded
                   (fun c => (conversation_id c =? conversationId)%string))|].
  split.
  { now rewrite (filter_excluded
                   (fun m =>
                      (message_conversation_id m =? conversationId)%string)). }
  intros other Hother. split.
  - apply find_filter_implied. intros x Hx.
    now rewrite (string_eqb_other _ _ _ Hother Hx).
  - f_equal. apply filter_filter_implied. intros x Hx.
    now rewrite (string_eqb_other _ _ _ Hother Hx).
Qed.

(** X15. [renameConversation] sets the title of the conversation and
    nothing else: its other columns, [updated_at] among them, the other
    conversations and all messages are as before; for an identifier that
    is not in storage it changes nothing and reports nothing. *)
Theorem renameConversation_sets_title_only
  (conversationId title_ : string) (d : Database) :
  let d' := renameConversation conversationId title_ d in
  findFirst conversationId d'
  = option_map (set_title title_) (findFirst conversationId d)
  /\ (forall other,
        other <> conversationId -> findFirst other d' = findFirst other d)
  /\ messages d' = messages d
  /\ map conversation_updated_at (conversations d')
     = map conversation_updated_at (conversations d)
  /\ map pinned (conversations d') = map pinned (conversations d)
  /\ (findFirst conversationId d = None -> d' = d).
Proof.
  cbv zeta. unfold findFirst, renameConversation. cbn [conversations messages].
  split; [now apply find_update_where|].
  split.
  { intros other Hother. apply find_update_where_other.
    - reflexivity.
    - intros x Hx. apply String.eqb_eq in Hx. rewrite Hx.
      apply String.eqb_neq. congruence. }
  split; [reflexivity|].
  split; [|split].
  - unfold update_where. rewrite map_map. apply map_ext.
    intros c. now destruct (conversation_id c =? conversationId)%string.
  - unfold update_where. rewrite map_map. apply map_ext.
    intros c. now destruct (conversation_id c =? conversationId)%string.
  - intros Hnone. rewrite update_where_untouched; [now destruct d|].
    intros x Hx. exact (find_none _ _ Hnone x Hx).
Qed.

Lemma update_where_idem {A : Type} (p : A -> bool) (f g : A -> A)
  (l : list A) :
  (forall x, p (g x) = p x) ->
  (forall x, f (g x) = f x) ->
  update_where p f (update_where p g l) = update_where p f l.
Proof.
  intros Hp Hf. rewrite update_where_twice by exact Hp.
  unfold update_where. apply map_ext. intros x. now rewrite Hf.
Qed.

(** X16. [pinConversation] and [unpinConversation] change the [pinned]
    flag of the conversation and nothing else (not its [updated_at], no
    other conversation, no message).  The later of two of them decides:
    pinning twice is pinning once, unpinning after pinning is unpinning,
    and it restores the storage when the conversation was not pinned
    before. *)
Theorem pin_and_unpin_set_the_flag_only
  (conversationId : string) (d : Database) :
  findFirst conversationId (pinConversation conversationId d)
  = option_map (set_pinned true) (findFirst conversationId d)
  /\ findFirst conversationId (unpinConversation conversationId d)
     = option_map (set_pinned false) (findFirst conversationId d)
  /\ (forall other,
        other <> conversationId ->
        findFirst other (pinConversation conversationId d)
        = findFirst other d
        /\ findFirst other (unpinConversation conversationId d)
           = findFirst other d)
  /\ messages (pinConversation conversationId d) = messages d
  /\ messages (unpinConversation conversationId d) = messages d
  /\ pinConversation conversationId (pinConversation conversationId d)
     = pinConversation conversationId d
  /\ unpinConversation conversationId (pinConversation conversationId d)
     = unpinConversation conversationId d
  /\ pinConversation conversationId (unpinConversation conversationId d)
     = pinConversation conversationId d
  /\ ((forall c,
         In c (conversations d) ->
         conversation_id c = conversationId -> pinned c = false) ->
      unpinConversation conversationId (pinConversation conversationId d) = d).
Proof.
  unfold findFirst, pinConversation, unpinConversation.
  cbn [conversations messages].
  split; [now apply find_update_where|].
  split; [now apply find_update_where|].
  split.
  { intros other Hother.
    split; apply find_update_where_other; try reflexivity;
      intros x Hx; apply String.eqb_eq in Hx; rewrite Hx;
      apply String.eqb_neq; congruence. }
  split; [reflexivity|]. split; [reflexivity|].
  split; [now rewrite update_where_idem|].
  split; [now rewrite update_where_idem|].
  split; [now rewrite update_where_idem|].
  intros Hunpinned. rewrite update_where_idem by reflexivity.
  destruct d as [cs ms]. cbn [conversations messages] in *. f_equal.
  unfold update_where. rewrite <- (map_id cs) at 2. apply map_ext_in.
  intros c Hc. destruct (String.eqb_spec (conversation_id c) conversationId)
    as [E|]; [|reflexivity].
  pose proof (Hunpinned _ Hc E) as Hp.
  destruct c as [i u t pn ca ua]. cbn in Hp |- *. now subst pn.
Qed.

(** ** The order of [listConversations] *)

Lemma listed_before_total (a b : Conversation) :
  listed_before a b = true \/ listed_before b a = true.
Proof.
  unfold listed_before.
  destruct (pinned a), (pinned b); auto; apply String.leb_total.
Qed.

Lemma listed_before_trans (a b c : Conversation) :
  listed_before a b = true -> listed_before b c = true ->
  listed_before a c = true.
Proof.
  unfold listed_before.
  destruct (pinned a), (pinned b), (pinned c); try easy;
    intros H1 H2; exact (string_leb_trans _ _ _ H2 H1).
Qed.

Lemma insert_listed_perm (c : Conversation) (l : list Conversation) :
  Permutation (insert_listed c l) (c :: l).
Proof.
  induction l as [|x l IH]; simpl; [reflexivity|].
  destruct (listed_before c x); [reflexivity|].
  rewrite IH. apply perm_swap.
Qed.

Lemma insert_listed_sorted (c : Conversation) (l : list Conversation) :
  StronglySorted (fun a b => listed_before a b = true) l ->
  StronglySorted (fun a b => listed_before a b = true) (insert_listed c l).
Proof.
  induction 1 as [|x l Hl IH Hx]; simpl; [repeat constructor|].
  destruct (listed_before c x) eqn:E.
  - constructor; [now constructor|].
    constructor; [exact E|].
    rewrite Forall_forall in *. intros y Hy.
    exact (listed_before_trans _ _ _ E (Hx y Hy)).
  - constructor; [exact IH|].
    rewrite Forall_forall in *. intros y Hy.
    apply (Permutation_in _ (insert_listed_perm c l)) in Hy as [<-|Hy].
    + destruct (listed_before_total c x); congruence.
    + now apply Hx.
Qed.

Lemma insert_listed_map (g : Conversation -> Conversation) (c : Conversation)
  (l : list Conversation) :
  (forall a b, listed_before (g a) (g b) = listed_before a b) ->
  insert_listed (g c) (map g l) = map g (insert_listed c l).
Proof.
  intros Hg. induction l as [|x l IH]; [reflexivity|].
  simpl. rewrite Hg. destruct (listed_before c x); [reflexivity|].
  simpl. now rewrite IH.
Qed.

(** X17. [listConversations] returns every conversation of the storage
    exactly once, pinned ones before unpinned ones and, among
    conversations of the same pinned status, by [updated_at] from the
    latest to the earliest. *)
Theorem listConversations_pinned_first_then_latest (d : Database) :
  Permutation (listConversations d) (conversations d)
  /\ StronglySorted (fun a b => listed_before a b = true)
       (listConversations d)
  /\ (forall l1 a l2 b,
        listConversations d = l1 ++ a :: l2 ->
        In b l2 ->
        (pinned b = true -> pinned a = true)
        /\ (pinned a = pinned b ->
            (conversation_updated_at b <=? conversation_updated_at a)%string
            = true)).
Proof.
  assert (Hperm : Permutation (listConversations d) (conversations d)).
  { unfold listConversations.
    induction (conversations d) as [|c l IH]; simpl; [reflexivity|].
    rewrite insert_listed_perm. now constructor. }
  assert (Hsorted : StronglySorted (fun a b => listed_before a b = true)
                      (listConversations d)).
  { clear Hperm. unfold listConversations.
    induction (conversations d) as [|c l IH]; simpl; [constructor|].
    now apply insert_listed_sorted. }
  split; [exact Hperm|]. split; [exact Hsorted|].
  intros l1 a l2 b Hsplit Hb. rewrite Hsplit in Hsorted.
  assert (Hab : listed_before a b = true).
  { clear -Hsorted Hb. induction l1 as [|x l1 IH]; simpl in Hsorted.
    - apply StronglySorted_inv in Hsorted as [_ H].
      rewrite Forall_forall in H. now apply H.
    - apply StronglySorted_inv in Hsorted as [H _]. now apply IH. }
  unfold listed_before in Hab.
  destruct (pinned a), (pinned b); try discriminate; split; auto;
    discriminate.
Qed.

(** X18. Renaming, pinning and unpinning do not bump [updated_at];
    renaming therefore leaves the order of [listConversations] as it was:
    the list after a rename is the list before it with the title of that
    conversation replaced. *)
Theorem renameConversation_keeps_list_order
  (conversationId title_ : string) (d : Database) :
  listConversations (renameConversation conversationId title_ d)
  = update_where (fun c => (conversation_id c =? conversationId)%string)
      (set_title title_) (listConversations d)
  /\ map conversation_updated_at
       (conversations (pinConversation conversationId d))
     = map conversation_updated_at (conversations d)
  /\ map conversation_updated_at
       (conversations (unpinConversation conversationId d))
     = map conversation_updated_at (conversations d).
Proof.
  split; [|split].
  - unfold listConversations, renameConversation. cbn [conversations].
    unfold update_where.
    set (g := fun x : Conversation =>
                if (conversation_id x =? conversationId)%string
                then set_title title_ x else x).
    induction (conversations d) as [|c l IH]; [reflexivity|].
    cbn [map fold_right]. rewrite IH. apply (insert_listed_map g).
    intros a b. unfold listed_before, g.
    now destruct (conversation_id a =? conversationId)%string,
      (conversation_id b =? conversationId)%string.
  - unfold pinConversation, update_where. cbn [conversations].
    rewrite map_map. apply map_ext.
    intros c. now destruct (conversation_id c =? conversationId)%string.
  - unfold unpinConversation, update_where. cbn [conversations].
    rewrite map_map. apply map_ext.
    intros c. now destruct (conversation_id c =? conversationId)%string.
Qed.

(** ** The order of listMessages *)

Lemma insert_by_created_at_sorted (m : Message) (l : list Message) :
  StronglySorted
    (fun a b => (message_created_at a <=? message_created_at b)%string = true)
    l ->
  StronglySorted
    (fun a b => (message_created_at a <=? message_created_at b)%string = true)
    (insert_by_created_at m l).
Proof.
  induction 1 as [|x l Hl IH Hx]; cbn [insert_by_created_at];
    [repeat constructor|].
  destruct (message_created_at m <=? message_created_at x)%string eqn:E.
  - constructor; [now constructor|].
    constructor; [exact E|].
    rewrite Forall_forall in *. intros y Hy.
    exact (string_leb_trans _ _ _ E (Hx y Hy)).
  - constructor; [exact IH|].
    rewrite Forall_forall in *. intros y Hy.
    apply (Permutation_in _ (insert_by_created_at_perm m l)) in Hy as [<-|Hy].
    + destruct (String.leb_total (message_created_at m)
                  (message_created_at x)); congruence.
    + now apply Hx.
Qed.

(** X29. [listMessages] returns the messages of the conversation, each
    once and no other, by ascending [created_at] (compared byte by byte):
    a message is never listed after one created later than it, whatever
    the order in which the rows were inserted. *)
Theorem listMessages_ascending_created_at
  (conversationId : string) (d : Database) :
  Permutation (listMessages conversationId d)
    (filter (fun m => (message_conversation_id m =? conversationId)%string)
       (messages d))
  /\ StronglySorted
       (fun a b =>
          (message_created_at a <=? message_created_at b)%string = true)
       (listMessages conversationId d)
  /\ (forall l1 a l2 b,
        listMessages conversationId d = l1 ++ a :: l2 ->
        In b l2 ->
        (message_created_at b <? message_created_at a)%string = false).
Proof.
  assert (Hsorted :
            StronglySorted
              (fun a b =>
                 (message_created_at a <=? message_created_at b)%string = true)
              (listMessages conversationId d)).
  { unfold listMessages, findMany, order_by_created_at.
    induction (filter _ (messages d)) as [|x l IH]; [constructor|].
    cbn [fold_right]. now apply insert_by_created_at_sorted. }
  split; [apply order_by_created_at_perm|]. split; [exact Hsorted|].
  intros l1 a l2 b Heq Hb. rewrite Heq in Hsorted.
  clear Heq. induction l1 as [|x l1 IH].
  - inversion Hsorted as [|? ? _ Hall]; subst.
    rewrite Forall_forall in Hall. specialize (Hall b Hb).
    unfold String.leb in Hall. unfold String.ltb.
    rewrite String.compare_antisym.
    now destruct (String.compare (message_created_at a)
                    (message_created_at b)).
  - inversion Hsorted; subst. now apply IH.
Qed.

(** ** The history after a create-generation *)

Section CompletedCreate.

Variable parseTitle : string -> option string.

Variables (w : World) (env0 env1 : Env).
Variables (eventId conversationId text model : string).
Variable tools : list ChatCompletionTool.
Variable chunks : list Chunk.
Variables fin title_reply : Reply.
Variable conversation : Conversation.

Hypothesis conversation_found :
  findFirst conversationId (db w) = Some conversation.
Hypothesis chunks_have_choice : forallb has_choice chunks = true.
Hypothesis loop_left : ends_stream fin = true.

Let w' : World :=
  generation parseTitle w env0
    (chat_stream_create eventId conversationId text model tools)
    env1 (stream_replies chunks fin ++ [title_reply]).

Lemma completed_generation_messages :
  messages (db w')
  = messages (db w)
    ++ [user_row env0 conversationId text;
        assistant_row env1 conversationId (text_of (deltas chunks))].
Proof.
  unfold w', generation, webSocketMessage.
  rewrite (handleChat_begin_found _ _ _ _ _ _ _ _ conversation_found).
  unfold started.
  erewrite run_replies by (simpl; apply nth_error_app_length).
  unfold stream_replies. cbn [app resume_all resume].
  rewrite <- app_assoc, resume_all_app,
    (resume_all_chat_chunks _ _ _ _ _ _ chunks_have_choice).
  cbv zeta. cbn [chat_eventId chat_conversationId].
  pose proof (chat_stream_only_frames eventId conversationId (deltas chunks)
                "" ToolCallMap.empty) as Hof.
  pose proof (chat_stream_response_eq eventId conversationId (deltas chunks)
                "" ToolCallMap.empty) as Hresp.
  destruct (chat_stream eventId conversationId "" ToolCallMap.empty
              (deltas chunks)) as [[es_s r] m].
  cbn [fst snd app resume_all] in *. cbn [append] in Hresp. subst r.
  rewrite (resume_ends_stream _ _ _ _ _ _ loop_left).
  match goal with
  | |- context [chat_finish env1 ?l0 ?r0] =>
      pose proof (title_step parseTitle env1 l0 r0 title_reply) as Ht;
      set (fn := chat_finish env1 l0 r0) in *;
      assert (Hfn : exists q,
                 fst fn
                 = [ws_send (chat_stream_done eventId conversationId None);
                    db_insert_message (assistant_row env1 conversationId r0);
                    db_update_conversation_updated_at conversationId
                      (now env1)] ++ q
                 /\ inserted_rows q = []
                 /\ forallb (fun e => negb (is_content_update e)) q = true)
        by (unfold fn, chat_finish; cbn [chat_conversation chat_eventId
              chat_conversationId];
            destruct (title conversation);
            [exists []; now rewrite app_nil_r | eexists; now split])
  end.
  cbv zeta in Ht. destruct Hfn as (q & Hfn & Hq1 & Hq2).
  destruct fn as [es_f t_f]. cbn [fst snd] in *. subst es_f.
  destruct (resume parseTitle env1 t_f title_reply) as [es_t t_t].
  cbn [fst snd db] in *. rewrite app_nil_r.
  destruct (only_frames_rows _ Hof) as (Hrows & Hcu).
  assert (Ht' : inserted_rows es_t = []
                /\ forallb (fun e => negb (is_content_update e)) es_t = true).
  { destruct Ht as [->|(t & _ & _ & _ & ->)]; now split. }
  destruct Ht' as [Ht1 Ht2].
  rewrite <- apply_effects_app, messages_apply_effects.
  - rewrite !inserted_rows_app, Hrows, Hq1, Ht1. reflexivity.
  - rewrite !forallb_app, Hcu, Hq2, Ht2. reflexivity.
Qed.

(** X19. After a create-generation that reaches the end of its stream
    loop, [listMessages] of every other conversation is what it was.
    When the messages stored for the conversation were all created before
    the user row of the turn, and the user row before the assistant row
    (the clock has moved forward between the two inserts), [listMessages]
    of the conversation is what it was followed by the user message and
    the assistant message of the turn, in that order. *)
Theorem completed_generation_extends_history :
  (forall m,
      In m (listMessages conversationId (db w)) ->
      (message_created_at m <? now env0)%string = true) ->
  (now env0 <? now env1)%string = true ->
  listMessages conversationId (db w')
  = listMessages conversationId (db w)
    ++ [user_row env0 conversationId text;
        assistant_row env1 conversationId (text_of (deltas chunks))]
  /\ (forall other,
        other <> conversationId ->
        listMessages other (db w') = listMessages other (db w)).
Proof.
  intros Hearlier Hclock.
  unfold listMessages, findMany in *. rewrite completed_generation_messages.
  split.
  - rewrite filter_app. cbn [filter message_conversation_id user_row
      assistant_row]. rewrite String.eqb_refl.
    set (stored := filter _ (messages (db w))) in *.
    change (stored ++ [?u; ?a]) with (stored ++ [u] ++ [a]).
    rewrite app_assoc, order_by_created_at_last.
    + rewrite order_by_created_at_last, <- app_assoc; [reflexivity|].
      intros x Hx. apply string_ltb_leb, Hearlier.
      now apply (Permutation_in _
                   (Permutation_sym (order_by_created_at_perm _))).
    + intros x [Hx|[<-|[]]]%in_app_or.
      * apply string_leb_trans with (b := now env0).
        -- apply string_ltb_leb, Hearlier.
           now apply (Permutation_in _
                        (Permutation_sym (order_by_created_at_perm _))).
        -- now apply string_ltb_leb.
      * now apply string_ltb_leb.
  - intros other Hother. rewrite filter_app. cbn.
    apply String.eqb_neq in Hother. rewrite String.eqb_sym in Hother.
    rewrite Hother. now rewrite app_nil_r.
Qed.

End CompletedCreate.

(** ** RPC methods that arrive during a generation *)

Section DuringGeneration.

Variable parseTitle : string -> option string.

(** X20. When a conversation is deleted while a create-generation on it
    is streaming, the generation still completes as if nothing had
    happened: at the end of the stream it sends its [chat.stream.done]
    frame, no error frame, and inserts its assistant row, which is then
    the only message of a conversation that no longer exists. *)
Theorem deleted_conversation_still_receives_assistant_turn
  (env : Env) (w : World) (task_id : nat) (l : ChatLocals)
  (response : string) (m : ToolCallMap.t) (fin : Reply) :
  nth_error (tasks w) task_id = Some (chat_streaming l response m) ->
  ends_stream fin = true ->
  let conversationId := chat_conversationId l in
  let w1 := rpc (deleteConversation conversationId) w in
  let w2 := deliver parseTitle env w1 task_id fin in
  findFirst conversationId (db w2) = None
  /\ listMessages conversationId (db w2)
     = [assistant_row env conversationId response]
  /\ In (chat_stream_done (chat_eventId l) conversationId None)
       (sent (emitted w1 w2))
  /\ filter is_error (sent (emitted w1 w2)) = [].
Proof.
  intros Htask Hfin. cbv zeta. unfold deliver, rpc. cbn [tasks].
  rewrite Htask, (resume_ends_stream _ _ _ _ _ _ Hfin).
  unfold chat_finish, emitted.
  destruct (title (chat_conversation l)); cbn [db trace];
    rewrite skipn_length_app; unfold apply_effects, findFirst, listMessages,
      findMany; cbn; rewrite filter_app; cbn; rewrite String.eqb_refl;
    (split; [|split; [|split; [now left | reflexivity]]]).
  all: try (rewrite (filter_excluded
              (fun x => (message_conversation_id x
                         =? chat_conversationId l)%string));
            reflexivity).
  all: change (map ?g ?cs)
         with (update_where
                 (fun c => (conversation_id c =? chat_conversationId l)%string)
                 (set_updated_at (now env)) cs);
       rewrite find_update_where by reflexivity;
       now rewrite (find_excluded
                      (fun c => (conversation_id c
                                 =? chat_conversationId l)%string)).
Qed.

(** X21. When an untitled conversation is renamed while its first
    create-generation is streaming, the generation still requests a
    title, and a title completion that yields a non-empty title replaces
    the name just given. *)
Theorem rename_during_first_generation_is_overwritten
  (env : Env) (w : World) (task_id : nat) (l : ChatLocals)
  (response : string) (m : ToolCallMap.t) (fin : Reply)
  (given : string) (message_content : option string) (parsedTitle : string)
  (conversation : Conversation) :
  nth_error (tasks w) task_id = Some (chat_streaming l response m) ->
  title (chat_conversation l) = None ->
  findFirst (chat_conversationId l) (db w) = Some conversation ->
  ends_stream fin = true ->
  parseTitle (Js.or_else message_content "{}") = Some parsedTitle ->
  parsedTitle <> ""%string ->
  let conversationId := chat_conversationId l in
  let w1 := rpc (renameConversation conversationId given) w in
  let w2 :=
    run parseTitle w1
      [(env, reply task_id fin);
       (env, reply task_id (resolved_completion message_content))] in
  (exists c,
      findFirst conversationId (db w1) = Some c /\ title c = Some given)
  /\ (exists c,
        findFirst conversationId (db w2) = Some c
        /\ title c = Some parsedTitle)
  /\ List.length (title_attempts (emitted w1 w2)) = 1.
Proof.
  intros Htask Hnone Hfind Hfin Hparse Hne. cbv zeta.
  assert (Ht : Js.truthy (Some parsedTitle) = true).
  { simpl. now destruct (String.eqb_spec parsedTitle ""). }
  split.
  { exists (set_title given conversation). split; [|reflexivity].
    unfold rpc, renameConversation, findFirst. cbn [db conversations].
    rewrite find_update_where by reflexivity.
    unfold findFirst in Hfind. now rewrite Hfind. }
  change (run parseTitle ?x [(env, reply task_id ?a); (env, reply task_id ?b)])
    with (run parseTitle x
            (map (fun r => (env, reply task_id r)) [a; b])).
  erewrite run_replies by (unfold rpc; cbn [tasks]; exact Htask).
  cbn [resume_all]. rewrite (resume_ends_stream _ _ _ _ _ _ Hfin).
  unfold chat_finish. rewrite Hnone. cbn [resume]. unfold chat_title.
  rewrite Hparse, Ht. unfold emitted, rpc. cbn [db trace].
  rewrite skipn_length_app. split.
  - exists (set_title parsedTitle
              (set_updated_at (now env) (set_title given conversation))).
    split; [|reflexivity].
    unfold apply_effects, renameConversation, findFirst.
    cbn [fold_left apply_effect app conversations messages db].
    rewrite !find_update_where by reflexivity.
    unfold findFirst in Hfind. now rewrite Hfind.
  - reflexivity.
Qed.

(** X22. A conversation renamed before its first turn never has a title
    derived, even when it is renamed to the empty string: the
    create-generation that follows issues no title request and the given
    title stays. *)
Theorem rename_before_first_turn_suppresses_title
  (w : World) (env0 env1 : Env)
  (eventId conversationId text model given : string)
  (tools : list ChatCompletionTool) (chunks : list Chunk)
  (fin title_reply : Reply) (conversation : Conversation) :
  findFirst conversationId (db w) = Some conversation ->
  forallb has_choice chunks = true ->
  ends_stream fin = true ->
  let w1 := rpc (renameConversation conversationId given) w in
  let w' :=
    generation parseTitle w1 env0
      (chat_stream_create eventId conversationId text model tools)
      env1 (stream_replies chunks fin ++ [title_reply]) in
  title_attempts (emitted w1 w') = []
  /\ filter is_title_update (sent (emitted w1 w')) = []
  /\ (exists c,
        findFirst conversationId (db w') = Some c /\ title c = Some given).
Proof.
  intros Hfind Hchunks Hfin. cbv zeta.
  assert (Hfind' : findFirst conversationId
                     (db (rpc (renameConversation conversationId given) w))
                   = Some (set_title given conversation)).
  { unfold rpc, renameConversation, findFirst. cbn [db conversations].
    rewrite find_update_where by reflexivity.
    unfold findFirst in Hfind. now rewrite Hfind. }
  destruct (titled_generation parseTitle _ env0 env1 eventId conversationId
              text model tools chunks fin _ Hfind' Hchunks Hfin title_reply
              given eq_refl) as (_ & H2 & H3 & H4).
  now repeat split.
Qed.

End DuringGeneration.

(** ** Access tokens *)

Module AccessFacts.

Import Access.

Lemma append_inj (p a b : string) : (p ++ a = p ++ b)%string -> a = b.
Proof.
  induction p as [|c p IH]; simpl; [trivial|].
  intros [= H]. now apply IH.
Qed.

Lemma token_key_inj (a b : string) : token_key a = token_key b -> a = b.
Proof. apply append_inj. Qed.

Lemma truthy_text (s : option string) :
  Js.truthy s = true -> s = Some (Js.or_else s "") /\ Js.or_else s "" <> ""%string.
Proof.
  destruct s as [v|]; simpl; [|discriminate].
  destruct (String.eqb_spec v ""); [discriminate | now split].
Qed.

(** X23. The interceptor rejects a call as unauthenticated exactly when
    the call is for a method that is not public, carries a non-empty
    [authorization] header, and that header is not a registered token.
    A call without the header, or with an empty one, is therefore let
    through without any lookup, as are all calls of the public method. *)
Theorem interceptor_rejects_only_unregistered_headers
  (kv : KV) (method_name : string) (authorization : option string)
  (userCtx : UserContext) :
  (anonymousInterceptor kv method_name authorization userCtx
   = throws Unauthenticated "Unauthorized"
   <-> method_name <> "anonymousRegister"%string
       /\ exists accessToken,
            authorization = Some accessToken
            /\ accessToken <> ""%string
            /\ registered kv accessToken = false)
  /\ (method_name = "anonymousRegister"%string ->
      anonymousInterceptor kv method_name authorization userCtx
      = returns userCtx)
  /\ (method_name <> "anonymousRegister"%string ->
      Js.truthy authorization = false ->
      anonymousInterceptor kv method_name authorization (Some (Some ""%string))
      = returns (Some authorization)).
Proof.
  unfold anonymousInterceptor, PUBLIC_ROUTES, registered. cbn [existsb].
  rewrite orb_false_r.
  destruct (String.eqb_spec method_name "anonymousRegister") as [->|Hm].
  - split; [|split].
    + split; [discriminate | now intros [H _]].
    + reflexivity.
    + congruence.
  - split; [|split].
    + destruct (Js.truthy authorization) eqn:T; cbn [andb].
      * destruct (truthy_text _ T) as [Ha Hne].
        destruct (Js.truthy (kv (token_key (Js.or_else authorization ""))))
          eqn:R; cbn [negb].
        -- split.
           ++ destruct userCtx; discriminate.
           ++ intros [_ (t & Ht & _ & Hr)]. rewrite Ha in Ht.
              injection Ht as <-. congruence.
        -- split; [|reflexivity]. intros _. split; [exact Hm|].
           exists (Js.or_else authorization ""). now repeat split.
      * split.
        -- destruct userCtx; discriminate.
        -- intros [_ (t & -> & Hne & _)]. simpl in T.
           destruct (String.eqb_spec t ""); [contradiction | discriminate].
    + congruence.
    + intros _ ->. reflexivity.
Qed.

(** X24. Registration and authentication round trip: when
    [anonymousRegister] succeeds with a non-empty token, that token is
    registered, a call of a non-public method carrying it passes the
    interceptor with the token in its context, from which
    [getUserAccessToken] returns it, and the
    websocket entry point sends its holder to the Durable Object named by
    the token; the registration of every other token is as it was. *)
Theorem registered_token_authenticates
  (kv : KV) (accessToken method_name : string) :
  accessToken <> ""%string ->
  registered kv accessToken = false ->
  method_name <> "anonymousRegister"%string ->
  exists kv',
    anonymousRegister kv accessToken = returns (kv', accessToken)
    /\ registered kv' accessToken = true
    /\ (forall other,
          other <> accessToken -> registered kv' other = registered kv other)
    /\ anonymousInterceptor kv' method_name (Some accessToken) initial_context
       = returns (Some (Some accessToken))
    /\ getUserAccessToken (Some (Some accessToken)) = returns (Some accessToken)
    /\ fetch kv'
         (Access.mkRequest "GET" "/websocket" (Some "websocket"%string)
            (Some accessToken) None)
       = durable_object accessToken.
Proof.
  intros Hne Hnew Hm. unfold anonymousRegister. unfold registered in Hnew.
  rewrite Hnew. eexists. split; [reflexivity|].
  assert (Ht : Js.truthy (Some accessToken) = true).
  { simpl. now destruct (String.eqb_spec accessToken ""). }
  assert (Hor : Js.or_else (Some accessToken) "" = accessToken)
    by apply JsFacts.or_else_text.
  assert (Hreg : registered (put (token_key accessToken) accessToken kv)
                   accessToken = true).
  { unfold registered, put. now rewrite String.eqb_refl. }
  split; [exact Hreg|]. split; [|split; [|split]].
  - intros other Hother. unfold registered, put.
    destruct (String.eqb_spec (token_key other) (token_key accessToken))
      as [E|]; [|reflexivity].
    apply token_key_inj in E. contradiction.
  - unfold anonymousInterceptor, initial_context. rewrite Ht, Hor.
    unfold registered in Hreg. rewrite Hreg.
    unfold PUBLIC_ROUTES. cbn [existsb].
    now destruct (String.eqb_spec method_name "anonymousRegister").
  - reflexivity.
  - unfold fetch. cbn [method pathname upgrade accessToken_param].
    rewrite Ht, Hor. unfold registered in Hreg. rewrite Hreg. reflexivity.
Qed.

Lemma registered_token_authenticates_witness :
  "t-1"%string <> ""%string
  /\ registered empty_kv "t-1" = false
  /\ "listConversations"%string <> "anonymousRegister"%string
  /\ exists kv',
       anonymousRegister empty_kv "t-1" = returns (kv', "t-1"%string)
       /\ registered kv' "t-1" = true
       /\ (forall other,
             other <> "t-1"%string ->
             registered kv' other = registered empty_kv other)
       /\ anonymousInterceptor kv' "listConversations" (Some "t-1"%string)
            initial_context
          = returns (Some (Some "t-1"%string))
       /\ getUserAccessToken (Some (Some "t-1"%string))
          = returns (Some "t-1"%string)
       /\ fetch kv'
            (Access.mkRequest "GET" "/websocket" (Some "websocket"%string)
               (Some "t-1"%string) None)
          = durable_object "t-1".
Proof.
  assert (H : "t-1"%string <> ""%string) by discriminate.
  assert (H' : "listConversations"%string <> "anonymousRegister"%string)
    by discriminate.
  split; [exact H|]. split; [reflexivity|]. split; [exact H'|].
  exact (registered_token_authenticates empty_kv "t-1" "listConversations"
           H eq_refl H').
Defined.

(** X25. The entry point hands a request to a Durable Object exactly when
    it is a GET of /websocket with the header [Upgrade: websocket] and a
    registered, non-empty [accessToken] parameter; the object is the one
    named by that token.  Without the [Upgrade] header such a request is
    answered 400 whatever its token, and with the header but without a
    registered token it is answered 401. *)
Theorem websocket_reaches_object_only_with_registered_token
  (kv : KV) (request : Request) (name : string) :
  (fetch kv request = durable_object name
   <-> method request = "GET"%string
       /\ pathname request = "/websocket"%string
       /\ upgrade request = Some "websocket"%string
       /\ accessToken_param request = Some name
       /\ name <> ""%string
       /\ registered kv name = true)
  /\ (method request = "GET"%string ->
      pathname request = "/websocket"%string ->
      (upgrade request <> Some "websocket"%string ->
       fetch kv request = response 400 (Some "Expected Upgrade: websocket"%string) [])
      /\ (upgrade request = Some "websocket"%string ->
          (forall token,
              accessToken_param request = Some token ->
              token <> ""%string -> registered kv token = false) ->
          fetch kv request = response 401 (Some "Unauthorized"%string) [])).
Proof.
  unfold fetch, registered.
  destruct (String.eqb_spec (method request) "GET") as [Hm|Hm];
    destruct (String.eqb_spec (pathname request) "/websocket") as [Hp|Hp];
    cbn [andb].
  2-4: split; [split; [|now intros (? & ? & _)] | intros; contradiction];
       destruct ((method request =? "OPTIONS")%string
                 && Js.truthy (origin request)); discriminate.
  assert (Hup : forall u : option string,
             {u = Some "websocket"%string} + {u <> Some "websocket"%string}).
  { intros [v|]; [|right; discriminate].
    destruct (String.eqb_spec v "websocket") as [->|];
      [now left | right; congruence]. }
  destruct (Hup (upgrade request)) as [Hu|Hu].
  - rewrite Hu.
    destruct (Js.truthy (accessToken_param request)) eqn:T; cbn [negb].
    + destruct (truthy_text _ T) as [Ha Hne].
      destruct (Js.truthy
                  (kv (token_key (Js.or_else (accessToken_param request) ""))))
        eqn:R; cbn [negb].
      * split.
        -- split.
           ++ intros [= <-]. now repeat split.
           ++ intros (_ & _ & _ & Hn & _). rewrite Ha in Hn.
              now injection Hn as ->.
        -- intros _ _. split; [congruence|]. intros _ Hall.
           rewrite (Hall _ Ha Hne) in R. discriminate.
      * split.
        -- split; [discriminate|].
           intros (_ & _ & _ & Hn & _ & Hr). rewrite Ha in Hn.
           injection Hn as <-. congruence.
        -- intros _ _. split; [congruence | reflexivity].
    + split.
      * split; [discriminate|].
        intros (_ & _ & _ & Hn & Hne & _). rewrite Hn in T. simpl in T.
        destruct (String.eqb_spec name ""); [contradiction | discriminate].
      * intros _ _. split; [congruence | reflexivity].
  - assert (H400 : match upgrade request with
                   | Some "websocket"%string =>
                       if negb (Js.truthy (accessToken_param request))
                       then response 401 (Some "Unauthorized"%string) []
                       else
                         if negb
                              (Js.truthy
                                 (kv (token_key
                                        (Js.or_else (accessToken_param request)
                                           ""))))
                         then response 401 (Some "Unauthorized"%string) []
                         else durable_object
                                (Js.or_else (accessToken_param request) "")
                   | _ => response 400
                            (Some "Expected Upgrade: websocket"%string) []
                   end
                   = response 400 (Some "Expected Upgrade: websocket"%string)
                       []).
    { destruct (upgrade request) as [v|]; [|reflexivity].
      destruct (String.eqb_spec v "websocket") as [->|Hv]; [congruence|].
      clear -Hv.
      repeat match goal with
             | |- match ?x with _ => _ end = _ =>
                 destruct x; try reflexivity
             | |- (if ?x then _ else _) = _ =>
                 destruct x; try reflexivity
             end.
      all: now contradiction Hv. }
    rewrite H400. split.
    + split; [discriminate | intros (_ & _ & H & _); congruence].
    + intros _ _. split; [reflexivity | congruence].
Qed.

End AccessFacts.

(** ** streamTTS *)

Module SpeechFacts.

Import Speech.

Lemma split_spaces_nonempty (b : bool) (text : Text) :
  split_spaces b text <> [].
Proof.
  revert b. induction text as [|c text IH]; intros b; simpl; [discriminate|].
  destruct (is_space c).
  - destruct b; [apply IH | discriminate].
  - destruct (split_spaces false text); discriminate.
Qed.

(** A text has no word exactly when it is blank. *)
Lemma no_words_iff_blank (text : Text) :
  words text = [] <-> blank text = true.
Proof.
  unfold words, blank.
  assert (H : forall b,
             filter nonempty (split_spaces b text) = []
             <-> forallb is_space text = true).
  { induction text as [|c text IH]; intros b; simpl; [tauto|].
    destruct (is_space c) eqn:E; simpl.
    - destruct b; simpl; apply IH.
    - pose proof (split_spaces_nonempty false text) as Hne.
      destruct (split_spaces false text) as [|piece pieces]; [congruence|].
      simpl. split; discriminate. }
  apply H.
Qed.

Section Models.

Variable chunking : Text -> option (list Text).
Variable synthesize : nat -> Text -> option Audio.

(** X26. A text of fewer than 100 words is never sent to the chunking
    model: it is spoken whole, by one speech request whose prompt is the
    text unchanged, and a text without any word (empty or whitespace
    only) causes no request at all and yields nothing. *)
Theorem short_text_is_spoken_whole (text : Text) :
  List.length (words text) < 100 ->
  fst (streamTTS chunking synthesize text) = false
  /\ (words text = [] ->
      snd (streamTTS chunking synthesize text) = ([], []))
  /\ (words text <> [] ->
      snd (streamTTS chunking synthesize text)
      = ([text],
         match synthesize 0 text with Some audio => [audio] | None => [] end)).
Proof.
  intros Hshort. unfold streamTTS, TTS_SHORT_TEXT_WORD_THRESHOLD.
  apply Nat.ltb_lt in Hshort. rewrite Hshort. cbn [fst snd speak].
  split; [reflexivity|]. split.
  - intros Hnone. apply no_words_iff_blank in Hnone. now rewrite Hnone.
  - intros Hsome.
    destruct (blank text) eqn:B.
    + apply no_words_iff_blank in B. contradiction.
    + now destruct (synthesize 0 text).
Qed.


End Models.

End SpeechFacts.

(** ** Requests that are not for the websocket (src/index.ts) *)

Module CorsFacts.
Import Access.
Local Open Scope string_scope.

(** X28. A request that is not a GET of /websocket never reaches a
    Durable Object.  It is answered by the entry point itself exactly
    when it is an OPTIONS request with a non-empty [Origin] header, and
    then every [Access-Control-Allow-Origin] of the answer is that
    origin (the fallback "*" is never used there); every other request
    goes to the RPC handler, whose response is given the request's
    [Origin], even an empty one, and "*" only when the header is
    absent. *)
Theorem other_requests_get_their_origin_allowed
  (kv : KV) (request : Request) :
  (method request =? "GET") && (pathname request =? "/websocket") = false ->
  (forall name, fetch kv request <> durable_object name)
  /\ (forall status body headers,
        fetch kv request = response status body headers ->
        status = 200 /\ body = None
        /\ method request = "OPTIONS"
        /\ exists o,
             origin request = Some o /\ o <> ""
             /\ In ("Access-Control-Allow-Origin", o) headers
             /\ (forall v,
                   In ("Access-Control-Allow-Origin", v) headers -> v = o))
  /\ (forall allow,
        fetch kv request = rpc_handler allow ->
        (method request = "OPTIONS" ->
         origin request = None \/ origin request = Some "")
        /\ match origin request with
           | Some o => allow = o
           | None => allow = "*"
           end)
  /\ (method request = "OPTIONS" ->
      forall o, origin request = Some o -> o <> "" ->
      exists headers, fetch kv request = response 200 None headers)
  /\ (method request <> "OPTIONS" ->
      fetch kv request = rpc_handler (origin_or_star (origin request))).
Proof.
  intros Hnot. unfold fetch. rewrite Hnot.
  destruct (method request =? "OPTIONS") eqn:Hm.
  - apply String.eqb_eq in Hm.
    destruct (origin request) as [o|] eqn:Ho; cbn [Js.truthy andb].
    + destruct (o =? "") eqn:Hempty; cbn [negb origin_or_star].
      * apply String.eqb_eq in Hempty. subst o.
        split; [discriminate|]. split; [discriminate|].
        split; [|split].
        -- intros allow [= <-]. split; [now right | reflexivity].
        -- intros _ o [= <-] Hne. now contradiction Hne.
        -- intros Hne. now contradiction Hne.
      * apply String.eqb_neq in Hempty.
        split; [discriminate|]. split; [|split; [discriminate|split]].
        -- intros status body headers [= <- <- <-].
           do 3 (split; [reflexivity || assumption|]).
           exists o. do 2 (split; [reflexivity || assumption|]).
           split; [now left|].
           intros v [Hin|[Hin|[Hin|[Hin|[]]]]]; now inversion Hin.
        -- intros _ o' [= <-] _. eexists. reflexivity.
        -- intros Hne. now contradiction Hne.
    + split; [discriminate|]. split; [discriminate|]. split; [|split].
      * intros allow [= <-]. split; [now left | reflexivity].
      * intros _ o [=].
      * intros Hne. now contradiction Hne.
  - apply String.eqb_neq in Hm. cbn [andb].
    split; [discriminate|]. split; [discriminate|]. split; [|split].
    + intros allow [= <-]. split.
      * intros Hopt. now contradiction Hm.
      * now destruct (origin request).
    + intros Hopt. now contradiction Hm.
    + reflexivity.
Qed.

Lemma other_requests_get_their_origin_allowed_witness :
  let request :=
    Access.mkRequest "OPTIONS" "/websocket" None None
      (Some "https://chat.example") in
  (method request =? "GET") && (pathname request =? "/websocket") = false
  /\ (forall name, fetch empty_kv request <> durable_object name)
  /\ (forall status body headers,
        fetch empty_kv request = response status body headers ->
        status = 200 /\ body = None
        /\ method request = "OPTIONS"
        /\ exists o,
             origin request = Some o /\ o <> ""
             /\ In ("Access-Control-Allow-Origin", o) headers
             /\ (forall v,
                   In ("Access-Control-Allow-Origin", v) headers -> v = o))
  /\ (forall allow,
        fetch empty_kv request = rpc_handler allow ->
        (method request = "OPTIONS" ->
         origin request = None \/ origin request = Some "")
        /\ match origin request with
           | Some o => allow = o
           | None => allow = "*"
           end)
  /\ (method request = "OPTIONS" ->
      forall o, origin request = Some o -> o <> "" ->
      exists headers, fetch empty_kv request = response 200 None headers)
  /\ (method request <> "OPTIONS" ->
      fetch empty_kv request = rpc_handler (origin_or_star (origin request))).
Proof.
  split; [reflexivity|].
  exact (other_requests_get_their_origin_allowed empty_kv
           (Access.mkRequest "OPTIONS" "/websocket" None None
              (Some "https://chat.example")) eq_refl).
Defined.

End CorsFacts.

(** ** The further properties on the sample data *)

Lemma derived_title_is_stored_and_announced_witness :
  findFirst "c1" (db Sample.world) = Some Sample.untitled
  /\ forallb has_choice Sample.greeting = true
  /\ ends_stream stream_end = true
  /\ title Sample.untitled = None
  /\ Sample.parseTitle (Js.or_else (Some "A greeting"%string) "{}")
     = Some "A greeting"%string
  /\ "A greeting"%string <> ""%string
  /\ (findFirst "c1" (db Runs.greeted)
      = Some (set_title "A greeting"
                (set_updated_at (now Sample.env1) Sample.untitled))
      /\ conversations (db Runs.greeted)
         = update_where (fun c => (conversation_id c =? "c1")%string)
             (fun c => set_title "A greeting"
                         (set_updated_at (now Sample.env1) c))
             (conversations (db Sample.world))
      /\ exists pre,
           sent (emitted Sample.world Runs.greeted)
           = pre ++ [conversation_title_update "e1" "c1" "A greeting"]
           /\ In (chat_stream_done "e1" "c1" None) pre
           /\ filter is_title_update pre = []).
Proof.
  assert (H : "A greeting"%string <> ""%string) by discriminate.
  do 5 (split; [reflexivity|]). split; [exact H|].
  exact (derived_title_is_stored_and_announced Sample.parseTitle Sample.world
           Sample.env0 Sample.env1 "e1" "c1" "Hello" "@cf/model" []
           Sample.greeting stream_end Sample.untitled eq_refl eq_refl eq_refl
           (Some "A greeting"%string) "A greeting" eq_refl eq_refl H).
Defined.

Lemma titled_conversation_keeps_its_title_witness :
  findFirst "c2" (db Fixtures.world) = Some Fixtures.titled
  /\ forallb has_choice Sample.greeting = true
  /\ ends_stream stream_end = true
  /\ title Fixtures.titled = Some "Plans"%string
  /\ (map title (conversations (db MoreRuns.planned))
      = map title (conversations (db Fixtures.world))
      /\ title_attempts (emitted Fixtures.world MoreRuns.planned) = []
      /\ filter is_title_update (sent (emitted Fixtures.world MoreRuns.planned))
         = []
      /\ (exists c,
            findFirst "c2" (db MoreRuns.planned) = Some c
            /\ title c = Some "Plans"%string)).
Proof.
  do 4 (split; [reflexivity|]).
  exact (titled_conversation_keeps_its_title Sample.parseTitle Fixtures.world
           Sample.env0 Sample.env1 "e4" "c2" "More" "@cf/model" []
           Sample.greeting stream_end Runs.title_message Fixtures.titled
           "Plans" eq_refl eq_refl eq_refl eq_refl).
Defined.

Lemma two_turns_unique_ids :
  NoDup (map message_id (messages (db MoreRuns.two_turns))).
Proof.
  simpl. constructor; [intros [H|[]]; discriminate|].
  constructor; [intros []|constructor].
Defined.

Lemma two_turns_long_enough :
  2 <= List.length (findMany "c1" (db MoreRuns.two_turns)).
Proof. vm_compute. lia. Defined.

Lemma regenerate_overwrites_last_assistant_turn_witness :
  2 <= List.length (findMany "c1" (db MoreRuns.two_turns))
  /\ last_message (findMany "c1" (db MoreRuns.two_turns))
     = Some MoreRuns.last_turn
  /\ role MoreRuns.last_turn = assistant
  /\ NoDup (map message_id (messages (db MoreRuns.two_turns)))
  /\ (findMany "c1" (db MoreRuns.regenerated)
      = removelast (findMany "c1" (db MoreRuns.two_turns))
        ++ [set_content (regenerated_text Sample.greeting) MoreRuns.last_turn]
      /\ (forall other,
            other <> "c1"%string ->
            findMany other (db MoreRuns.regenerated)
            = findMany other (db MoreRuns.two_turns))
      /\ List.length (messages (db MoreRuns.regenerated))
         = List.length (messages (db MoreRuns.two_turns))
      /\ conversations (db MoreRuns.regenerated)
         = update_where (fun c => (conversation_id c =? "c1")%string)
             (set_updated_at (now Sample.env1))
             (conversations (db MoreRuns.two_turns))
      /\ done_frames (emitted MoreRuns.two_turns MoreRuns.regenerated)
         = [chat_stream_done "e3" "c1" None]
      /\ streamed_text (emitted MoreRuns.two_turns MoreRuns.regenerated)
         = regenerated_text Sample.greeting
      /\ List.length
           (provider_calls (emitted MoreRuns.two_turns MoreRuns.regenerated))
         = 1).
Proof.
  split; [exact two_turns_long_enough|].
  split; [reflexivity|]. split; [reflexivity|].
  split; [exact two_turns_unique_ids|].
  exact (regenerate_overwrites_last_assistant_turn Sample.parseTitle
           MoreRuns.two_turns Sample.env0 Sample.env1 "e3" "c1" "@cf/model"
           [] MoreRuns.last_turn [] two_turns_long_enough eq_refl eq_refl
           Sample.greeting two_turns_unique_ids).
Defined.

Lemma failed_regenerate_reports_error_without_write_witness :
  2 <= List.length (findMany "c1" (db MoreRuns.two_turns))
  /\ last_message (findMany "c1" (db MoreRuns.two_turns))
     = Some MoreRuns.last_turn
  /\ role MoreRuns.last_turn = assistant
  /\ is_AbortError (error_named "TypeError") = false
  /\ (let wording := "An internal error occurred during regeneration."%string
      in
      let w1 :=
        generation Sample.parseTitle MoreRuns.two_turns Sample.env0
          Sample.regenerate Sample.env1 [rejected (error_named "AbortError")] in
      let w2 :=
        generation Sample.parseTitle MoreRuns.two_turns Sample.env0
          Sample.regenerate Sample.env1
          (stream_replies Sample.greeting (rejected (error_named "TypeError"))
           ++ []) in
      (sent (emitted MoreRuns.two_turns w1) = [error "e3" wording]
       /\ db w1 = db MoreRuns.two_turns)
      /\ (exists pre,
             sent (emitted MoreRuns.two_turns w2) = pre ++ [error "e3" wording]
             /\ filter is_done pre = []
             /\ filter is_error pre = [])
      /\ streamed_text (emitted MoreRuns.two_turns w2)
         = regenerated_text Sample.greeting
      /\ db w2 = db MoreRuns.two_turns).
Proof.
  split; [exact two_turns_long_enough|].
  do 3 (split; [reflexivity|]).
  exact (failed_regenerate_reports_error_without_write Sample.parseTitle
           MoreRuns.two_turns Sample.env0 Sample.env1 "e3" "c1" "@cf/model"
           [] MoreRuns.last_turn [] two_turns_long_enough eq_refl eq_refl
           Sample.greeting (error_named "AbortError") (error_named "TypeError") eq_refl).
Defined.

Lemma cancel_aborts_signal_of_latest_generation_witness :
  starts_generation Sample.hello = true
  /\ forallb is_reply [(Sample.env1, reply 0 resolved_stream)] = true
  /\ In MoreRuns.hello_request
       (provider_calls (emitted Sample.world Runs.first_in_flight))
  /\ (let w2 :=
        run Sample.parseTitle Runs.first_in_flight
          [(Sample.env1, reply 0 resolved_stream)] in
      let w3 :=
        webSocketMessage Sample.env1 w2 (chat_stream_cancel "e9" "c7") in
      exists k,
        req_signal MoreRuns.hello_request = Some k
        /\ aborted (session w2) k = false
        /\ aborted (session w3) k = true).
Proof.
  assert (H : In MoreRuns.hello_request
                (provider_calls (emitted Sample.world Runs.first_in_flight)))
    by (left; reflexivity).
  split; [reflexivity|]. split; [reflexivity|]. split; [exact H|].
  exact (cancel_aborts_signal_of_latest_generation Sample.parseTitle
           Sample.world Sample.env0 Sample.env1 Sample.hello
           [(Sample.env1, reply 0 resolved_stream)] "e9" "c7"
           MoreRuns.hello_request eq_refl eq_refl H).
Defined.

Lemma first_in_flight_well_formed :
  well_formed (session Runs.first_in_flight).
Proof. unfold well_formed. vm_compute. lia. Defined.

Lemma superseded_generation_cannot_be_cancelled_witness :
  well_formed (session Runs.first_in_flight)
  /\ starts_generation Sample.again = true
  /\ aborted
       (session
          (run Sample.parseTitle
             (webSocketMessage Sample.env1 Runs.first_in_flight Sample.again)
             [(Sample.env1, frame (chat_stream_cancel "e9" "c1"))]))
       (abortController (session Runs.first_in_flight))
     = aborted (session Runs.first_in_flight)
         (abortController (session Runs.first_in_flight)).
Proof.
  split; [exact first_in_flight_well_formed|]. split; [reflexivity|].
  exact (superseded_generation_cannot_be_cancelled Sample.parseTitle
           Runs.first_in_flight Sample.env1 Sample.again
           [(Sample.env1, frame (chat_stream_cancel "e9" "c1"))]
           first_in_flight_well_formed eq_refl).
Defined.

Lemma createConversation_adds_untitled_conversation_witness :
  findFirst (randomUUID Fixtures.fresh) Sample.storage = None
  /\ (let d' := fst (createConversation Fixtures.fresh Sample.storage) in
      let c := snd (createConversation Fixtures.fresh Sample.storage) in
      conversation_id c = randomUUID Fixtures.fresh
      /\ title c = None
      /\ pinned c = false
      /\ findFirst (conversation_id c) d' = Some c
      /\ (forall other,
            other <> conversation_id c ->
            findFirst other d' = findFirst other Sample.storage)
      /\ (forall conversationId,
            listMessages conversationId d'
            = listMessages conversationId Sample.storage)
      /\ List.length (conversations d')
         = S (List.length (conversations Sample.storage))).
Proof.
  split; [reflexivity|].
  exact (createConversation_adds_untitled_conversation Fixtures.fresh
           Sample.storage eq_refl).
Defined.

Lemma completed_generation_extends_history_witness :
  findFirst "c1" (db MoreRuns.two_turns) = Some Sample.untitled
  /\ forallb has_choice Sample.greeting = true
  /\ ends_stream stream_end = true
  /\ (forall m,
        In m (listMessages "c1" (db MoreRuns.two_turns)) ->
        (message_created_at m <? now Sample.env0)%string = true)
  /\ (now Sample.env0 <? now Sample.env1)%string = true
  /\ (listMessages "c1" (db MoreRuns.answered_again)
      = listMessages "c1" (db MoreRuns.two_turns)
        ++ [user_row Sample.env0 "c1" "Again";
            assistant_row Sample.env1 "c1" (text_of (deltas Sample.greeting))]
      /\ (forall other,
            other <> "c1"%string ->
            listMessages other (db MoreRuns.answered_again)
            = listMessages other (db MoreRuns.two_turns))).
Proof.
  do 3 (split; [reflexivity|]). split; [exact two_turns_are_earlier|].
  split; [reflexivity|].
  exact (completed_generation_extends_history Sample.parseTitle
           MoreRuns.two_turns Sample.env0 Sample.env1 "e2" "c1" "Again"
           "@cf/model" [] Sample.greeting stream_end Runs.title_message
           Sample.untitled eq_refl eq_refl eq_refl two_turns_are_earlier
           eq_refl).
Defined.

Lemma deleted_conversation_still_receives_assistant_turn_witness :
  nth_error (tasks Fixtures.streaming) 0
  = Some (chat_streaming MoreRuns.hello_locals "Hi" [])
  /\ ends_stream stream_end = true
  /\ (let w1 := rpc (deleteConversation "c1") Fixtures.streaming in
      let w2 := deliver Sample.parseTitle Sample.env1 w1 0 stream_end in
      findFirst "c1" (db w2) = None
      /\ listMessages "c1" (db w2) = [assistant_row Sample.env1 "c1" "Hi"]
      /\ In (chat_stream_done "e1" "c1" None) (sent (emitted w1 w2))
      /\ filter is_error (sent (emitted w1 w2)) = []).
Proof.
  do 2 (split; [reflexivity|]).
  exact (deleted_conversation_still_receives_assistant_turn Sample.parseTitle
           Sample.env1 Fixtures.streaming 0 MoreRuns.hello_locals "Hi" []
           stream_end eq_refl eq_refl).
Defined.

Lemma rename_during_first_generation_is_overwritten_witness :
  nth_error (tasks Fixtures.streaming) 0
  = Some (chat_streaming MoreRuns.hello_locals "Hi" [])
  /\ title (chat_conversation MoreRuns.hello_locals) = None
  /\ findFirst "c1" (db Fixtures.streaming) = Some Sample.untitled
  /\ ends_stream stream_end = true
  /\ Sample.parseTitle (Js.or_else (Some "A greeting"%string) "{}")
     = Some "A greeting"%string
  /\ "A greeting"%string <> ""%string
  /\ (let w1 := rpc (renameConversation "c1" "Mine") Fixtures.streaming in
      let w2 :=
        run Sample.parseTitle w1
          [(Sample.env1, reply 0 stream_end);
           (Sample.env1, reply 0 (resolved_completion (Some "A greeting"%string)))]
      in
      (exists c, findFirst "c1" (db w1) = Some c /\ title c = Some "Mine"%string)
      /\ (exists c,
            findFirst "c1" (db w2) = Some c
            /\ title c = Some "A greeting"%string)
      /\ List.length (title_attempts (emitted w1 w2)) = 1).
Proof.
  assert (H : "A greeting"%string <> ""%string) by discriminate.
  do 5 (split; [reflexivity|]). split; [exact H|].
  exact (rename_during_first_generation_is_overwritten Sample.parseTitle
           Sample.env1 Fixtures.streaming 0 MoreRuns.hello_locals "Hi" []
           stream_end "Mine" (Some "A greeting"%string) "A greeting"
           Sample.untitled eq_refl eq_refl eq_refl eq_refl eq_refl H).
Defined.

Lemma rename_before_first_turn_suppresses_title_witness :
  findFirst "c1" (db Sample.world) = Some Sample.untitled
  /\ forallb has_choice Sample.greeting = true
  /\ ends_stream stream_end = true
  /\ (let w1 := rpc (renameConversation "c1" "") Sample.world in
      title_attempts (emitted w1 MoreRuns.renamed_first) = []
      /\ filter is_title_update (sent (emitted w1 MoreRuns.renamed_first)) = []
      /\ (exists c,
            findFirst "c1" (db MoreRuns.renamed_first) = Some c
            /\ title c = Some ""%string)).
Proof.
  do 3 (split; [reflexivity|]).
  exact (rename_before_first_turn_suppresses_title Sample.parseTitle
           Sample.world Sample.env0 Sample.env1 "e1" "c1" "Hello" "@cf/model"
           "" [] Sample.greeting stream_end Runs.title_message Sample.untitled
           eq_refl eq_refl eq_refl).
Defined.

Lemma two_words_are_short :
  List.length (Speech.words [104; 105; 32; 121; 111; 117]%N) < 100.
Proof. vm_compute. lia. Defined.

Lemma short_text_is_spoken_whole_witness :
  List.length (Speech.words [104; 105; 32; 121; 111; 117]%N) < 100
  /\ (let text := [104; 105; 32; 121; 111; 117]%N in
      let chunking := fun _ : Speech.Text => @None (list Speech.Text) in
      let synthesize := fun (_ : nat) (t : Speech.Text) => Some t in
      fst (Speech.streamTTS chunking synthesize text) = false
      /\ (Speech.words text = [] ->
          snd (Speech.streamTTS chunking synthesize text) = ([], []))
      /\ (Speech.words text <> [] ->
          snd (Speech.streamTTS chunking synthesize text)
          = ([text],
             match synthesize 0 text with
             | Some audio => [audio]
             | None => []
             end))).
Proof.
  split; [exact two_words_are_short|].
  exact (SpeechFacts.short_text_is_spoken_whole (fun _ => None)
           (fun _ t => Some t) [104; 105; 32; 121; 111; 117]%N
           two_words_are_short).
Defined.

(** The splitting of a text on the sample data: leading, trailing and
    repeated whitespace give no word. *)
Example words_of_spaced_text :
  Speech.words [32; 104; 105; 9; 10; 121; 111; 117; 160]%N
  = [[104; 105]; [121; 111; 117]]%N
  /\ Speech.split_spaces false [32; 104; 105]%N = [[]; [104; 105]]%N
  /\ Speech.split_spaces false [104; 105; 32]%N = [[104; 105]; []]%N
  /\ Speech.split_spaces false [] = [[]].
Proof. repeat split. Qed.

(** ** A regeneration cancelled while its stream is iterated *)

Lemma cancelled_regenerate_still_overwrites_witness :
  2 <= List.length (findMany "c1" (db MoreRuns.two_turns))
  /\ last_message (findMany "c1" (db MoreRuns.two_turns))
     = Some MoreRuns.last_turn
  /\ role MoreRuns.last_turn = assistant
  /\ (let w := MoreRuns.two_turns in
      let w1 := webSocketMessage Sample.env0 w Sample.regenerate in
      let w' := MoreRuns.regenerate_cancelled in
      (exists req,
          provider_calls (emitted w w') = [req]
          /\ req_signal req = Some (abortController (session w'))
          /\ aborted (session w1) (abortController (session w')) = false
          /\ aborted (session w') (abortController (session w')) = true)
      /\ streamed_text (emitted w w')
         = regenerated_text [Sample.text_delta "Hi"]
      /\ done_frames (emitted w w') = [chat_stream_done "e3" "c1" None]
      /\ messages (db w')
         = update_where
             (fun x => (message_id x =? message_id MoreRuns.last_turn)%string)
             (set_content (regenerated_text [Sample.text_delta "Hi"]))
             (messages (db w))
      /\ conversations (db w')
         = update_where (fun c => (conversation_id c =? "c1")%string)
             (set_updated_at (now Sample.env1)) (conversations (db w))
      /\ tasks w' = tasks w ++ [settled]).
Proof.
  split; [exact two_turns_long_enough|].
  split; [reflexivity|]. split; [reflexivity|].
  exact (cancelled_regenerate_still_overwrites Sample.parseTitle
           MoreRuns.two_turns Sample.env0 Sample.env1 "e3" "c1" "@cf/model"
           [] MoreRuns.last_turn two_turns_long_enough eq_refl eq_refl
           [Sample.text_delta "Hi"] "e9" "c1").
Defined.

(** The same run, frame by frame and row by row: the regeneration of
    "Hi there" has streamed "Hi" when the cancel arrives; the stored
    answer becomes "Hi".  Had the iteration thrown an [AbortError]
    instead, nothing would have been sent after "Hi" and nothing
    written. *)
Example cancelled_regenerate_on_two_turns :
  let w := MoreRuns.two_turns in
  let w' := MoreRuns.regenerate_cancelled in
  let thrown :=
    generation Sample.parseTitle w Sample.env0 Sample.regenerate Sample.env1
      (stream_replies [Sample.text_delta "Hi"] Sample.abort_error) in
  map req_signal (provider_calls (emitted w w')) = [Some 1]
  /\ aborted (session w') 1 = true
  /\ sent (emitted w w')
     = [chat_stream_response "e3" "c1" "Hi"; chat_stream_done "e3" "c1" None]
  /\ map content (findMany "c1" (db w)) = ["Hello"; "Hi there"]%string
  /\ map content (findMany "c1" (db w')) = ["Hello"; "Hi"]%string
  /\ map conversation_updated_at (conversations (db w'))
     = [now Sample.env1]
  /\ db w' <> db w
  /\ sent (emitted w thrown) = [chat_stream_response "e3" "c1" "Hi"]
  /\ db thrown = db w.
Proof. cbv zeta. repeat split. discriminate. Qed.
